(** * net-echo: the echo clients' utilities ([eutils.c])

    A shallow embedding of [eutils.c]: the address comparison, the two
    receivers and the two chunked transfer engines first, with the
    properties of the specification stated and proved over them; then the
    rest of the file, the copy between two descriptors, the name of the
    copy, the reader of commands, the command line and the set-up of
    sockets and addresses, with properties of their own.

    Conventions of the embedding.
    - [assert] is live in this program (it wraps calls with side effects,
      such as [assert(!fclose(copy))]), so a failed assertion is an outcome
      of its own, [AssertFailed]; [exit(1)] is [Exited 1].
    - C [int]s are integers of [Z]; where the code stores the result of an
      addition into an [int] the wrap-around is written [to_int].
    - Buffers and files are lists of bytes; how much memory [alloca] can
      give is not modelled.
    - The network and the peer are an oracle: the result of every system
      call as a function of the calls made so far.  The hook [f] only ever
      gets the socket, so a call of it is one more call on the socket.
    - The loops take fuel; [process_file_halts] shows that the fuel they
      are given is enough.
    - The standard input, the XIA library and the files of the set-up
      functions are oracles of the same kind, each with the state it
      needs. *)

From Stdlib Require Import Ascii String.
From Stdlib Require Import Strings.Byte.
From Stdlib Require Import ZArith List Bool Lia.
Import ListNotations.

Local Open Scope Z_scope.

(** ** Outcomes *)

Inductive result (A : Type) : Type :=
| Ok (a : A)            (* the call returned *)
| AssertFailed          (* assert() aborted the process *)
| Exited (status : Z)   (* exit(status) *)
| OutOfFuel.            (* a loop of the model ran out of iterations *)

Arguments Ok {A} a.
Arguments AssertFailed {A}.
Arguments Exited {A} status.
Arguments OutOfFuel {A}.

(** ** What the headers provide

    [eutils.h] and the XIA headers it includes are not part of the
    sources, so the constants the code takes from them are the fields of a
    class.  [AF_distinct] is what makes the [switch] of [address_match]
    compile: two [case] labels are never equal. *)

Class Platform : Type := {
  AF_INET : Z;
  AF_XIA : Z;
  AF_distinct : AF_INET <> AF_XIA;
  XIA_NODES_MAX : nat;          (* rows of a struct xia_addr *)
  XIA_XID_MAX : nat;            (* bytes of the array xid_id *)
  xia_is_nat : Z -> bool        (* is this principal type "not a type"? *)
}.

(** ** Addresses *)

(** [struct xia_xid]: a principal type and an identifier.  The identifier
    is an array of [XIA_XID_MAX] bytes; like the rows of an address
    below, the bytes a list leaves out are zeros, and [id_byte] is how the
    array is read. *)
Record xia_xid : Type := {
  xid_type : Z;
  xid_id : list byte
}.

Definition id_byte (x : xia_xid) (i : nat) : byte := nth i (xid_id x) x00.

(** [struct xia_row]: an XID and its edges. *)
Record xia_row : Type := {
  s_xid : xia_xid;
  s_edge : Z
}.

(** [struct xia_addr]: the array [s_row].  [__get_addr] clears the storage
    before an address is parsed into it, so the rows a list leaves out are
    rows of zeros. *)
Record xia_addr : Type := {
  s_row : list xia_row
}.

Definition zero_row : xia_row :=
  {| s_xid := {| xid_type := 0; xid_id := [] |}; s_edge := 0 |}.

Definition row (a : xia_addr) (i : nat) : xia_row := nth i (s_row a) zero_row.

(** A socket address as the code looks at it through a
    [struct sockaddr *]: the family tag, the bytes of the object (what
    [memcmp] reads in the [AF_INET] case) and the same storage seen as a
    [struct sockaddr_xia]. *)
Record sockaddr : Type := {
  sa_family : Z;
  sa_bytes : list byte;
  sxia_addr : xia_addr
}.

Fixpoint bytes_eqb (a b : list byte) : bool :=
  match a, b with
  | [], [] => true
  | x :: a', y :: b' => Byte.eqb x y && bytes_eqb a' b'
  | _, _ => false
  end.

(** [!memcmp(a, b, n)] on two byte images. *)
Definition memcmp_eq (a b : list byte) (n : Z) : bool :=
  bytes_eqb (firstn (Z.to_nat n) a) (firstn (Z.to_nat n) b).

Section Address.
Context {P : Platform}.

(** The bytes of the array [xid_id] of [x], all [XIA_XID_MAX] of them. *)
Definition xid_id_image (x : xia_xid) : list byte :=
  map (id_byte x) (seq 0 XIA_XID_MAX).

(** [!memcmp(&x, &y, sizeof(struct xia_xid))]: the structure is the type
    followed by the array of the identifier, without padding, so its size
    is the same for every XID and the comparison reads the type and the
    [XIA_XID_MAX] bytes of both. *)
Definition xid_memcmp_eq (x y : xia_xid) : bool :=
  (xid_type x =? xid_type y) && bytes_eqb (xid_id_image x) (xid_id_image y).

(** The [for] loop of [count_rows], at index [i] with [n] rows still to
    look at. *)
Fixpoint count_rows_from (a : xia_addr) (i n : nat) : nat :=
  match n with
  | O => i
  | S n' =>
      if xia_is_nat (xid_type (s_xid (row a i))) then i
      else count_rows_from a (S i) n'
  end.

Definition count_rows (xia : sockaddr) : nat :=
  count_rows_from (sxia_addr xia) 0 XIA_NODES_MAX.

(** The XID [address_match] compares: that of row [count_rows - 1]. *)
Definition last_xid (xia : sockaddr) : xia_xid :=
  s_xid (row (sxia_addr xia) (count_rows xia - 1)).

Definition address_match (addr : sockaddr) (addr_len : Z)
    (expected : sockaddr) (exp_len : Z) : result bool :=
  if negb (sa_family addr =? sa_family expected) then AssertFailed
  else if sa_family addr =? AF_INET then
    Ok ((addr_len =? exp_len)
        && memcmp_eq (sa_bytes addr) (sa_bytes expected) addr_len)
  else if sa_family addr =? AF_XIA then
    let addr_n := count_rows addr in
    let exp_n := count_rows expected in
    if negb ((0 <? addr_n)%nat && (0 <? exp_n)%nat) then AssertFailed
    else Ok (xid_memcmp_eq (last_xid addr) (last_xid expected))
  else AssertFailed.

End Address.

(** ** The process and the network *)

(** What [recvfrom] finds: an error, or a datagram with its sender. *)
Inductive recv_res : Type :=
| RecvErr
| RecvDgram (src : sockaddr) (src_len : Z) (data : list byte).

(** What [read] finds: an error, or bytes ([ReadBytes []] is end of
    stream). *)
Inductive read_res : Type :=
| ReadErr
| ReadBytes (data : list byte).

(** The calls on the socket, each with its result. *)
Inductive event : Type :=
| Sendto (buf : list byte) (dst : sockaddr) (dst_len : Z) (rc : Z)
| Select (rc : Z)
| Recvfrom (n : Z) (r : recv_res)
| Write (buf : list byte) (rc : Z)
| Read (n : Z) (r : read_res)
| Mark.                                   (* a call of the hook [f(s)] *)

(** The network and the peer: the result of each call given the calls made
    so far, most recent first. *)
Record network : Type := {
  net_sendto : list event -> list byte -> sockaddr -> Z -> Z;
  net_select : list event -> Z;
  net_recvfrom : list event -> recv_res;
  net_write : list event -> list byte -> Z;
  net_read : list event -> Z -> read_res
}.

(** The state of the process: the two [FILE]s, the standard error stream
    and the calls made on the socket. *)
Record proc : Type := {
  orig : list byte;       (* bytes of [orig] not read yet *)
  orig_eof : bool;        (* feof(orig) *)
  copy : list byte;       (* bytes written to [copy] *)
  stderr : string;
  calls : list event      (* most recent first *)
}.

Definition M (A : Type) : Type := proc -> result A * proc.

Definition ret {A : Type} (a : A) : M A := fun p => (Ok a, p).

Definition bind {A B : Type} (m : M A) (k : A -> M B) : M B :=
  fun p =>
    match m p with
    | (Ok a, p') => k a p'
    | (AssertFailed, p') => (AssertFailed, p')
    | (Exited st, p') => (Exited st, p')
    | (OutOfFuel, p') => (OutOfFuel, p')
    end.

Declare Scope proc_scope.
Delimit Scope proc_scope with proc.
Notation "x <- m ;; k" := (bind m (fun x => k))
  (at level 61, m at next level, right associativity) : proc_scope.
Notation "m ;; k" := (bind m (fun _ => k))
  (at level 61, right associativity) : proc_scope.
Local Open Scope proc_scope.

Definition lift {A : Type} (r : result A) : M A := fun p => (r, p).

Definition assert (b : bool) : M unit :=
  if b then ret tt else lift AssertFailed.

Definition exit {A : Type} (status : Z) : M A := lift (Exited status).

Definition diverge {A : Type} : M A := lift OutOfFuel.

Definition with_calls (h : list event) (p : proc) : proc :=
  {| orig := orig p; orig_eof := orig_eof p; copy := copy p;
     stderr := stderr p; calls := h |}.

Definition log (e : event) : M unit := fun p =>
  (Ok tt, with_calls (e :: calls p) p).

(** [fprintf(stderr, msg)] *)
Definition fprintf_stderr (msg : string) : M unit := fun p =>
  (Ok tt, {| orig := orig p; orig_eof := orig_eof p; copy := copy p;
             stderr := String.append (stderr p) msg; calls := calls p |}).

(** The process once [fread(buf, 1, n, orig)] has returned: the
    end-of-file indicator is set when the file ends before [n] bytes are
    read. *)
Definition after_fread (n : Z) (p : proc) : proc :=
  {| orig := skipn (Z.to_nat n) (orig p);
     orig_eof := orig_eof p
                 || (length (firstn (Z.to_nat n) (orig p)) <? Z.to_nat n)%nat;
     copy := copy p; stderr := stderr p; calls := calls p |}.

(** [fread(buf, 1, n, orig)]: the bytes read. *)
Definition fread (n : Z) : M (list byte) := fun p =>
  (Ok (firstn (Z.to_nat n) (orig p)), after_fread n p).

Definition feof : M bool := fun p => (Ok (orig_eof p), p).

(** [fwrite(out, sizeof(char), n, copy)] *)
Definition fwrite (out : list byte) (n : Z) : M unit := fun p =>
  (Ok tt, {| orig := orig p; orig_eof := orig_eof p;
             copy := copy p ++ firstn (Z.to_nat n) out;
             stderr := stderr p; calls := calls p |}).

(** [fopen(orig_name, "rb")] and [fopen_copy(orig_name, "wb")], both
    succeeding: [contents] is what the file [orig_name] holds, the copy
    starts empty. *)
Definition fopen_both (contents : list byte) : M unit := fun p =>
  (Ok tt, {| orig := contents; orig_eof := false; copy := [];
             stderr := stderr p; calls := calls p |}).

(** *** System calls

    Each one asks the network for its result and records the call. *)

Definition sendto (net : network) (buf : list byte) (dst : sockaddr)
    (dst_len : Z) : M Z := fun p =>
  let rc := net_sendto net (calls p) buf dst dst_len in
  (log (Sendto buf dst dst_len rc) ;; ret rc) p.

Definition select (net : network) : M Z := fun p =>
  let rc := net_select net (calls p) in
  (log (Select rc) ;; ret rc) p.

(** [recvfrom(s, out, n, 0, &src, &len)]: a datagram longer than the
    buffer is cut to [n] bytes.  ([n] is negative only once [bytes_sent]
    has wrapped around; the model then delivers nothing.) *)
Definition recvfrom (net : network) (n : Z) : M recv_res := fun p =>
  let r := match net_recvfrom net (calls p) with
           | RecvErr => RecvErr
           | RecvDgram src len data =>
               RecvDgram src len (firstn (Z.to_nat n) data)
           end in
  (log (Recvfrom n r) ;; ret r) p.

Definition write (net : network) (buf : list byte) : M Z := fun p =>
  let rc := net_write net (calls p) buf in
  (log (Write buf rc) ;; ret rc) p.

(** What [read] returns after the calls [h] when asked for [n] bytes: at
    most [n] bytes are transferred. *)
Definition read_result (net : network) (h : list event) (n : Z) : read_res :=
  match net_read net h n with
  | ReadErr => ReadErr
  | ReadBytes data => ReadBytes (firstn (Z.to_nat n) data)
  end.

(** [read(s, out + n_read, n)] *)
Definition read (net : network) (n : Z) : M read_res := fun p =>
  let r := read_result net (calls p) n in
  (log (Read n r) ;; ret r) p.

(** [if (f) f(s);], where [f] says whether there is a hook. *)
Definition call_mark (f : bool) : M unit :=
  if f then log Mark else ret tt.

(** ** [int] arithmetic *)

Definition INT_MAX : Z := 2147483647.

(** The value an [int] holds after an out-of-range result is stored in
    it (for [count++], where C leaves the overflow undefined, the usual
    two's-complement result). *)
Definition to_int (z : Z) : Z := (z + 2147483648) mod 4294967296 - 2147483648.

(** ** The functions of [eutils.c] *)

(** The locals [count] and [bytes_sent] of the two engines. *)
Record counters : Type := {
  count : Z;
  bytes_sent : Z
}.

Definition zero_counters : counters := {| count := 0; bytes_sent := 0 |}.

(** [do { body } while (!feof(orig));] on the counters, for at most [fuel]
    turns. *)
Fixpoint do_while_not_feof (fuel : nat) (body : counters -> M counters)
    (c : counters) : M counters :=
  match fuel with
  | O => diverge
  | S fuel' =>
      c' <- body c ;;
      eof <- feof ;;
      if eof then ret c' else do_while_not_feof fuel' body c'
  end.

Section Engine.
Context {P : Platform}.
Variable net : network.

Definition send_packet (buf : list byte) (n : Z) (dst : sockaddr)
    (dst_len : Z) : M unit :=
  rc <- sendto net (firstn (Z.to_nat n) buf) dst dst_len ;;
  if rc <? 0 then
    (* the message, without the text of errno *)
    fprintf_stderr "send_packet: sendto"%string ;;
    exit 1
  else ret tt.

Definition recv_write (expected_src : sockaddr) (exp_src_len : Z)
    (n_sent : Z) : M unit :=
  (* Is there anything to read? *)
  rc <- select net ;;
  assert (0 <=? rc) ;;
  if rc =? 0 then
    (* A packet was dropped. *)
    fprintf_stderr "."%string
  else
    (* Read. *)
    r <- recvfrom net n_sent ;;
    match r with
    | RecvErr => assert false                        (* n_read < 0 *)
    | RecvDgram src len out =>
        let n_read := Z.of_nat (length out) in
        (* Make sure that we're reading from the server. *)
        ok <- lift (address_match src len expected_src exp_src_len) ;;
        assert ok ;;
        (* Write. *)
        fwrite out n_read
    end.

(** The [while] loop of [read_write]; [None] is its early [return]. *)
Fixpoint read_loop (fuel : nat) (n_sent : Z) (out : list byte) (n_read : Z)
    : M (option (list byte * Z)) :=
  if n_sent >? n_read then
    match fuel with
    | O => diverge
    | S fuel' =>
        r <- read net (n_sent - n_read) ;;
        match r with
        | ReadErr =>                                  (* len < 0 *)
            fprintf_stderr "."%string ;; ret None
        | ReadBytes data =>
            let len := Z.of_nat (length data) in
            if len <=? 0 then
              (* The connection was closed or an error occorred. *)
              fprintf_stderr "."%string ;; ret None
            else read_loop fuel' n_sent (out ++ data) (n_read + len)
        end
    end
  else ret (Some (out, n_read)).

(** Every turn of the loop reads at least one byte, so [n_sent] turns are
    enough. *)
Definition read_write (n_sent : Z) : M unit :=
  r <- read_loop (Z.to_nat n_sent) n_sent [] 0 ;;
  match r with
  | None => ret tt
  | Some (out, n_read) =>
      assert (n_read =? n_sent) ;;
      (* Write. *)
      fwrite out n_read
  end.

(** The first half of a turn of [datagram_process_file]'s loop: read a
    chunk and, if there is one, send it and count it. *)
Definition datagram_send_chunk (srv : sockaddr) (srv_len : Z)
    (chunk_size : Z) (c : counters) : M counters :=
  buf <- fread chunk_size ;;
  let bytes_read := Z.of_nat (length buf) in
  if 0 <? bytes_read then
    send_packet buf bytes_read srv srv_len ;;
    ret {| count := to_int (count c + 1);
           bytes_sent := to_int (bytes_sent c + bytes_read) |}
  else ret c.

(** The second half: [if (count == times) { ... }]. *)
Definition datagram_checkpoint (srv : sockaddr) (srv_len : Z) (times : Z)
    (f : bool) (c : counters) : M counters :=
  if count c =? times then
    call_mark f ;;
    recv_write srv srv_len (bytes_sent c) ;;
    ret {| count := 0; bytes_sent := 0 |}
  else ret c.

(** One turn of the [do ... while] of [datagram_process_file]. *)
Definition datagram_turn (srv : sockaddr) (srv_len : Z) (chunk_size times : Z)
    (f : bool) (c : counters) : M counters :=
  c1 <- datagram_send_chunk srv srv_len chunk_size c ;;
  datagram_checkpoint srv srv_len times f c1.

Definition datagram_loop (fuel : nat) (srv : sockaddr) (srv_len : Z)
    (chunk_size times : Z) (f : bool) (c : counters) : M counters :=
  do_while_not_feof fuel (datagram_turn srv srv_len chunk_size times f) c.

(** What follows the loop: the last, partial batch. *)
Definition datagram_flush (srv : sockaddr) (srv_len : Z) (f : bool)
    (c : counters) : M unit :=
  if negb (count c =? 0) then
    call_mark f ;;
    recv_write srv srv_len (bytes_sent c)
  else ret tt.

(** [datagram_process_file], on a file [orig_name] that holds [contents].
    Both [fopen]s and both [fclose]s are taken to succeed and [orig] to
    read without error.  A turn of the loop reads a byte or meets the end
    of the file, so one turn more than the file has bytes is enough. *)
Definition datagram_process_file (srv : sockaddr) (srv_len : Z)
    (contents : list byte) (chunk_size times : Z) (f : bool) : M unit :=
  fopen_both contents ;;
  c <- datagram_loop (S (length contents)) srv srv_len chunk_size times f
         {| count := 0; bytes_sent := 0 |} ;;
  datagram_flush srv srv_len f c.

(** The first half of a turn of [stream_process_file]'s loop. *)
Definition stream_send_chunk (chunk_size : Z) (c : counters) : M counters :=
  buf <- fread chunk_size ;;
  let bytes_read := Z.of_nat (length buf) in
  if 0 <? bytes_read then
    rc <- write net (firstn (Z.to_nat bytes_read) buf) ;;
    assert (rc =? bytes_read) ;;
    ret {| count := to_int (count c + 1);
           bytes_sent := to_int (bytes_sent c + bytes_read) |}
  else ret c.

(** The second half: [if (count == times) { ... }]. *)
Definition stream_checkpoint (times : Z) (f : bool) (c : counters)
    : M counters :=
  if count c =? times then
    call_mark f ;;
    read_write (bytes_sent c) ;;
    ret {| count := 0; bytes_sent := 0 |}
  else ret c.

(** One turn of the [do ... while] of [stream_process_file]. *)
Definition stream_turn (chunk_size times : Z) (f : bool) (c : counters)
    : M counters :=
  c1 <- stream_send_chunk chunk_size c ;;
  stream_checkpoint times f c1.

Definition stream_loop (fuel : nat) (chunk_size times : Z) (f : bool)
    (c : counters) : M counters :=
  do_while_not_feof fuel (stream_turn chunk_size times f) c.

Definition stream_flush (f : bool) (c : counters) : M unit :=
  if negb (count c =? 0) then
    call_mark f ;;
    read_write (bytes_sent c)
  else ret tt.

Definition stream_process_file (contents : list byte) (chunk_size times : Z)
    (f : bool) : M unit :=
  fopen_both contents ;;
  c <- stream_loop (S (length contents)) chunk_size times f
         {| count := 0; bytes_sent := 0 |} ;;
  stream_flush f c.

End Engine.

(** * The rest of [eutils.c] *)

(** ** Copying a descriptor to another: [copy_data] *)

Section CopyData.
Variable net : network.

(** [copy_data(from, to)].  The two descriptors are the two sides of
    [net]: [net_read] is what [from] delivers and [net_write] what [to]
    takes.  Nothing bounds the number of turns of the [while], so the
    fuel is the caller's; [copy_data_copies] shows how much a source that
    ends needs. *)
Fixpoint copy_data (fuel : nat) : M unit :=
  match fuel with
  | O => diverge
  | S fuel' =>
      r <- read net 2048 ;;
      match r with
      | ReadErr => assert false                       (* amount < 0 *)
      | ReadBytes buf =>
          let amount := Z.of_nat (length buf) in
          if 0 <? amount then
            rc <- write net (firstn (Z.to_nat amount) buf) ;;
            assert (rc =? amount) ;;
            copy_data fuel'
          else assert (0 <=? amount)
      end
  end.

End CopyData.

(** ** The name of the copy: [fopen_copy] *)

Definition FILE_APPENDIX : string := "_echo".

(** [snprintf(str, size, "%s%s", a, b)]: what is stored, without its
    terminator, and the result. *)
Definition snprintf_ss (size : Z) (a b : string) : string * Z :=
  let s := (a ++ b)%string in
  (substring 0 (Z.to_nat (size - 1)) s,
   if Z.of_nat (String.length s) <=? INT_MAX
   then Z.of_nat (String.length s) else -1).

(** [fopen_copy(orig_name, mode)] up to its [fopen]: the name of the file
    it opens.  [name_len] is an [int], and [snprintf] takes it as a
    [size_t]. *)
Definition fopen_copy_name (orig_name : string) : result string :=
  let name_len :=
    to_int (Z.of_nat (String.length orig_name)
            + Z.of_nat (String.length FILE_APPENDIX) + 1) in
  let (copy_name, n) :=
    snprintf_ss (name_len mod 18446744073709551616) orig_name FILE_APPENDIX in
  if n =? name_len - 1 then Ok copy_name else AssertFailed.

(** ** Reading a command: [read_command] *)

(** The standard input as [read_command] meets it: the bytes not read
    yet, the end-of-file indicator, and whether running out of bytes is a
    read error rather than the end of the input. *)
Record console : Type := {
  stdin : list byte;
  stdin_eof : bool;          (* feof(stdin) *)
  stdin_fails : bool;        (* no byte left: a read error, not the end *)
  con_stderr : string
}.

Definition NUL : byte := x00.
Definition NL : byte := x0a.

(** [strlen(s)] on an array: the bytes before the first NUL. *)
Fixpoint strlen (s : list byte) : nat :=
  match s with
  | [] => O
  | c :: s' => if Byte.eqb c NUL then O else S (strlen s')
  end.

(** The C string an array holds. *)
Definition c_str (s : list byte) : list byte := firstn (strlen s) s.

(** [memcpy(buf, s, strlen)]: [s] over the beginning of the array. *)
Definition store (s buf : list byte) : list byte := s ++ skipn (length s) buf.

(** [buf[i] = c] *)
Fixpoint set_nth (i : nat) (c : byte) (buf : list byte) : list byte :=
  match i, buf with
  | O, _ :: buf' => c :: buf'
  | S i', b :: buf' => b :: set_nth i' c buf'
  | _, [] => []
  end.

(** The characters [fgets] takes when there is room for [n] of them: up
    to the first newline, which it takes as well.  The flag tells that it
    wanted one more character and there was none. *)
Fixpoint take_line (n : nat) (s : list byte) : list byte * bool :=
  match n with
  | O => ([], false)
  | S n' =>
      match s with
      | [] => ([], true)
      | c :: s' =>
          if Byte.eqb c NL then ([c], false)
          else let (l, e) := take_line n' s' in (c :: l, e)
      end
  end.

(** [fgets(buf, len, stdin)]: whether the result is [buf] (not [NULL]),
    the array and the stream after the call.  At the end of the input
    with nothing read the array is left alone and the end-of-file
    indicator is set; a read error gives [NULL] whatever was read.  ([len]
    below 1 gives [NULL] at once, as the C library of the program's
    platform has it.) *)
Definition fgets (len : Z) (buf : list byte) (k : console)
    : bool * list byte * console :=
  if len <=? 0 then (false, buf, k)
  else
    let (line, met_end) := take_line (Z.to_nat (len - 1)) (stdin k) in
    let k' := {| stdin := skipn (length line) (stdin k);
                 stdin_eof := stdin_eof k || (met_end && negb (stdin_fails k));
                 stdin_fails := stdin_fails k;
                 con_stderr := con_stderr k |} in
    if met_end && stdin_fails k then (false, store line buf, k')
    else if met_end && (length line =? 0)%nat then (false, buf, k')
    else (true, store (line ++ [NUL]) buf, k').

(** How the [while (1)] of [read_command] is left: by [break], with
    [n_read], or by [return 0]. *)
Inductive loop_exit : Type :=
| Break (buf : list byte) (n_read : nat)
| Return0 (buf : list byte).

Definition con_fprintf_stderr (msg : string) (k : console) : console :=
  {| stdin := stdin k; stdin_eof := stdin_eof k; stdin_fails := stdin_fails k;
     con_stderr := String.append (con_stderr k) msg |}.

Fixpoint read_command_loop (fuel : nat) (len : Z) (buf : list byte)
    (k : console) : result loop_exit * console :=
  match fuel with
  | O => (OutOfFuel, k)
  | S fuel' =>
      match fgets len buf k with
      | (false, buf1, k1) =>
          if stdin_eof k1 then
            (* User pressed Ctrl+D. *)
            (Ok (Return0 (if 1 <=? len then set_nth 0 NUL buf1 else buf1)), k1)
          else
            (* the message, without the text of errno *)
            (Exited 1, con_fprintf_stderr "read_command: fgets"%string k1)
      | (true, s, k1) =>
          let n_read := strlen s in
          (* Skip empty commands. *)
          if (n_read =? 0)%nat then read_command_loop fuel' len s k1
          else if (n_read =? 1)%nat && Byte.eqb (nth 0 s NUL) NL then
            read_command_loop fuel' len s k1
          else (* Done. *) (Ok (Break s n_read), k1)
      end
  end.

(** [read_command(buf, len)]: the array on return and the result.  Every
    turn of the loop that goes on has taken a byte of the input, so one
    turn more than the input has bytes is enough ([read_command_result]).
    The result is below [len], an [int], so the conversion of [n_read] to
    [int] changes nothing. *)
Definition read_command (len : Z) (buf : list byte) (k : console)
    : result (list byte * Z) * console :=
  match read_command_loop (S (length (stdin k))) len buf k with
  | (Ok (Return0 b), k1) => (Ok (b, 0), k1)
  | (Ok (Break b n_read), k1) =>
      (* Shave '\n' off. *)
      let shaved := Byte.eqb (nth (n_read - 1) b NUL) NL in
      let n_read' := if shaved then (n_read - 1)%nat else n_read in
      let b' := if shaved then set_nth n_read' NUL b else b in
      if (0 <? n_read')%nat then (Ok (b', Z.of_nat n_read'), k1)
      else (AssertFailed, k1)
  | (AssertFailed, k1) => (AssertFailed, k1)
  | (Exited st, k1) => (Exited st, k1)
  | (OutOfFuel, k1) => (OutOfFuel, k1)
  end.

(** ** The command line: [check_cli_params] *)

Definition TAB : string := String (ascii_of_nat 9) EmptyString.
Definition LF : string := String (ascii_of_nat 10) EmptyString.

(** [argv[i]] *)
Definition arg (argv : list string) (i : nat) : string := nth i argv ""%string.

(** What the two [printf]s of the [failure:] label write. *)
Definition usage (argv0 : string) : string :=
  ("usage:" ++ TAB ++ argv0
     ++ " <'datagram' | 'stream'> 'ip' srvip_addr port" ++ LF
   ++ TAB ++ argv0
     ++ " <'datagram' | 'stream'> 'xip' cli_addr_file srv_addr_file" ++ LF)%string.

(** [check_cli_params(pis_stream, argc, argv)], with [argc] the length of
    [argv].  The result is the value returned with the value left in
    [*pis_stream], and what went to the standard output.  [is_xia] has no
    initialiser: [is_xia0] is whatever the variable holds at first, as
    [is_stream0] is what [*pis_stream] holds. *)
Definition check_cli_params (is_xia0 is_stream0 : Z) (argv : list string)
    : result (Z * Z) * string :=
  let argc := Z.of_nat (length argv) in
  let failure := (Exited 1, usage (arg argv 0)) in
  let first :=
    if 1 <? argc then
      if String.eqb (arg argv 1) "datagram" then Some 0
      else if String.eqb (arg argv 1) "stream" then Some 1
      else None
    else Some is_stream0 in
  match first with
  | None => failure
  | Some is_stream =>
      let second :=
        if 2 <? argc then
          if String.eqb (arg argv 2) "xip" then Some 1
          else if String.eqb (arg argv 2) "ip" then Some 0
          else None
        else Some is_xia0 in
      match second with
      | None => failure
      | Some is_xia =>
          (* Don't simplify this test, argc may change for each case. *)
          if (negb (is_xia =? 0) && (argc =? 5))
             || ((is_xia =? 0) && (argc =? 5))
          then (Ok (is_xia, is_stream), ""%string)
          else failure
      end
  end.

(** ** Setting up: principal types, sockets and addresses *)

(** What the system and XIA headers provide to the functions that set a
    client up: constants, and the library functions that depend on
    nothing but their arguments. *)
Class Headers : Type := {
  XIDTYPE_NAT : Z;
  SOCK_STREAM : Z;
  SOCK_DGRAM : Z;
  IPPROTO_TCP : Z;
  IPPROTO_UDP : Z;
  SOL_SOCKET : Z;
  SO_REUSEADDR : Z;
  INADDR_ANY : Z;
  sizeof_sockaddr_storage : Z;      (* struct tmp_sockaddr_storage *)
  sizeof_sockaddr_in : Z;
  sizeof_sockaddr_xia : Z;
  (* xia_pton(str, INT_MAX, addr, 0, &invalid_flag): the result, the
     address written and the flag *)
  xia_pton : list byte -> Z * xia_addr * Z;
  xia_test_addr : xia_addr -> Z;
  (* xia_ntop(addr, buf, XIA_MAX_STRADDR_SIZE, 1): the result *)
  xia_ntop : xia_addr -> Z;
  (* inet_aton(str, &addr): the address, when [str] is one *)
  inet_aton : string -> option Z
}.

(** The calls that reach outside the process. *)
Inductive sys_event : Type :=
| InitPpalMap (rc : Z)
| PpalNameToType (name : string) (rc : Z) (ty : Z)
| Socket (domain type protocol : Z) (rc : Z)
| Setsockopt (sock level optname optval : Z)
| Bind (sock : Z) (addr : sockaddr) (addr_len : Z) (rc : Z).

(** The system: the result of each call given the calls made so far,
    most recent first, and the files there are to read. *)
Record system : Type := {
  sys_init_ppal_map : list sys_event -> Z;
  (* the name and what [*pty] holds: the result and what [*pty] holds then *)
  sys_ppal_name_to_type : list sys_event -> string -> Z -> Z * Z;
  sys_socket : list sys_event -> Z -> Z -> Z -> Z;
  sys_bind : list sys_event -> Z -> sockaddr -> Z -> Z;
  sys_file : string -> option (list byte);
  (* errno once fopen has failed and perror has run *)
  sys_errno : string -> Z
}.

(** The process while it sets up: the three [static] variables of
    [eutils.c], the calls made and the standard error stream. *)
Record setup : Type := {
  ppal_map_loaded : Z;
  xidtype_xdp : Z;
  xidtype_srvc : Z;
  sys_calls : list sys_event;      (* most recent first *)
  setup_stderr : string
}.

Definition SM (A : Type) : Type := setup -> result A * setup.

Definition sret {A : Type} (a : A) : SM A := fun s => (Ok a, s).

Definition sbind {A B : Type} (m : SM A) (k : A -> SM B) : SM B :=
  fun s =>
    match m s with
    | (Ok a, s') => k a s'
    | (AssertFailed, s') => (AssertFailed, s')
    | (Exited st, s') => (Exited st, s')
    | (OutOfFuel, s') => (OutOfFuel, s')
    end.

Declare Scope setup_scope.
Delimit Scope setup_scope with setup.
Notation "x <- m ;; k" := (sbind m (fun x => k))
  (at level 61, m at next level, right associativity) : setup_scope.
Notation "m ;; k" := (sbind m (fun _ => k))
  (at level 61, right associativity) : setup_scope.

Definition sassert (b : bool) : SM unit :=
  fun s => if b then (Ok tt, s) else (AssertFailed, s).

Definition sys_log (e : sys_event) : SM unit := fun s =>
  (Ok tt, {| ppal_map_loaded := ppal_map_loaded s;
             xidtype_xdp := xidtype_xdp s; xidtype_srvc := xidtype_srvc s;
             sys_calls := e :: sys_calls s;
             setup_stderr := setup_stderr s |}).

Definition sys_fprintf_stderr (msg : string) : SM unit := fun s =>
  (Ok tt, {| ppal_map_loaded := ppal_map_loaded s;
             xidtype_xdp := xidtype_xdp s; xidtype_srvc := xidtype_srvc s;
             sys_calls := sys_calls s;
             setup_stderr := String.append (setup_stderr s) msg |}).

Definition set_ppal_map_loaded (v : Z) : SM unit := fun s =>
  (Ok tt, {| ppal_map_loaded := v;
             xidtype_xdp := xidtype_xdp s; xidtype_srvc := xidtype_srvc s;
             sys_calls := sys_calls s; setup_stderr := setup_stderr s |}).

Definition set_xidtype_xdp (v : Z) : SM unit := fun s =>
  (Ok tt, {| ppal_map_loaded := ppal_map_loaded s;
             xidtype_xdp := v; xidtype_srvc := xidtype_srvc s;
             sys_calls := sys_calls s; setup_stderr := setup_stderr s |}).

Definition set_xidtype_srvc (v : Z) : SM unit := fun s =>
  (Ok tt, {| ppal_map_loaded := ppal_map_loaded s;
             xidtype_xdp := xidtype_xdp s; xidtype_srvc := v;
             sys_calls := sys_calls s; setup_stderr := setup_stderr s |}).

(** A C truth value. *)
Definition truthy (z : Z) : bool := negb (z =? 0).

(** [struct sockaddr_in], the port and the address as the numbers they
    stand for in network byte order. *)
Record sockaddr_in : Type := {
  sin_family : Z;
  sin_port : Z;
  sin_addr : Z
}.

(** The storage [__get_addr] allocates, seen the way it filled it. *)
Inductive address : Type :=
| InAddress (a : sockaddr_in)
| XiaAddress (sxia_family : Z) (a : xia_addr).

(** [htons(port)]: the argument is converted to [uint16_t]. *)
Definition htons (port : Z) : Z := port mod 65536.

Definition is_space (c : ascii) : bool :=
  let n := nat_of_ascii c in
  ((n =? 32) || ((9 <=? n) && (n <=? 13)))%nat.

Definition digit_of (c : ascii) : option Z :=
  let n := nat_of_ascii c in
  if ((48 <=? n) && (n <=? 57))%nat then Some (Z.of_nat n - 48) else None.

Fixpoint skip_spaces (s : string) : string :=
  match s with
  | String c s' => if is_space c then skip_spaces s' else s
  | EmptyString => s
  end.

Fixpoint digits (acc : Z) (s : string) : Z :=
  match s with
  | String c s' =>
      match digit_of c with
      | Some d => digits (10 * acc + d) s'
      | None => acc
      end
  | EmptyString => acc
  end.

(** [atoi(str)], for the numbers an [int] holds. *)
Definition atoi (s : string) : Z :=
  match skip_spaces s with
  | String "-" s' => - digits 0 s'
  | String "+" s' => digits 0 s'
  | s' => digits 0 s'
  end.

Definition BUFSIZE : Z := 4 * 1024.

Section Setup.
Context {P : Platform} {H : Headers}.
Variable sys : system.

Local Open Scope setup_scope.

Definition init_ppal_map : SM Z := fun s =>
  let rc := sys_init_ppal_map sys (sys_calls s) in
  (sys_log (InitPpalMap rc) ;; sret rc) s.

Definition load_ppal_map : SM unit := fun s =>
  if truthy (ppal_map_loaded s) then sret tt s
  else
    (rc <- init_ppal_map ;;
     sassert (negb (truthy rc)) ;;
     set_ppal_map_loaded 1) s.

Definition get_xdp_type : SM Z := fun s =>
  if negb (xidtype_xdp s =? XIDTYPE_NAT) then sret (xidtype_xdp s) s
  else
    (load_ppal_map ;;
     (fun s1 =>
        let (rc, ty) :=
          sys_ppal_name_to_type sys (sys_calls s1) "xdp" (xidtype_xdp s1) in
        (sys_log (PpalNameToType "xdp" rc ty) ;;
         set_xidtype_xdp ty ;;
         sassert (negb (truthy rc)) ;;
         sret ty) s1)) s.

Definition get_srvc_type : SM Z := fun s =>
  if negb (xidtype_srvc s =? XIDTYPE_NAT) then sret (xidtype_srvc s) s
  else
    (load_ppal_map ;;
     (fun s1 =>
        let (rc, ty) :=
          sys_ppal_name_to_type sys (sys_calls s1) "serval" (xidtype_srvc s1) in
        (sys_log (PpalNameToType "serval" rc ty) ;;
         set_xidtype_srvc ty ;;
         sassert (negb (truthy rc)) ;;
         sret ty) s1)) s.

Definition socket (domain type protocol : Z) : SM Z := fun s =>
  let rc := sys_socket sys (sys_calls s) domain type protocol in
  (sys_log (Socket domain type protocol rc) ;; sret rc) s.

Definition bind_socket (sock : Z) (addr : sockaddr) (addr_len : Z) : SM Z :=
  fun s =>
    let rc := sys_bind sys (sys_calls s) sock addr addr_len in
    (sys_log (Bind sock addr addr_len rc) ;; sret rc) s.

(** The type numbers are [xid_type_t], 32 bits without a sign, and
    [protocol] is an [int]. *)
Definition any_socket (is_xia is_stream : Z) : SM Z :=
  let domain := if truthy is_xia then AF_XIA else AF_INET in
  let type := if truthy is_stream then SOCK_STREAM else SOCK_DGRAM in
  protocol <-
    (if truthy is_xia then
       ty <- (if truthy is_stream then get_srvc_type else get_xdp_type) ;;
       sret (to_int ty)
     else sret (if truthy is_stream then IPPROTO_TCP else IPPROTO_UDP)) ;;
  sock <- socket domain type protocol ;;
  if negb (truthy is_xia) && (0 <=? sock) then
    (* Let the kernel reuse the socket address. *)
    sys_log (Setsockopt sock SOL_SOCKET SO_REUSEADDR 1) ;;
    sret sock
  else sret sock.

Definition any_bind (is_xia force s : Z) (addr : sockaddr) (addr_len : Z)
    : SM unit :=
  if truthy is_xia || truthy force then
    rc <- bind_socket s addr addr_len ;;
    sassert (negb (truthy rc))
  else sret tt.

(** [str_addr] may be [NULL]. *)
Definition set_sockaddr_in (str_addr : option string) (port : Z)
    : SM sockaddr_in :=
  match str_addr with
  | Some str =>
      match inet_aton str with
      | Some a =>
          sret {| sin_family := AF_INET; sin_port := htons port; sin_addr := a |}
      | None =>
          sassert false ;;
          sret {| sin_family := AF_INET; sin_port := htons port;
                  sin_addr := 0 |}
      end
  | None =>
      sret {| sin_family := AF_INET; sin_port := htons port;
              sin_addr := INADDR_ANY |}
  end.

(** [parse_and_validate_addr(str, addr)]: the result and the address
    written.  The messages are without their arguments. *)
Definition parse_and_validate_addr (str : list byte) : SM (Z * xia_addr) :=
  let '(rc, addr, invalid_flag) := xia_pton str in
  if rc <? 0 then
    sys_fprintf_stderr "Syntax error: invalid address" ;;
    sret (rc, addr)
  else
    let rc := xia_test_addr addr in
    if rc <? 0 then
      sassert (0 <=? xia_ntop addr) ;;
      sys_fprintf_stderr "Invalid address" ;;
      sret (rc, addr)
    else if truthy invalid_flag then
      sys_fprintf_stderr "Although valid, address has invalid flag" ;;
      sret (-1, addr)
    else sret (0, addr).

(** [set_sockaddr_xia(xia, filename)], on storage full of zeros: the
    result and what [*xia] holds. *)
Definition set_sockaddr_xia (filename : string) : SM (Z * address) :=
  load_ppal_map ;;
  (* Read address. *)
  match sys_file sys filename with
  | None =>
      sys_fprintf_stderr "set_sockaddr_xia" ;;          (* perror *)
      sret (sys_errno sys filename, XiaAddress 0 {| s_row := [] |})
  | Some contents =>
      let buf := firstn (Z.to_nat BUFSIZE) contents in
      let len := Z.of_nat (length buf) in
      sassert (len <? BUFSIZE) ;;
      r <- parse_and_validate_addr (c_str (buf ++ [NUL])) ;;
      sret (fst r, XiaAddress AF_XIA (snd r))
  end.

(** [__get_addr(is_xia, str1, str2, plen)]: the address and [*plen].
    [malloc] is taken to succeed. *)
Definition __get_addr (is_xia : Z) (str1 str2 : option string)
    : SM (address * Z) :=
  if truthy is_xia then
    sassert (sizeof_sockaddr_xia <=? sizeof_sockaddr_storage) ;;
    r <- set_sockaddr_xia (match str1 with Some s => s | None => ""%string end) ;;
    sassert (negb (truthy (fst r))) ;;
    sret (snd r, sizeof_sockaddr_xia)
  else
    sassert (sizeof_sockaddr_in <=? sizeof_sockaddr_storage) ;;
    a <- set_sockaddr_in str1
           (atoi (match str2 with Some s => s | None => ""%string end)) ;;
    sret (InAddress a, sizeof_sockaddr_in).

Definition get_cli_addr (is_xia : Z) (argv : list string) : SM (address * Z) :=
  if truthy is_xia then __get_addr is_xia (Some (arg argv 3)) None
  else __get_addr is_xia None (Some "0"%string).

Definition get_srv_addr (is_xia : Z) (argv : list string) : SM (address * Z) :=
  if truthy is_xia then __get_addr is_xia (Some (arg argv 4)) None
  else __get_addr is_xia (Some (arg argv 3)) (Some (arg argv 4)).

End Setup.

(** * The vocabulary of the properties *)

(** ** Hierarchical addresses *)

Section AddressVocabulary.
Context {P : Platform}.

(** The XID of row [i] of an address. *)
Definition entry (a : sockaddr) (i : nat) : xia_xid :=
  s_xid (row (sxia_addr a) i).

(** Row [i] is the sentinel: its principal type is "not a type". *)
Definition sentinel_row (a : sockaddr) (i : nat) : Prop :=
  xia_is_nat (xid_type (entry a i)) = true.

(** [n] is the effective length of [a]: the number of rows before the
    first sentinel row, or all [XIA_NODES_MAX] rows when none of them is
    the sentinel.  What the rows after the first sentinel hold plays no
    part. *)
Definition effective_length (a : sockaddr) (n : nat) : Prop :=
  (n <= XIA_NODES_MAX)%nat /\
  (forall i, (i < n)%nat -> ~ sentinel_row a i) /\
  ((n < XIA_NODES_MAX)%nat -> sentinel_row a n).

(** Two XIDs are the same entry identifier: the same principal type and
    the same [XIA_XID_MAX] bytes. *)
Definition same_xid (x y : xia_xid) : Prop :=
  xid_type x = xid_type y /\
  forall i, (i < XIA_XID_MAX)%nat -> id_byte x i = id_byte y i.

End AddressVocabulary.

(** ** States of the process *)

(** The process before a transfer starts. *)
Definition start : proc :=
  {| orig := []; orig_eof := false; copy := []; stderr := ""%string; calls := [] |}.

(** The process once both files are open. *)
Definition opened (contents : list byte) : proc :=
  {| orig := contents; orig_eof := false; copy := []; stderr := ""%string;
     calls := [] |}.

(** The calls made once the hook, if there is one, has run. *)
Definition marked (f : bool) (h : list event) : list event :=
  if f then Mark :: h else h.

(** The process once the marker is on the standard error stream. *)
Definition lost_marker (p : proc) : proc :=
  {| orig := orig p; orig_eof := orig_eof p; copy := copy p;
     stderr := String.append (stderr p) "."; calls := calls p |}.

(** The process after a wait that timed out: the wait is recorded and the
    marker is on the standard error stream. *)
Definition lost (p : proc) : proc :=
  lost_marker (with_calls (Select 0 :: calls p) p).

(** The counters once a chunk of [b] bytes has been read and, if it is
    not empty, sent. *)
Definition after_chunk (b : Z) (c : counters) : counters :=
  if 0 <? b then
    {| count := to_int (count c + 1); bytes_sent := to_int (bytes_sent c + b) |}
  else c.

(** The counters once [if (count == times) { ... }] is past. *)
Definition after_checkpoint (times : Z) (c : counters) : counters :=
  if count c =? times then zero_counters else c.

(** ** Histories *)

(** The bytes handed to [sendto] since the last [recvfrom]. *)
Fixpoint unechoed (h : list event) : list byte :=
  match h with
  | [] => []
  | Sendto buf _ _ _ :: h' => unechoed h' ++ buf
  | Recvfrom _ _ :: _ => []
  | _ :: h' => unechoed h'
  end.

(** The bytes the connection accepted and [read] has not returned yet. *)
Fixpoint inflight (h : list event) : list byte :=
  match h with
  | [] => []
  | Write buf rc :: h' => inflight h' ++ firstn (Z.to_nat rc) buf
  | Read _ (ReadBytes data) :: h' => skipn (length data) (inflight h')
  | _ :: h' => inflight h'
  end.

(** The bytes the [read]s of a history returned, oldest first. *)
Fixpoint received (h : list event) : list byte :=
  match h with
  | [] => []
  | Read _ (ReadBytes data) :: h' => received h' ++ data
  | _ :: h' => received h'
  end.

(** A [read] that returned a positive count. *)
Definition good_read (e : event) : Prop :=
  exists n data, e = Read n (ReadBytes data) /\ data <> [].

(** A [read] that returned zero or a negative count. *)
Definition failed_read (e : event) : Prop :=
  exists n, e = Read n ReadErr \/ e = Read n (ReadBytes []).

(** ** Networks *)

Section Networks.
Context {P : Platform}.

(** No loss on the datagram side: every send is accepted, the socket is
    readable whenever the client waits, and what arrives is one datagram
    from the server with all the bytes sent since the last one. *)
Definition datagram_no_loss (net : network) (srv : sockaddr) (srv_len : Z)
    : Prop :=
  forall h,
    (forall buf dst dst_len, 0 <= net_sendto net h buf dst dst_len) /\
    0 < net_select net h /\
    exists src len,
      net_recvfrom net h = RecvDgram src len (unechoed h) /\
      address_match src len srv srv_len = Ok true.

(** A network on which the datagram engine meets nothing fatal: sends are
    accepted, waiting does not fail, and a datagram that arrives comes
    from the server.  Batches may still be lost or cut short. *)
Definition datagram_never_fatal (net : network) (srv : sockaddr) (srv_len : Z)
    : Prop :=
  forall h,
    (forall buf dst dst_len, 0 <= net_sendto net h buf dst dst_len) /\
    0 <= net_select net h /\
    exists src len data,
      net_recvfrom net h = RecvDgram src len data /\
      address_match src len srv srv_len = Ok true.

End Networks.

(** No loss on the stream side: every write is accepted in full and,
    while echoed bytes are outstanding, a read returns some of them, in
    order. *)
Definition stream_no_loss (net : network) : Prop :=
  forall h,
    (forall buf, net_write net h buf = Z.of_nat (length buf)) /\
    (forall n, inflight h <> [] ->
       exists data rest,
         net_read net h n = ReadBytes data /\
         data <> [] /\ inflight h = data ++ rest).

(** A connection on which the stream engine meets nothing fatal: writes
    are accepted in full.  Reads may still fail. *)
Definition stream_never_fatal (net : network) : Prop :=
  forall h buf, net_write net h buf = Z.of_nat (length buf).

(** ** Calls after which the process must not go on *)

(** No call of the history is a [bad] one. *)
Definition clean (bad : event -> bool) (h : list event) : Prop :=
  forall e, In e h -> bad e = false.

(** Started after calls that are not [bad], [m] makes no [bad] call, or
    its first [bad] call is the last thing it does and the process dies of
    a failed assertion. *)
Definition stops_at (bad : event -> bool) {A : Type} (m : M A) : Prop :=
  forall p,
    clean bad (calls p) ->
    clean bad (calls (snd (m p))) \/
    (fst (m p) = AssertFailed /\
     exists e h, calls (snd (m p)) = e :: h /\ bad e = true /\ clean bad h).

Section BadCalls.
Context {P : Platform}.

(** A datagram that [srv] did not send. *)
Definition wrong_peer (srv : sockaddr) (srv_len : Z) (e : event) : bool :=
  match e with
  | Recvfrom _ (RecvDgram src len _) =>
      match address_match src len srv srv_len with
      | Ok true => false
      | _ => true
      end
  | _ => false
  end.

End BadCalls.

(** A write that did not take the whole buffer. *)
Definition short_write (e : event) : bool :=
  match e with
  | Write buf rc => negb (rc =? Z.of_nat (length buf))
  | _ => false
  end.

(** ** Batches *)

(** The number of chunks of [chunk_size] bytes a file of [len] bytes is
    read in. *)
Definition chunks (len chunk_size : Z) : Z := (len + chunk_size - 1) / chunk_size.

(** No batch is longer than the file, nor than [times] chunks: this is
    the most that [bytes_sent] has to hold. *)
Definition longest_batch (contents : list byte) (chunk_size times : Z) : Z :=
  Z.min (Z.of_nat (length contents)) (chunk_size * times).

Section Flushes.
Context {P : Platform}.

(** The loop of [datagram_process_file] ends, and what the engine does
    after it is exactly: call the hook, if there is one, and receive and
    verify [n] bytes. *)
Definition datagram_flushes_after_loop (net : network) (srv : sockaddr)
    (srv_len : Z) (contents : list byte) (chunk_size times : Z) (f : bool)
    (n : Z) : Prop :=
  exists c p1,
    (fopen_both contents ;;
     datagram_loop net (S (length contents)) srv srv_len chunk_size times f
       zero_counters) start = (Ok c, p1) /\
    datagram_process_file net srv srv_len contents chunk_size times f start
    = recv_write net srv srv_len n (with_calls (marked f (calls p1)) p1).

(** The same for [stream_process_file]. *)
Definition stream_flushes_after_loop (net : network) (contents : list byte)
    (chunk_size times : Z) (f : bool) (n : Z) : Prop :=
  exists c p1,
    (fopen_both contents ;;
     stream_loop net (S (length contents)) chunk_size times f zero_counters)
      start = (Ok c, p1) /\
    stream_process_file net contents chunk_size times f start
    = read_write net n (with_calls (marked f (calls p1)) p1).

(** The loop ends, and the engine does nothing after it. *)
Definition datagram_nothing_after_loop (net : network) (srv : sockaddr)
    (srv_len : Z) (contents : list byte) (chunk_size times : Z) (f : bool)
    : Prop :=
  exists c p1,
    (fopen_both contents ;;
     datagram_loop net (S (length contents)) srv srv_len chunk_size times f
       zero_counters) start = (Ok c, p1) /\
    datagram_process_file net srv srv_len contents chunk_size times f start
    = (Ok tt, p1).

Definition stream_nothing_after_loop (net : network) (contents : list byte)
    (chunk_size times : Z) (f : bool) : Prop :=
  exists c p1,
    (fopen_both contents ;;
     stream_loop net (S (length contents)) chunk_size times f zero_counters)
      start = (Ok c, p1) /\
    stream_process_file net contents chunk_size times f start = (Ok tt, p1).

End Flushes.

(** ** Invariants of the loop *)

(** The counters and the file after [k] chunks, of which [s] bytes: all
    of the file when its end was met, [k] whole chunks otherwise. *)
Definition counting_inv (contents : list byte) (chunk_size times : Z)
    (c : counters) (p : proc) : Prop :=
  exists k,
    let s := Z.of_nat (length contents) - Z.of_nat (length (orig p)) in
    0 <= k /\ 0 <= s /\
    (k - 1) * chunk_size < s /\
    s <= k * chunk_size /\
    count c = k mod times /\
    bytes_sent c =
      (if count c =? 0 then 0 else s - (k - k mod times) * chunk_size) /\
    (orig_eof p = false -> s = k * chunk_size) /\
    (orig_eof p = true -> orig p = []).

(** Every byte of the file is in the copy, [pending] (sent and not yet
    echoed) or still to be read, in this order, and [bytes_sent] counts
    the pending ones. *)
Definition echo_inv (contents : list byte) (chunk_size times : Z)
    (pending : proc -> list byte) (c : counters) (p : proc) : Prop :=
  0 <= count c < times /\
  count c <= bytes_sent c <= count c * chunk_size /\
  (count c = 0 -> bytes_sent c = 0) /\
  bytes_sent c = Z.of_nat (length (pending p)) /\
  copy p ++ pending p ++ orig p = contents /\
  (orig_eof p = true -> orig p = []).

(** A file that is one batch long, in the stream engine.  Before the
    checkpoint of the batch nothing is in the copy, the chunks read so far
    are all outstanding, and [bytes_sent] is their number as an [int]
    holds it; after it the file is at its end, the counters are back at
    zero and the copy is [kept].  Nothing is on the standard error stream
    at any time: no read has failed. *)
Definition one_batch_inv (contents kept : list byte) (chunk_size times : Z)
    (c : counters) (p : proc) : Prop :=
  stderr p = ""%string /\
  ((orig_eof p = false /\ copy p = [] /\
    inflight (calls p) ++ orig p = contents /\
    0 <= count c < times /\
    Z.of_nat (length (inflight (calls p))) = count c * chunk_size /\
    bytes_sent c = to_int (count c * chunk_size))
   \/ (c = zero_counters /\ orig p = [] /\ copy p = kept)).

(** ** Fuel *)

(** [m] ends within the fuel its loops are given. *)
Definition halts {A : Type} (m : M A) : Prop :=
  forall p, fst (m p) <> OutOfFuel.

(** [m] does not touch the file [orig]. *)
Definition keeps_orig {A : Type} (m : M A) : Prop :=
  forall p, orig (snd (m p)) = orig p /\ orig_eof (snd (m p)) = orig_eof p.

(** All that [m] does to the file [orig] is one [fread] of [n] bytes. *)
Definition reads_chunk {A : Type} (n : Z) (m : M A) : Prop :=
  forall p,
    orig (snd (m p)) = orig (after_fread n p) /\
    orig_eof (snd (m p)) = orig_eof (after_fread n p).

(** ** More vocabulary *)

(** ** Ways to die *)

(** How a process ends when it does not return: a failed assertion, or
    [exit(status)]. *)
Inductive death : Type :=
| Aborts
| Exits (status : Z).

Definition dead (d : death) {A : Type} : result A :=
  match d with
  | Aborts => AssertFailed
  | Exits st => Exited st
  end.

(** Started after calls that are not [bad], [m] makes no [bad] call, or
    its first [bad] call is the last thing it does and the process dies
    the way [d] says. *)
Definition ends_at (bad : event -> bool) (d : death) {A : Type} (m : M A)
    : Prop :=
  forall p,
    clean bad (calls p) ->
    clean bad (calls (snd (m p))) \/
    (fst (m p) = dead d /\
     exists e h, calls (snd (m p)) = e :: h /\ bad e = true /\ clean bad h).

(** A [sendto] that failed. *)
Definition failed_send (e : event) : bool :=
  match e with
  | Sendto _ _ _ rc => rc <? 0
  | _ => false
  end.

(** A [select] or a [recvfrom] that failed. *)
Definition failed_receive (e : event) : bool :=
  match e with
  | Select rc => rc <? 0
  | Recvfrom _ RecvErr => true
  | _ => false
  end.

(** ** What was handed to the socket *)

(** The bytes handed to [sendto] and [write], oldest first. *)
Fixpoint handed (h : list event) : list byte :=
  match h with
  | [] => []
  | Sendto buf _ _ _ :: h' => handed h' ++ buf
  | Write buf _ :: h' => handed h' ++ buf
  | _ :: h' => handed h'
  end.

(** Every datagram and every write of the history holds between one and
    [chunk_size] bytes. *)
Definition in_chunks (chunk_size : Z) (h : list event) : Prop :=
  forall e, In e h ->
    match e with
    | Sendto buf _ _ _ | Write buf _ =>
        0 < Z.of_nat (length buf) <= chunk_size
    | _ => True
    end.

(** [m] keeps [I] whatever its outcome. *)
Definition preserves (I : proc -> Prop) {A : Type} (m : M A) : Prop :=
  forall p, I p -> I (snd (m p)).

(** The file so far: what was handed to the socket and what is still to
    be read make up [contents], in chunks, and the end-of-file indicator
    is set only when nothing is left. *)
Definition sending_inv (chunk_size : Z) (contents : list byte) (p : proc)
    : Prop :=
  handed (calls p) ++ orig p = contents /\
  in_chunks chunk_size (calls p) /\
  (orig_eof p = true -> orig p = []).

(** The hook runs once before every wait for the echo, and at no other
    time: in the calls, most recent first, every [select] has a call of
    the hook right before it and every call of the hook a [select] right
    after it. *)
Fixpoint hooked (h : list event) : bool :=
  match h with
  | [] => true
  | Select _ :: h' =>
      match h' with
      | Mark :: h'' => hooked h''
      | _ => false
      end
  | Mark :: _ => false
  | _ :: h' => hooked h'
  end.

(** Every datagram of the history went to [srv]. *)
Definition to_server (srv : sockaddr) (srv_len : Z) (h : list event) : Prop :=
  forall buf dst dst_len rc,
    In (Sendto buf dst dst_len rc) h -> dst = srv /\ dst_len = srv_len.

(** A call that hands bytes to the socket. *)
Definition is_output (e : event) : bool :=
  match e with
  | Sendto _ _ _ _ | Write _ _ => true
  | _ => false
  end.

(** All [m] does to the calls is add some that [ok] accepts. *)
Definition adds_only (ok : event -> bool) {A : Type} (m : M A) : Prop :=
  forall p, exists evs,
    calls (snd (m p)) = evs ++ calls p /\ forallb ok evs = true.

(** A call before or after which the hook matters: a [select] or a call
    of the hook. *)
Definition is_sync (e : event) : bool :=
  match e with
  | Select _ | Mark => true
  | _ => false
  end.

Definition is_mark (e : event) : bool :=
  match e with
  | Mark => true
  | _ => false
  end.

(** A call that hands nothing to the socket. *)
Definition quiet (e : event) : bool := negb (is_output e).

(** The copy and the bytes sent and not yet echoed are no more than what
    was read of the file. *)
Definition mirror_inv (contents : list byte) (chunk_size times : Z)
    (c : counters) (p : proc) : Prop :=
  counting_inv contents chunk_size times c p /\
  Z.of_nat (length (copy p)) + bytes_sent c
  <= Z.of_nat (length contents) - Z.of_nat (length (orig p)).

(** The bytes the [write]s of a history took, oldest first. *)
Fixpoint written (h : list event) : list byte :=
  match h with
  | [] => []
  | Write buf rc :: h' => written h' ++ firstn (Z.to_nat rc) buf
  | _ :: h' => written h'
  end.

(** What is left of [src] once the bytes received in [h] are gone. *)
Definition left_of (src : list byte) (h : list event) : list byte :=
  skipn (length (received h)) src.

(** A descriptor that delivers the bytes [src], some at a time, and then
    reports the end. *)
Definition source_of (net : network) (src : list byte) : Prop :=
  forall h n,
    exists data rest,
      net_read net h n = ReadBytes data /\
      left_of src h = data ++ rest /\
      (left_of src h <> [] -> data <> []).

(** The process differs from [p] by the calls [evs] only. *)
Definition only_calls (evs : list event) (p p' : proc) : Prop :=
  p' = with_calls (evs ++ calls p) p.

(** The console with [s] left on the standard input. *)
Definition with_stdin (s : list byte) (k : console) : console :=
  {| stdin := s; stdin_eof := stdin_eof k; stdin_fails := stdin_fails k;
     con_stderr := con_stderr k |}.

(** The console once the standard input has met its end. *)
Definition at_end (k : console) : console :=
  {| stdin := []; stdin_eof := true; stdin_fails := stdin_fails k;
     con_stderr := con_stderr k |}.

(** What the loop of [read_command] leaves behind. *)
Definition loop_post (len : Z) (k : console) (r : result loop_exit)
    (k' : console) : Prop :=
  (exists taken, stdin k = taken ++ stdin k') /\
  stdin_fails k' = stdin_fails k /\
  match r with
  | Ok (Return0 b) =>
      stdin_eof k' = true /\ strlen b = O /\ con_stderr k' = con_stderr k
  | Ok (Break b n) =>
      n = strlen b /\ (0 < n)%nat /\ Z.of_nat n < len /\
      (forall i, (i < n)%nat -> nth i b NUL = NL -> S i = n /\ (2 <= n)%nat) /\
      con_stderr k' = con_stderr k
  | Exited st =>
      st = 1 /\ stdin_eof k' = false /\ stdin_fails k = true
  | AssertFailed | OutOfFuel => False
  end.

(** The process before it has set anything up: the three [static]
    variables as they are initialised. *)
Definition fresh `{Headers} : setup :=
  {| ppal_map_loaded := 0; xidtype_xdp := XIDTYPE_NAT;
     xidtype_srvc := XIDTYPE_NAT; sys_calls := []; setup_stderr := ""%string |}.

(** The calls of the set-up functions a program makes, one after the
    other. *)
Inductive setup_call : Type :=
| GetXdpType
| GetSrvcType
| AnySocket (is_xia is_stream : Z)
| AnyBind (is_xia force s : Z) (addr : sockaddr) (addr_len : Z)
| GetCliAddr (is_xia : Z) (argv : list string)
| GetSrvAddr (is_xia : Z) (argv : list string).

Section SetupCalls.
Context {P : Platform} {H : Headers}.
Variable sys : system.

Local Open Scope setup_scope.

Definition run_call (c : setup_call) : SM unit :=
  match c with
  | GetXdpType => get_xdp_type sys ;; sret tt
  | GetSrvcType => get_srvc_type sys ;; sret tt
  | AnySocket is_xia is_stream => any_socket sys is_xia is_stream ;; sret tt
  | AnyBind is_xia force s addr addr_len =>
      any_bind sys is_xia force s addr addr_len
  | GetCliAddr is_xia argv => get_cli_addr sys is_xia argv ;; sret tt
  | GetSrvAddr is_xia argv => get_srv_addr sys is_xia argv ;; sret tt
  end.

Fixpoint run_calls (cs : list setup_call) : SM unit :=
  match cs with
  | [] => sret tt
  | c :: cs' => run_call c ;; run_calls cs'
  end.

End SetupCalls.

(** The number of times the principal map was initialised. *)
Fixpoint inits (h : list sys_event) : nat :=
  match h with
  | [] => O
  | InitPpalMap _ :: h' => S (inits h')
  | _ :: h' => inits h'
  end.

Definition is_lookup (e : sys_event) : bool :=
  match e with
  | PpalNameToType _ _ _ => true
  | _ => false
  end.

(** The principal map was initialised, with success. *)
Definition initialised (h : list sys_event) : bool :=
  existsb (fun e => match e with InitPpalMap 0 => true | _ => false end) h.

(** No name is looked up before the principal map is there: every lookup
    of the calls has a successful initialisation before it. *)
Fixpoint lookups_after_init (h : list sys_event) : bool :=
  match h with
  | [] => true
  | PpalNameToType _ _ _ :: h' => initialised h' && lookups_after_init h'
  | _ :: h' => lookups_after_init h'
  end.

(** A call that is neither an initialisation of the principal map nor a
    lookup in it. *)
Definition is_plain (e : sys_event) : bool :=
  match e with
  | InitPpalMap _ | PpalNameToType _ _ _ => false
  | _ => true
  end.

(** The principal map and the process agree. *)
Definition map_inv (s : setup) : Prop :=
  lookups_after_init (sys_calls s) = true /\
  (truthy (ppal_map_loaded s) = true ->
   inits (sys_calls s) = 1%nat /\ initialised (sys_calls s) = true) /\
  (truthy (ppal_map_loaded s) = false -> inits (sys_calls s) = O).

(** [m] keeps the agreement when it returns, and whatever its outcome
    the map was initialised once at most and before any lookup. *)
Definition keeps_map {A : Type} (m : SM A) : Prop :=
  forall s,
    map_inv s ->
    (lookups_after_init (sys_calls (snd (m s))) = true /\
     (inits (sys_calls (snd (m s))) <= 1)%nat) /\
    (forall a, fst (m s) = Ok a -> map_inv (snd (m s))).

Definition is_socket_call (e : sys_event) : bool :=
  match e with
  | Socket _ _ _ _ => true
  | _ => false
  end.

(** The process with the calls [h] made. *)
Definition with_sys_calls (h : list sys_event) (s : setup) : setup :=
  {| ppal_map_loaded := ppal_map_loaded s; xidtype_xdp := xidtype_xdp s;
     xidtype_srvc := xidtype_srvc s; sys_calls := h;
     setup_stderr := setup_stderr s |}.

(** [m] keeps [I] whatever its outcome. *)
Definition skeeps (I : setup -> Prop) {A : Type} (m : SM A) : Prop :=
  forall s, I s -> I (snd (m s)).

Definition no_socket (evs : list sys_event) : Prop :=
  forall e, In e evs -> is_socket_call e = false.

Definition adds_no_socket {A : Type} (m : SM A) : Prop :=
  forall s, exists evs,
    sys_calls (snd (m s)) = evs ++ sys_calls s /\ no_socket evs.

(** [m] returns or dies of a failed assertion. *)
Definition returns_or_aborts {A : Type} (m : SM A) : Prop :=
  forall s, match fst (m s) with
            | Ok _ | AssertFailed => True
            | Exited _ | OutOfFuel => False
            end.

(** * Inputs to run the model on *)

#[local] Instance example_platform : Platform.
Proof.
  refine {| AF_INET := 2; AF_XIA := 41; XIA_NODES_MAX := 9; XIA_XID_MAX := 20;
            xia_is_nat := fun ty => ty =? 0 |}.
  discriminate.
Defined.

Definition xid (ty : Z) (id : list byte) : xia_row :=
  {| s_xid := {| xid_type := ty; xid_id := id |}; s_edge := 0 |}.

Definition xia_sockaddr (rows : list xia_row) : sockaddr :=
  {| sa_family := 41; sa_bytes := []; sxia_addr := {| s_row := rows |} |}.

Definition in_sockaddr (image : list byte) : sockaddr :=
  {| sa_family := 2; sa_bytes := image; sxia_addr := {| s_row := [] |} |}.

(** Two flat addresses. *)
Definition srv_in : sockaddr :=
  in_sockaddr [x02; x00; x1f; x90; x7f; x00; x00; x01;
               x00; x00; x00; x00; x00; x00; x00; x00].

Definition other_in : sockaddr :=
  in_sockaddr [x02; x00; x1f; x90; x7f; x00; x00; x02;
               x00; x00; x00; x00; x00; x00; x00; x00].

(** Two routes to the same service, a route to another one, and an
    address without a row.  [stale_route] is one more route to the
    service of [route_a], in storage that held a longer address before:
    an old row is left after the sentinel, and the identifier is written
    with its zeros. *)
Definition route_a : sockaddr :=
  xia_sockaddr [xid 16 [x01; x02]; xid 19 [x0a; x0b]].

Definition route_b : sockaddr :=
  xia_sockaddr [xid 17 [x09]; xid 16 [x03]; xid 19 [x0a; x0b]].

Definition route_c : sockaddr :=
  xia_sockaddr [xid 16 [x01; x02]; xid 19 [x0a; x0c]].

Definition no_route : sockaddr := xia_sockaddr [xid 0 []; xid 19 [x0a; x0b]].

Definition stale_route : sockaddr :=
  xia_sockaddr [xid 19 [x0a; x0b; x00; x00]; xid 0 []; xid 16 [x01; x02]].

(** The file of the bytes 1, 2, ..., [n]. *)
Definition bytes_1_to (n : nat) : list byte :=
  map (fun i => match Byte.of_nat i with Some b => b | None => x00 end) (seq 1 n).

(** An echo server at [srv]: it returns whatever it was sent, at once and
    in one piece. *)
Definition echo_net (srv : sockaddr) (srv_len : Z) : network :=
  {| net_sendto := fun _ buf _ _ => Z.of_nat (length buf);
     net_select := fun _ => 1;
     net_recvfrom := fun h => RecvDgram srv srv_len (unechoed h);
     net_write := fun _ buf => Z.of_nat (length buf);
     net_read := fun h _ => ReadBytes (inflight h) |}.

(** A connection that takes at most [k] bytes of a write. *)
Definition narrow_net (k : Z) : network :=
  {| net_sendto := fun _ buf _ _ => Z.of_nat (length buf);
     net_select := fun _ => 1;
     net_recvfrom := fun h => RecvDgram srv_in 16 (unechoed h);
     net_write := fun _ buf => Z.min k (Z.of_nat (length buf));
     net_read := fun h _ => ReadBytes (inflight h) |}.

(** A network on which nothing ever comes back. *)
Definition silent_net : network :=
  {| net_sendto := fun _ buf _ _ => Z.of_nat (length buf);
     net_select := fun _ => 0;
     net_recvfrom := fun _ => RecvErr;
     net_write := fun _ buf => Z.of_nat (length buf);
     net_read := fun _ _ => ReadErr |}.

(** A server that answers every batch with the same two bytes. *)
Definition terse_net : network :=
  {| net_sendto := fun _ buf _ _ => Z.of_nat (length buf);
     net_select := fun _ => 1;
     net_recvfrom := fun _ => RecvDgram srv_in 16 [x01; x02];
     net_write := fun _ buf => Z.of_nat (length buf);
     net_read := fun _ _ => ReadBytes [x01; x02] |}.

(** A process that has read six bytes in a chunk of four and sent it. *)
Definition one_chunk_sent : proc :=
  {| orig := [x05; x06]; orig_eof := false; copy := []; stderr := ""%string;
     calls := [Sendto [x01; x02; x03; x04] srv_in 16 4] |}.

(** A process that has written four bytes to the stream. *)
Definition four_written : proc :=
  with_calls [Write [x01; x02; x03; x04] 4] start.

(** ** Inputs for the rest of the file *)

(** A network on which every send fails. *)
Definition down_net : network :=
  {| net_sendto := fun _ _ _ _ => -1;
     net_select := fun _ => 1;
     net_recvfrom := fun h => RecvDgram srv_in 16 (unechoed h);
     net_write := fun _ buf => Z.of_nat (length buf);
     net_read := fun h _ => ReadBytes (inflight h) |}.

(** A network on which waiting fails. *)
Definition deaf_net : network :=
  {| net_sendto := fun _ buf _ _ => Z.of_nat (length buf);
     net_select := fun _ => -1;
     net_recvfrom := fun _ => RecvErr;
     net_write := fun _ buf => Z.of_nat (length buf);
     net_read := fun _ _ => ReadErr |}.

(** A descriptor that delivers [src], at most two bytes at a time, and a
    descriptor that takes all it is given. *)
Definition pipe_net (src : list byte) : network :=
  {| net_sendto := fun _ buf _ _ => Z.of_nat (length buf);
     net_select := fun _ => 1;
     net_recvfrom := fun _ => RecvErr;
     net_write := fun _ buf => Z.of_nat (length buf);
     net_read := fun h _ => ReadBytes (firstn 2 (left_of src h)) |}.

(** A console on which [s] has been typed. *)
Definition typed (s : list byte) : console :=
  {| stdin := s; stdin_eof := false; stdin_fails := false;
     con_stderr := ""%string |}.

(** Two empty lines, then [ls], then [quit]. *)
Definition keyboard : console :=
  typed [x0a; x0a; x6c; x73; x0a; x71; x75; x69; x74; x0a].

(** A terminal that fails in the middle of a line. *)
Definition broken_terminal : console :=
  {| stdin := [x0a; x6c]; stdin_eof := false; stdin_fails := true;
     con_stderr := ""%string |}.

#[local] Instance example_headers : Headers :=
  {| XIDTYPE_NAT := 0;
     SOCK_STREAM := 1;
     SOCK_DGRAM := 2;
     IPPROTO_TCP := 6;
     IPPROTO_UDP := 17;
     SOL_SOCKET := 1;
     SO_REUSEADDR := 2;
     INADDR_ANY := 0;
     sizeof_sockaddr_storage := 512;
     sizeof_sockaddr_in := 16;
     sizeof_sockaddr_xia := 116;
     xia_pton := fun str =>
       if bytes_eqb str [x41; x0a]
       then (2, {| s_row := [xid 16 [x01]] |}, 0)
       else (-1, {| s_row := [] |}, 0);
     xia_test_addr := fun a => Z.of_nat (length (s_row a)) - 1;
     xia_ntop := fun _ => 0;
     inet_aton := fun str =>
       if String.eqb str "127.0.0.1" then Some 2130706433 else None |}.

(** A system that knows the two principals and holds one address file. *)
Definition example_system : system :=
  {| sys_init_ppal_map := fun _ => 0;
     sys_ppal_name_to_type := fun _ name ty =>
       if String.eqb name "xdp" then (0, 25)
       else if String.eqb name "serval" then (0, 26)
       else (-1, ty);
     sys_socket := fun h _ _ _ => 3 + Z.of_nat (length h);
     sys_bind := fun _ _ _ _ => 0;
     sys_file := fun name =>
       if String.eqb name "srv.addr" then Some [x41; x0a] else None;
     sys_errno := fun _ => 2 |}.

(** * Properties *)

(** ** Comparing addresses *)

Lemma bytes_eqb_eq (a b : list byte) : bytes_eqb a b = true <-> a = b.
Proof.
  revert b; induction a as [|x a IH]; intros [|y b]; simpl;
    try (split; [discriminate | discriminate]); try tauto.
  rewrite andb_true_iff, IH. split.
  - intros [Hxy ->]. apply Byte.byte_dec_bl in Hxy. now subst.
  - intros [= -> ->]. split; [now apply Byte.byte_dec_lb | reflexivity].
Qed.

Lemma nth_map_seq {A : Type} (f : nat -> A) (n i : nat) (d : A) :
  (i < n)%nat -> nth i (map f (seq 0 n)) d = f i.
Proof.
  intros Hi.
  rewrite (nth_indep _ d (f 0%nat)) by (now rewrite length_map, length_seq).
  rewrite map_nth, seq_nth by exact Hi. reflexivity.
Qed.

Section AddressProperties.
Context {P : Platform}.

(** [memcmp] finds two XIDs equal exactly when they are the same entry
    identifier; how the lists of the model are written makes no
    difference. *)
Lemma xid_memcmp_eq_same (x y : xia_xid) :
  xid_memcmp_eq x y = true <-> same_xid x y.
Proof.
  unfold xid_memcmp_eq, same_xid, xid_id_image.
  rewrite andb_true_iff, Z.eqb_eq, bytes_eqb_eq. split; intros [Hty Hid].
  - split; [exact Hty|]. intros i Hi.
    apply (f_equal (fun l => nth i l x00)) in Hid.
    rewrite !nth_map_seq in Hid by exact Hi. exact Hid.
  - split; [exact Hty|]. apply map_ext_in. intros i Hi.
    apply in_seq in Hi. apply Hid. lia.
Qed.

Lemma xid_memcmp_eq_differ (x y : xia_xid) :
  xid_memcmp_eq x y = false <-> ~ same_xid x y.
Proof.
  rewrite <- xid_memcmp_eq_same. destruct (xid_memcmp_eq x y); split;
    congruence.
Qed.

Lemma same_xid_sym (x y : xia_xid) : same_xid x y -> same_xid y x.
Proof.
  intros [Hty Hid]. split; [now symmetry|].
  intros i Hi. symmetry. now apply Hid.
Qed.

Lemma same_xid_trans (x y z : xia_xid) :
  same_xid x y -> same_xid y z -> same_xid x z.
Proof.
  intros [Hty Hid] [Hty' Hid']. split; [congruence|].
  intros i Hi. rewrite (Hid i Hi). now apply Hid'.
Qed.

Lemma xid_memcmp_eq_compat (x x' y y' : xia_xid) :
  same_xid x' x -> same_xid y' y -> xid_memcmp_eq x' y' = xid_memcmp_eq x y.
Proof.
  intros Hx Hy.
  destruct (xid_memcmp_eq x y) eqn:E.
  - apply xid_memcmp_eq_same in E. apply xid_memcmp_eq_same.
    eapply same_xid_trans; [exact Hx|].
    eapply same_xid_trans; [exact E|]. now apply same_xid_sym.
  - apply xid_memcmp_eq_differ in E. apply xid_memcmp_eq_differ.
    intros H. apply E.
    eapply same_xid_trans; [apply same_xid_sym; exact Hx|].
    eapply same_xid_trans; [exact H|]. exact Hy.
Qed.

(** [count_rows_from] stops at the first sentinel at or after [i]. *)
Lemma count_rows_from_bounds (a : xia_addr) (n i : nat) :
  (i <= count_rows_from a i n <= i + n)%nat.
Proof.
  revert i; induction n as [|n IH]; intros i; simpl; [lia|].
  destruct (xia_is_nat _); [lia|]. specialize (IH (S i)). lia.
Qed.

Lemma count_rows_from_effective (a : xia_addr) (n i j : nat) :
  (i <= j < count_rows_from a i n)%nat ->
  xia_is_nat (xid_type (s_xid (row a j))) = false.
Proof.
  revert i; induction n as [|n IH]; intros i; simpl; [lia|].
  destruct (xia_is_nat (xid_type (s_xid (row a i)))) eqn:E; [lia|].
  intros H. destruct (Nat.eq_dec i j) as [->|Hij]; [exact E|].
  apply (IH (S i)). lia.
Qed.

Lemma count_rows_from_stops (a : xia_addr) (n i : nat) :
  (count_rows_from a i n < i + n)%nat ->
  xia_is_nat (xid_type (s_xid (row a (count_rows_from a i n)))) = true.
Proof.
  revert i; induction n as [|n IH]; intros i; simpl; [lia|].
  destruct (xia_is_nat (xid_type (s_xid (row a i)))) eqn:E;
    [intros _; exact E|].
  intros H. apply IH. lia.
Qed.

(** The rows before [count_rows] are the effective ones: none of them is
    the sentinel, and the row after them, if there is one, is. *)
Lemma count_rows_effective (x : sockaddr) :
  (count_rows x <= XIA_NODES_MAX)%nat /\
  (forall j, (j < count_rows x)%nat ->
     xia_is_nat (xid_type (s_xid (row (sxia_addr x) j))) = false) /\
  ((count_rows x < XIA_NODES_MAX)%nat ->
     xia_is_nat (xid_type (s_xid (row (sxia_addr x) (count_rows x)))) = true).
Proof.
  unfold count_rows. split; [|split].
  - pose proof (count_rows_from_bounds (sxia_addr x) XIA_NODES_MAX 0). lia.
  - intros j Hj. apply (count_rows_from_effective _ XIA_NODES_MAX 0). lia.
  - intros H. apply count_rows_from_stops. lia.
Qed.

(** The loop of [count_rows] returns the effective length, and nothing
    else is one. *)
Lemma count_rows_effective_length (x : sockaddr) (n : nat) :
  effective_length x n <-> count_rows x = n.
Proof.
  destruct (count_rows_effective x) as (Hle & Hbefore & Hat).
  split.
  - intros (Hn & Hnot & Hsent). unfold sentinel_row, entry in Hnot, Hsent.
    destruct (Nat.lt_trichotomy (count_rows x) n) as [Hlt|[Heq|Hgt]];
      [|exact Heq|].
    + exfalso. apply (Hnot _ Hlt). apply Hat. lia.
    + exfalso. specialize (Hbefore _ Hgt).
      rewrite Hsent in Hbefore by lia. discriminate.
  - intros <-. split; [exact Hle|]. split.
    + intros i Hi. unfold sentinel_row, entry. now rewrite (Hbefore i Hi).
    + exact Hat.
Qed.

Lemma count_rows_first_nat (x : sockaddr) :
  xia_is_nat (xid_type (s_xid (row (sxia_addr x) 0))) = true ->
  count_rows x = 0%nat.
Proof.
  unfold count_rows. destruct XIA_NODES_MAX; simpl; [reflexivity|].
  now intros ->.
Qed.

Lemma address_match_xia (a b : sockaddr) (la lb : Z) :
  sa_family a = AF_XIA -> sa_family b = AF_XIA ->
  (0 < count_rows a)%nat -> (0 < count_rows b)%nat ->
  address_match a la b lb = Ok (xid_memcmp_eq (last_xid a) (last_xid b)).
Proof.
  intros Ha Hb Hna Hnb. unfold address_match.
  rewrite Ha, Hb, Z.eqb_refl. cbn [negb].
  destruct (Z.eqb_spec AF_XIA AF_INET) as [E|_];
    [pose proof AF_distinct; congruence|].
  apply Nat.ltb_lt in Hna, Hnb. now rewrite Hna, Hnb.
Qed.

End AddressProperties.

Section AddressClaims.
Context {P : Platform}.

(** C2. Matching of hierarchical addresses looks at the last effective
    row only.  Take two [AF_XIA] addresses with at least one effective row
    each: [S n] and [S m] rows before the first sentinel row (or
    [XIA_NODES_MAX] rows and no sentinel), so that rows [n] and [m] are
    their last effective rows.  Then [address_match] returns true exactly
    when the entry identifiers of row [n] of the one and row [m] of the
    other are the same, and false exactly when they are not; and any two
    addresses whose last effective rows hold the same entry identifiers
    as these give the same result, whatever their other rows hold, before
    the last effective row or after the sentinel, and however many there
    are. *)
Theorem address_match_suffix_only (a b : sockaddr) (la lb : Z) (n m : nat) :
  sa_family a = AF_XIA -> sa_family b = AF_XIA ->
  effective_length a (S n) -> effective_length b (S m) ->
  (address_match a la b lb = Ok true <-> same_xid (entry a n) (entry b m)) /\
  (address_match a la b lb = Ok false <->
     ~ same_xid (entry a n) (entry b m)) /\
  (forall a' la' n' b' lb' m',
     sa_family a' = AF_XIA -> sa_family b' = AF_XIA ->
     effective_length a' (S n') -> effective_length b' (S m') ->
     same_xid (entry a' n') (entry a n) ->
     same_xid (entry b' m') (entry b m) ->
     address_match a' la' b' lb' = address_match a la b lb).
Proof.
  assert (Hrun : forall x y lx ly i j,
             sa_family x = AF_XIA -> sa_family y = AF_XIA ->
             effective_length x (S i) -> effective_length y (S j) ->
             address_match x lx y ly
             = Ok (xid_memcmp_eq (entry x i) (entry y j))).
  { intros x y lx ly i j Hx Hy Hi Hj.
    apply count_rows_effective_length in Hi, Hj.
    rewrite (address_match_xia x y lx ly Hx Hy) by lia.
    unfold last_xid, entry. rewrite Hi, Hj. cbn [Nat.sub].
    now rewrite !Nat.sub_0_r. }
  intros Ha Hb Hn Hm. rewrite (Hrun a b la lb n m Ha Hb Hn Hm).
  split; [|split].
  - split.
    + intros [= H]. now apply xid_memcmp_eq_same.
    + intros H. f_equal. now apply xid_memcmp_eq_same.
  - split.
    + intros [= H]. now apply xid_memcmp_eq_differ.
    + intros H. f_equal. now apply xid_memcmp_eq_differ.
  - intros a' la' n' b' lb' m' Ha' Hb' Hn' Hm' Hsa Hsb.
    rewrite (Hrun a' b' la' lb' n' m' Ha' Hb' Hn' Hm'). f_equal.
    now apply xid_memcmp_eq_compat.
Qed.

(** C6. Comparing addresses of different families is fatal: the first
    assertion of [address_match] fails, and no boolean is returned. *)
Theorem address_match_cross_family (a b : sockaddr) (la lb : Z) :
  sa_family a <> sa_family b ->
  address_match a la b lb = AssertFailed.
Proof.
  intros H. unfold address_match.
  destruct (Z.eqb_spec (sa_family a) (sa_family b)) as [E|_];
    [contradiction|reflexivity].
Qed.

(** C7. Comparing hierarchical addresses of which one has no effective
    row (as when its first row is the sentinel already) is fatal: the
    assertion [addr_n > 0 && exp_n > 0] fails. *)
Theorem address_match_zero_rows (a b : sockaddr) (la lb : Z) :
  sa_family a = AF_XIA -> sa_family b = AF_XIA ->
  count_rows a = 0%nat \/ count_rows b = 0%nat \/
  xia_is_nat (xid_type (s_xid (row (sxia_addr a) 0))) = true \/
  xia_is_nat (xid_type (s_xid (row (sxia_addr b) 0))) = true ->
  address_match a la b lb = AssertFailed.
Proof.
  intros Ha Hb H.
  assert (H0 : count_rows a = 0%nat \/ count_rows b = 0%nat).
  { destruct H as [H|[H|[H|H]]]; auto using count_rows_first_nat. }
  clear H. unfold address_match.
  rewrite Ha, Hb, Z.eqb_refl. cbn [negb].
  destruct (Z.eqb_spec AF_XIA AF_INET) as [E|_];
    [pose proof AF_distinct; congruence|].
  destruct H0 as [-> | ->]; cbn [Nat.ltb Nat.leb andb negb];
    [reflexivity|].
  now rewrite andb_false_r.
Qed.

End AddressClaims.

(** ** Running the process *)

Lemma bind_ok {A B : Type} (m : M A) (k : A -> M B) (p p' : proc) (a : A) :
  m p = (Ok a, p') -> bind m k p = k a p'.
Proof. unfold bind. now intros ->. Qed.

Lemma bind_assert_failed {A B : Type} (m : M A) (k : A -> M B) (p p' : proc) :
  m p = (AssertFailed, p') -> bind m k p = (AssertFailed, p').
Proof. unfold bind. now intros ->. Qed.

Lemma bind_fst_assert_failed {A B : Type} (m : M A) (k : A -> M B) (p : proc) :
  fst (m p) = AssertFailed -> fst (bind m k p) = AssertFailed.
Proof.
  unfold bind. destruct (m p) as [[a| | |] p']; cbn [fst]; congruence.
Qed.

Lemma feof_run (p : proc) : feof p = (Ok (orig_eof p), p).
Proof. reflexivity. Qed.

Lemma call_mark_run (f : bool) (p : proc) :
  call_mark f p = (Ok tt, with_calls (marked f (calls p)) p).
Proof. destruct f, p; reflexivity. Qed.

Lemma to_int_small (z : Z) : - 2147483648 <= z <= INT_MAX -> to_int z = z.
Proof.
  unfold to_int, INT_MAX. intros H.
  rewrite Z.mod_small by lia. lia.
Qed.

Lemma mod_succ (k t : Z) :
  0 <= k -> 0 < t ->
  (k mod t + 1 = t -> (k + 1) mod t = 0) /\
  (k mod t + 1 <> t -> (k + 1) mod t = k mod t + 1).
Proof.
  intros Hk Ht. pose proof (Z.mod_pos_bound k t Ht) as Hm.
  pose proof (Z.div_mod k t ltac:(lia)) as Hd. split; intros H.
  - symmetry. apply (Z.mod_unique_pos _ _ (k / t + 1)); lia.
  - symmetry. apply (Z.mod_unique_pos _ _ (k / t)); lia.
Qed.

Lemma length_firstn_skipn {A : Type} (n : nat) (l : list A) :
  (length (firstn n l) + length (skipn n l) = length l)%nat.
Proof. rewrite <- length_app. now rewrite firstn_skipn. Qed.

(** ** The receivers *)

Section ReceiverClaims.
Context {P : Platform}.
Variable net : network.

(** What [recv_write] does when the wait times out. *)
Lemma recv_write_timeout (srv : sockaddr) (srv_len n_sent : Z) (p : proc) :
  net_select net (calls p) = 0 ->
  recv_write net srv srv_len n_sent p = (Ok tt, lost p).
Proof.
  intros H. unfold recv_write, select, bind, log, ret. rewrite H. reflexivity.
Qed.

(** What [recv_write] does when a datagram is there. *)
Lemma recv_write_readable (srv : sockaddr) (srv_len n_sent : Z) (p : proc)
    (src : sockaddr) (len : Z) (data : list byte) :
  let rc := net_select net (calls p) in
  0 < rc ->
  net_recvfrom net (Select rc :: calls p) = RecvDgram src len data ->
  let out := firstn (Z.to_nat n_sent) data in
  let p1 := with_calls (Recvfrom n_sent (RecvDgram src len out)
                          :: Select rc :: calls p) p in
  recv_write net srv srv_len n_sent p =
    match address_match src len srv srv_len with
    | Ok true => fwrite out (Z.of_nat (length out)) p1
    | Ok false => (AssertFailed, p1)
    | AssertFailed => (AssertFailed, p1)
    | Exited st => (Exited st, p1)
    | OutOfFuel => (OutOfFuel, p1)
    end.
Proof.
  intros rc Hrc Hrecv out p1.
  unfold recv_write, select, recvfrom, bind, log, ret, assert, lift. fold rc.
  destruct (Z.leb_spec 0 rc) as [_|]; [|lia]. cbn.
  destruct (Z.eqb_spec rc 0) as [|_]; [lia|]. cbn.
  rewrite Hrecv. cbn.
  destruct (address_match src len srv srv_len) as [[|]| | |]; reflexivity.
Qed.

End ReceiverClaims.

(** *** The stream receiver *)

Section StreamReceiver.
Variable net : network.

Lemma read_run (n : Z) (p : proc) :
  read net n p
  = (Ok (read_result net (calls p) n),
     with_calls (Read n (read_result net (calls p) n) :: calls p) p).
Proof. reflexivity. Qed.

Lemma read_result_length (h : list event) (n : Z) (data : list byte) :
  read_result net h n = ReadBytes data -> Z.of_nat (length data) <= Z.max 0 n.
Proof.
  unfold read_result. destruct (net_read net h n) as [|d]; [discriminate|].
  intros [= <-]. rewrite length_firstn. lia.
Qed.

Lemma with_calls_twice (h1 h2 : list event) (p : proc) :
  with_calls h1 (with_calls h2 p) = with_calls h1 p.
Proof. reflexivity. Qed.

Lemma received_snoc (n : Z) (data : list byte) (l : list event) :
  Forall good_read l ->
  received (l ++ [Read n (ReadBytes data)]) = data ++ received l.
Proof.
  induction l as [|e l IHl]; intros Hl; cbn; [now rewrite app_nil_r|].
  inversion Hl as [|? ? (m & d & -> & _) Hl']; subst.
  rewrite IHl by assumption. now rewrite app_assoc.
Qed.

(** One turn of the loop of [read_write]. *)
Lemma read_loop_step (n_sent : Z) (fuel : nat) (out : list byte) (n_read : Z)
    (p : proc) :
  n_read < n_sent ->
  let n := n_sent - n_read in
  let r := read_result net (calls p) n in
  let p1 := with_calls (Read n r :: calls p) p in
  read_loop net (S fuel) n_sent out n_read p
  = match r with
    | ReadErr => (Ok None, lost_marker p1)
    | ReadBytes data =>
        if Z.of_nat (length data) <=? 0 then (Ok None, lost_marker p1)
        else read_loop net fuel n_sent (out ++ data)
               (n_read + Z.of_nat (length data)) p1
    end.
Proof.
  intros Hlt n r p1. cbn [read_loop].
  destruct (Z.gtb_spec n_sent n_read) as [_|]; [|lia].
  unfold bind at 1. rewrite read_run. fold n r p1.
  destruct r as [|data]; [reflexivity|].
  destruct (Z.of_nat (length data) <=? 0); reflexivity.
Qed.

(** The loop of [read_write], started with [n_read] bytes in [out]: it
    returns, and either every read was a good one and [out] has grown to
    [n_sent] bytes, or the last read failed before that and the marker is
    out.  Nothing but the calls and the marker changes in the process. *)
Lemma read_loop_spec (n_sent : Z) (fuel : nat) :
  forall (out : list byte) (n_read : Z) (p : proc),
    n_read = Z.of_nat (length out) ->
    n_read <= n_sent ->
    (Z.to_nat (n_sent - n_read) <= fuel)%nat ->
    exists evs,
      (read_loop net fuel n_sent out n_read p
         = (Ok (Some (out ++ received evs, n_sent)),
            with_calls (evs ++ calls p) p) /\
       Forall good_read evs /\
       Z.of_nat (length (out ++ received evs)) = n_sent)
      \/
      (read_loop net fuel n_sent out n_read p
         = (Ok None, lost_marker (with_calls (evs ++ calls p) p)) /\
       exists e evs',
         evs = e :: evs' /\ failed_read e /\ Forall good_read evs' /\
         Z.of_nat (length (out ++ received evs')) < n_sent).
Proof.
  induction fuel as [|fuel IH]; intros out n_read p Hlen Hle Hfuel;
    (destruct (Z.gtb_spec n_sent n_read) as [Hgt|Hngt];
     [rewrite ?read_loop_step by lia
     |cbn [read_loop]; destruct (Z.gtb_spec n_sent n_read) as [|_]; [lia|]]).
  - lia.
  - exists []. left. replace n_read with n_sent by lia.
    rewrite app_nil_r. destruct p. repeat split; auto. lia.
  - set (n := n_sent - n_read).
    destruct (read_result net (calls p) n) as [|data] eqn:Hr.
    + exists [Read n ReadErr]. right. split; [reflexivity|].
      exists (Read n ReadErr), []. repeat split; auto.
      * exists n. now left.
      * cbn. rewrite app_nil_r. lia.
    + pose proof (read_result_length _ _ _ Hr) as Hdata.
      destruct (Z.leb_spec (Z.of_nat (length data)) 0) as [Hz|Hpos].
      * destruct data; [|cbn in Hz; lia].
        exists [Read n (ReadBytes [])]. right. split; [reflexivity|].
        exists (Read n (ReadBytes [])), []. repeat split; auto.
        -- exists n. now right.
        -- cbn. rewrite app_nil_r. lia.
      * set (p1 := with_calls (Read n (ReadBytes data) :: calls p) p).
        destruct (IH (out ++ data) (n_read + Z.of_nat (length data)) p1)
          as (evs & Hcase).
        { rewrite length_app. lia. }
        { lia. }
        { lia. }
        assert (Hgood : good_read (Read n (ReadBytes data))).
        { exists n, data. split; [reflexivity|].
          destruct data; [cbn in Hpos; lia | discriminate]. }
        assert (Hp1 : forall l, with_calls (l ++ calls p1) p1
                      = with_calls ((l ++ [Read n (ReadBytes data)]) ++ calls p) p).
        { intros l. unfold p1. rewrite with_calls_twice. cbn [calls with_calls].
          now rewrite <- app_assoc. }
        exists (evs ++ [Read n (ReadBytes data)]).
        destruct Hcase as [(Hrun & Hall & Hn)
                          | (Hrun & e & evs' & -> & Hfail & Hall & Hn)].
        -- left. rewrite received_snoc by assumption.
           rewrite Hrun, Hp1, !app_assoc. rewrite <- app_assoc in Hn.
           repeat split; auto.
           ++ apply Forall_app. split; [assumption | now constructor].
           ++ now rewrite <- app_assoc.
        -- right. rewrite Hrun, Hp1. split; [reflexivity|].
           exists e, (evs' ++ [Read n (ReadBytes data)]).
           rewrite received_snoc by assumption. rewrite app_assoc.
           repeat split; auto.
           apply Forall_app. split; [assumption | now constructor].
  - exists []. left. replace n_read with n_sent by lia.
    rewrite app_nil_r. destruct p. repeat split; auto. lia.
Qed.

(** C8. The stream receiver.  [read_write] always returns.  Either every
    [read] it made returned a positive count and together they returned
    exactly [n_sent] bytes, which one [fwrite] then appends to the copy;
    or its last [read] returned zero or less before [n_sent] bytes were
    there, and then the marker is put out and the copy is as it was. *)
Theorem read_write_semantics (n_sent : Z) (p : proc) :
  0 <= n_sent ->
  exists evs,
    let p1 := with_calls (evs ++ calls p) p in
    (Forall good_read evs /\
     Z.of_nat (length (received evs)) = n_sent /\
     read_write net n_sent p = fwrite (received evs) n_sent p1 /\
     copy (snd (fwrite (received evs) n_sent p1)) = copy p ++ received evs /\
     stderr (snd (fwrite (received evs) n_sent p1)) = stderr p)
    \/
    (exists e evs',
       evs = e :: evs' /\ failed_read e /\ Forall good_read evs' /\
       Z.of_nat (length (received evs')) < n_sent /\
       read_write net n_sent p = (Ok tt, lost_marker p1) /\
       copy (lost_marker p1) = copy p /\
       stderr (lost_marker p1) = String.append (stderr p) ".").
Proof.
  intros Hn.
  destruct (read_loop_spec n_sent (Z.to_nat n_sent) [] 0 p eq_refl Hn)
    as (evs & [(Hrun & Hall & Hlen) | (Hrun & e & evs' & -> & Hfail & Hall & Hlen)]).
  { rewrite Z.sub_0_r. lia. }
  - exists evs. left. cbn [app] in *. repeat split; auto.
    + unfold read_write. rewrite (bind_ok _ _ _ _ _ Hrun).
      unfold assert. rewrite Z.eqb_refl. reflexivity.
    + cbn. f_equal. apply firstn_all2. lia.
  - exists (e :: evs'). right. exists e, evs'. cbn [app] in *.
    repeat split; auto.
    unfold read_write. now rewrite (bind_ok _ _ _ _ _ Hrun).
Qed.

End StreamReceiver.

(** ** Fatal calls end the run *)

Section StopsAt.
Variable bad : event -> bool.

Lemma clean_cons (e : event) (h : list event) :
  bad e = false -> clean bad h -> clean bad (e :: h).
Proof. intros He Hh e' [<-|Hin]; auto. Qed.

Lemma stops_at_quiet {A : Type} (m : M A) :
  (forall p, calls (snd (m p)) = calls p) -> stops_at bad m.
Proof. intros H p Hp. left. now rewrite H. Qed.

Lemma stops_at_ret {A : Type} (a : A) : stops_at bad (ret a).
Proof. now apply stops_at_quiet. Qed.

Lemma stops_at_lift {A : Type} (r : result A) : stops_at bad (lift r).
Proof. now apply stops_at_quiet. Qed.

Lemma stops_at_assert (b : bool) : stops_at bad (assert b).
Proof. destruct b; now apply stops_at_quiet. Qed.

Lemma stops_at_bind {A B : Type} (m : M A) (k : A -> M B) :
  stops_at bad m -> (forall a, stops_at bad (k a)) -> stops_at bad (bind m k).
Proof.
  intros Hm Hk p Hp. specialize (Hm p Hp). unfold bind.
  destruct (m p) as [[a| | |] p1]; cbn [fst snd] in *.
  - destruct Hm as [Hm|[Hm _]]; [now apply Hk | discriminate].
  - destruct Hm as [Hm|[_ Hm]]; [now left | now right].
  - destruct Hm as [Hm|[Hm _]]; [now left | discriminate].
  - destruct Hm as [Hm|[Hm _]]; [now left | discriminate].
Qed.

Lemma stops_at_log (e : event) : bad e = false -> stops_at bad (log e).
Proof. intros He p Hp. left. cbn. now apply clean_cons. Qed.

Lemma stops_at_if {A : Type} (b : bool) (m1 m2 : M A) :
  stops_at bad m1 -> stops_at bad m2 -> stops_at bad (if b then m1 else m2).
Proof. now destruct b. Qed.

Lemma stops_at_fread (n : Z) : stops_at bad (fread n).
Proof. now apply stops_at_quiet. Qed.

Lemma stops_at_feof : stops_at bad feof.
Proof. now apply stops_at_quiet. Qed.

Lemma stops_at_fwrite (out : list byte) (n : Z) : stops_at bad (fwrite out n).
Proof. now apply stops_at_quiet. Qed.

Lemma stops_at_fprintf (msg : string) : stops_at bad (fprintf_stderr msg).
Proof. now apply stops_at_quiet. Qed.

Lemma stops_at_fopen (contents : list byte) : stops_at bad (fopen_both contents).
Proof. now apply stops_at_quiet. Qed.

Lemma stops_at_call_mark (f : bool) : bad Mark = false -> stops_at bad (call_mark f).
Proof. intros H. destruct f; [now apply stops_at_log | apply stops_at_ret]. Qed.

Lemma stops_at_do_while (fuel : nat) (body : counters -> M counters)
    (c : counters) :
  (forall c', stops_at bad (body c')) ->
  stops_at bad (do_while_not_feof fuel body c).
Proof.
  intros Hbody. revert c; induction fuel as [|fuel IH]; intros c; simpl.
  - apply stops_at_lift.
  - apply stops_at_bind; [apply Hbody|]. intros c'.
    apply stops_at_bind; [apply stops_at_feof|]. intros eof.
    apply stops_at_if; [apply stops_at_ret | apply IH].
Qed.

End StopsAt.

Create HintDb stops.

#[local] Hint Resolve stops_at_ret stops_at_lift stops_at_assert stops_at_fread
  stops_at_feof stops_at_fwrite stops_at_fprintf stops_at_fopen : stops.

Ltac stops_step :=
  first [ apply stops_at_bind; [|intros ?]
        | apply stops_at_if
        | apply stops_at_call_mark; reflexivity
        | apply stops_at_log; reflexivity
        | solve [auto with stops] ].

Section StopsAtEngine.
Context {P : Platform}.
Variable net : network.
Variable bad : event -> bool.

Hypothesis bad_sendto : forall buf dst len rc, bad (Sendto buf dst len rc) = false.
Hypothesis bad_select : forall rc, bad (Select rc) = false.
Hypothesis bad_read : forall n r, bad (Read n r) = false.
Hypothesis bad_mark : bad Mark = false.

Lemma stops_at_sendto (buf : list byte) (dst : sockaddr) (len : Z) :
  stops_at bad (sendto net buf dst len).
Proof. intros p Hp. left. cbn. now apply clean_cons. Qed.

Lemma stops_at_select : stops_at bad (select net).
Proof. intros p Hp. left. cbn. now apply clean_cons. Qed.

Lemma stops_at_read (n : Z) : stops_at bad (read net n).
Proof. intros p Hp. left. cbn. now apply clean_cons. Qed.

Lemma stops_at_send_packet (buf : list byte) (n : Z) (dst : sockaddr) (len : Z) :
  stops_at bad (send_packet net buf n dst len).
Proof.
  unfold send_packet, exit. repeat stops_step. apply stops_at_sendto.
Qed.

Lemma stops_at_read_loop (fuel : nat) (n_sent : Z) (out : list byte) (n_read : Z) :
  stops_at bad (read_loop net fuel n_sent out n_read).
Proof.
  revert out n_read; induction fuel as [|fuel IH]; intros out n_read; simpl;
    (destruct (n_sent >? n_read); [|apply stops_at_ret]).
  - apply stops_at_lift.
  - apply stops_at_bind; [apply stops_at_read|]. intros [|data].
    + repeat stops_step.
    + destruct (_ <=? 0); [repeat stops_step | apply IH].
Qed.

Lemma stops_at_read_write (n_sent : Z) : stops_at bad (read_write net n_sent).
Proof.
  unfold read_write. apply stops_at_bind; [apply stops_at_read_loop|].
  intros [[out n_read]|]; repeat stops_step.
Qed.

(** The datagram engine, given that its receiver stops at [bad] calls. *)
Section Datagram.
Variables (srv : sockaddr) (srv_len : Z).
Hypothesis stops_at_recv_write :
  forall n_sent, stops_at bad (recv_write net srv srv_len n_sent).

Lemma stops_at_datagram_turn (chunk_size times : Z) (f : bool) (c : counters) :
  stops_at bad (datagram_turn net srv srv_len chunk_size times f c).
Proof.
  unfold datagram_turn, datagram_send_chunk, datagram_checkpoint.
  apply stops_at_bind.
  - apply stops_at_bind; [apply stops_at_fread|]. intros buf.
    apply stops_at_if; [|apply stops_at_ret].
    apply stops_at_bind; [apply stops_at_send_packet|]. intros _. apply stops_at_ret.
  - intros c1. apply stops_at_if; [|apply stops_at_ret].
    apply stops_at_bind; [now apply stops_at_call_mark|]. intros _.
    apply stops_at_bind; [apply stops_at_recv_write|]. intros _. apply stops_at_ret.
Qed.

Lemma stops_at_datagram_loop (fuel : nat) (chunk_size times : Z) (f : bool)
    (c : counters) :
  stops_at bad (datagram_loop net fuel srv srv_len chunk_size times f c).
Proof. apply stops_at_do_while. intros c'. apply stops_at_datagram_turn. Qed.

Lemma stops_at_datagram_process_file (contents : list byte)
    (chunk_size times : Z) (f : bool) :
  stops_at bad (datagram_process_file net srv srv_len contents chunk_size times f).
Proof.
  unfold datagram_process_file, datagram_flush.
  apply stops_at_bind; [apply stops_at_fopen|]. intros _.
  apply stops_at_bind; [apply stops_at_datagram_loop|]. intros c.
  apply stops_at_if; [|apply stops_at_ret].
  apply stops_at_bind; [now apply stops_at_call_mark|]. intros _.
  apply stops_at_recv_write.
Qed.

End Datagram.

(** The stream engine, given that its sender stops at [bad] calls. *)
Section Stream.
Hypothesis stops_at_stream_send_chunk :
  forall chunk_size c, stops_at bad (stream_send_chunk net chunk_size c).

Lemma stops_at_stream_turn (chunk_size times : Z) (f : bool) (c : counters) :
  stops_at bad (stream_turn net chunk_size times f c).
Proof.
  unfold stream_turn, stream_checkpoint.
  apply stops_at_bind; [apply stops_at_stream_send_chunk|].
  intros c1. apply stops_at_if; [|apply stops_at_ret].
  apply stops_at_bind; [now apply stops_at_call_mark|]. intros _.
  apply stops_at_bind; [apply stops_at_read_write|]. intros _. apply stops_at_ret.
Qed.

Lemma stops_at_stream_loop (fuel : nat) (chunk_size times : Z) (f : bool)
    (c : counters) :
  stops_at bad (stream_loop net fuel chunk_size times f c).
Proof. apply stops_at_do_while. intros c'. apply stops_at_stream_turn. Qed.

Lemma stops_at_stream_process_file (contents : list byte)
    (chunk_size times : Z) (f : bool) :
  stops_at bad (stream_process_file net contents chunk_size times f).
Proof.
  unfold stream_process_file, stream_flush.
  apply stops_at_bind; [apply stops_at_fopen|]. intros _.
  apply stops_at_bind; [apply stops_at_stream_loop|]. intros c.
  apply stops_at_if; [|apply stops_at_ret].
  apply stops_at_bind; [now apply stops_at_call_mark|]. intros _.
  apply stops_at_read_write.
Qed.

End Stream.

End StopsAtEngine.

Section FatalClaims.
Context {P : Platform}.
Variable net : network.

Lemma address_match_cases (a : sockaddr) (la : Z) (b : sockaddr) (lb : Z) :
  address_match a la b lb = Ok true \/
  address_match a la b lb = Ok false \/
  address_match a la b lb = AssertFailed.
Proof.
  unfold address_match.
  repeat match goal with
         | |- context [if ?b then _ else _] => destruct b
         end; auto.
  all: match goal with
       | |- context [Ok ?b] => destruct b; auto
       end.
Qed.

Lemma stops_at_recv_write_wrong_peer (srv : sockaddr) (srv_len n_sent : Z) :
  stops_at (wrong_peer srv srv_len) (recv_write net srv srv_len n_sent).
Proof.
  intros p Hp.
  assert (Hsel : forall rc, clean (wrong_peer srv srv_len) (Select rc :: calls p))
    by (intros rc; now apply clean_cons).
  unfold recv_write, select, recvfrom, bind, log, ret, assert, lift,
    fprintf_stderr, fwrite.
  set (rc := net_select net (calls p)).
  destruct (0 <=? rc); cbn; [|left; apply Hsel].
  destruct (rc =? 0); cbn; [left; apply Hsel|].
  destruct (net_recvfrom net (Select rc :: calls p)) as [|src len data]; cbn.
  - left. apply clean_cons; [reflexivity | apply Hsel].
  - destruct (address_match src len srv srv_len) as [[|]| | |] eqn:E; cbn.
    + left. apply clean_cons; [cbn; now rewrite E | apply Hsel].
    + right. split; [reflexivity|]. eexists _, _. split; [reflexivity|].
      split; [cbn; now rewrite E | apply Hsel].
    + right. split; [reflexivity|]. eexists _, _. split; [reflexivity|].
      split; [cbn; now rewrite E | apply Hsel].
    + destruct (address_match_cases src len srv srv_len) as [H|[H|H]];
        congruence.
    + destruct (address_match_cases src len srv srv_len) as [H|[H|H]];
        congruence.
Qed.

(** C3. A datagram from the wrong peer is fatal.  When [recv_write] finds
    the socket readable and the datagram's sender does not match the
    expected address, the assertion fails and the copy is as it was; and
    in a whole run of [datagram_process_file] such a [recvfrom] is the
    last call the process makes. *)
Theorem wrong_peer_is_fatal (srv : sockaddr) (srv_len : Z) :
  (forall n_sent p src len data,
     0 < net_select net (calls p) ->
     net_recvfrom net (Select (net_select net (calls p)) :: calls p)
       = RecvDgram src len data ->
     address_match src len srv srv_len <> Ok true ->
     exists p',
       recv_write net srv srv_len n_sent p = (AssertFailed, p') /\
       copy p' = copy p) /\
  (forall contents chunk_size times f n src len data,
     let run := datagram_process_file net srv srv_len contents chunk_size
                  times f start in
     In (Recvfrom n (RecvDgram src len data)) (calls (snd run)) ->
     address_match src len srv srv_len <> Ok true ->
     fst run = AssertFailed /\
     exists h, calls (snd run) = Recvfrom n (RecvDgram src len data) :: h).
Proof.
  split.
  - intros n_sent p src len data Hsel Hrecv Hmatch.
    rewrite (recv_write_readable net srv srv_len n_sent p src len data Hsel Hrecv).
    destruct (address_match_cases src len srv srv_len) as [H|[H|H]];
      [contradiction| |]; rewrite H; eexists; split; reflexivity.
  - intros contents chunk_size times f n src len data run Hin Hmatch.
    assert (Hbad : wrong_peer srv srv_len (Recvfrom n (RecvDgram src len data)) = true).
    { cbn. destruct (address_match src len srv srv_len) as [[|]| | |];
        congruence. }
    destruct (stops_at_datagram_process_file net (wrong_peer srv srv_len)
                (fun _ _ _ _ => eq_refl) eq_refl srv srv_len
                (stops_at_recv_write_wrong_peer srv srv_len)
                contents chunk_size times f start) as [Hc|[Hr (e & h & Hh & He & Hc)]].
    + intros e [].
    + fold run in Hc. specialize (Hc _ Hin). congruence.
    + fold run in Hr, Hh. split; [exact Hr|]. exists h.
      rewrite Hh in Hin |- *. destruct Hin as [->|Hin]; [reflexivity|].
      specialize (Hc _ Hin). congruence.
Qed.

Lemma stops_at_stream_send_chunk_short (chunk_size : Z) (c : counters) :
  stops_at short_write (stream_send_chunk net chunk_size c).
Proof.
  intros p Hp.
  unfold stream_send_chunk, fread, write, bind, log, ret, assert, lift. cbn.
  set (buf := firstn (Z.to_nat chunk_size) (orig p)).
  destruct (0 <? Z.of_nat (length buf)); cbn; [|left; exact Hp].
  rewrite Nat2Z.id, firstn_all.
  destruct (Z.eqb_spec (net_write net (calls p) buf) (Z.of_nat (length buf)))
    as [E|E]; cbn.
  - left. apply clean_cons; [cbn; rewrite E; now rewrite Z.eqb_refl | exact Hp].
  - right. split; [reflexivity|]. eexists _, _. split; [reflexivity|].
    split; [|exact Hp]. cbn.
    destruct (Z.eqb_spec (net_write net (calls p) buf) (Z.of_nat (length buf)));
      [contradiction | reflexivity].
Qed.

(** C9. A partial write on the stream is fatal.  For every chunk read,
    [stream_process_file] asserts that [write] took all of it: when it did
    not, the turn ends in a failed assertion right after that write; and
    in a whole run a short write is the last call the process makes. *)
Theorem short_write_is_fatal :
  (forall chunk_size c p,
     let buf := firstn (Z.to_nat chunk_size) (orig p) in
     buf <> [] ->
     net_write net (calls p) buf <> Z.of_nat (length buf) ->
     exists p',
       stream_send_chunk net chunk_size c p = (AssertFailed, p') /\
       calls p' = Write buf (net_write net (calls p) buf) :: calls p /\
       copy p' = copy p /\
       forall times f, stream_turn net chunk_size times f c p = (AssertFailed, p')) /\
  (forall contents chunk_size times f buf rc,
     let run := stream_process_file net contents chunk_size times f start in
     In (Write buf rc) (calls (snd run)) ->
     rc <> Z.of_nat (length buf) ->
     fst run = AssertFailed /\
     exists h, calls (snd run) = Write buf rc :: h).
Proof.
  split.
  - intros chunk_size c p buf Hbuf Hrc.
    assert (E : stream_send_chunk net chunk_size c p =
                (AssertFailed,
                 with_calls (Write buf (net_write net (calls p) buf) :: calls p)
                   {| orig := skipn (Z.to_nat chunk_size) (orig p);
                      orig_eof := orig_eof p
                                  || (length buf <? Z.to_nat chunk_size)%nat;
                      copy := copy p; stderr := stderr p; calls := calls p |})).
    { unfold stream_send_chunk, fread, write, bind, log, ret, assert, lift. cbn.
      fold buf.
      destruct (Z.ltb_spec 0 (Z.of_nat (length buf))) as [_|H];
        [|destruct buf; [contradiction | cbn in H; lia]].
      cbn. rewrite Nat2Z.id, firstn_all.
      destruct (Z.eqb_spec (net_write net (calls p) buf) (Z.of_nat (length buf)));
        [contradiction | reflexivity]. }
    eexists. split; [exact E|]. repeat split.
    intros times f. unfold stream_turn. now apply bind_assert_failed.
  - intros contents chunk_size times f buf rc run Hin Hrc.
    assert (Hbad : short_write (Write buf rc) = true).
    { cbn. now destruct (Z.eqb_spec rc (Z.of_nat (length buf))). }
    destruct (stops_at_stream_process_file net short_write
                (fun _ _ => eq_refl) eq_refl stops_at_stream_send_chunk_short
                contents chunk_size times f start) as [Hc|[Hr (e & h & Hh & He & Hc)]].
    + intros e [].
    + fold run in Hc. specialize (Hc _ Hin). congruence.
    + fold run in Hr, Hh. split; [exact Hr|]. exists h.
      rewrite Hh in Hin |- *. destruct Hin as [->|Hin]; [reflexivity|].
      specialize (Hc _ Hin). congruence.
Qed.

End FatalClaims.

(** ** Loss *)

Section LossClaims.
Context {P : Platform}.
Variable net : network.

(** A chunk that was sent leaves the copy and the standard error stream
    alone. *)
Lemma datagram_send_chunk_ok (srv : sockaddr) (srv_len chunk_size : Z)
    (c c1 : counters) (p p1 : proc) :
  datagram_send_chunk net srv srv_len chunk_size c p = (Ok c1, p1) ->
  copy p1 = copy p /\ stderr p1 = stderr p.
Proof.
  unfold datagram_send_chunk, send_packet, fread, sendto, bind, log, ret,
    exit, lift, fprintf_stderr. cbn.
  destruct (0 <? _); cbn; [|now intros [= _ <-]].
  destruct (_ <? 0); cbn; [discriminate | now intros [= _ <-]].
Qed.

(** C4. A lost batch is tolerated.  When the wait of [recv_write] ends
    with nothing to read, the call returns normally having only put the
    marker on the standard error stream: nothing is written to the copy
    and nothing is received.  When this happens at the checkpoint of a
    turn of the datagram loop, the turn ends with both counters at zero
    and the loop goes on from there. *)
Theorem datagram_loss_tolerated (srv : sockaddr) (srv_len : Z) :
  (forall n_sent p,
     net_select net (calls p) = 0 ->
     recv_write net srv srv_len n_sent p = (Ok tt, lost p) /\
     copy (lost p) = copy p /\
     stderr (lost p) = String.append (stderr p) "." /\
     calls (lost p) = Select 0 :: calls p) /\
  (forall chunk_size times f fuel c c1 p p1,
     datagram_send_chunk net srv srv_len chunk_size c p = (Ok c1, p1) ->
     count c1 = times ->
     net_select net (marked f (calls p1)) = 0 ->
     let p2 := lost (with_calls (marked f (calls p1)) p1) in
     copy p2 = copy p /\
     stderr p2 = String.append (stderr p) "." /\
     datagram_turn net srv srv_len chunk_size times f c p
       = (Ok zero_counters, p2) /\
     datagram_loop net (S fuel) srv srv_len chunk_size times f c p
       = if orig_eof p2 then (Ok zero_counters, p2)
         else datagram_loop net fuel srv srv_len chunk_size times f
                zero_counters p2).
Proof.
  split.
  - intros n_sent p Hsel. rewrite recv_write_timeout by assumption.
    repeat split.
  - intros chunk_size times f fuel c c1 p p1 Hsend Hcount Hsel p2.
    destruct (datagram_send_chunk_ok _ _ _ _ _ _ _ Hsend) as [Hcopy Herr].
    assert (Hturn : datagram_turn net srv srv_len chunk_size times f c p
                    = (Ok zero_counters, p2)).
    { unfold datagram_turn. rewrite (bind_ok _ _ _ _ _ Hsend).
      unfold datagram_checkpoint. rewrite Hcount, Z.eqb_refl.
      rewrite (bind_ok _ _ _ _ _ (call_mark_run f p1)).
      now rewrite (bind_ok _ _ _ _ _
                     (recv_write_timeout net srv srv_len (bytes_sent c1)
                        (with_calls (marked f (calls p1)) p1) Hsel)). }
    repeat split; auto.
    + cbn. now rewrite Herr.
    + unfold datagram_loop. cbn [do_while_not_feof].
      rewrite (bind_ok _ _ _ _ _ Hturn).
      unfold bind, feof. now destruct (orig_eof p2).
Qed.

(** C10. The datagram receiver does not check the length.  A datagram
    from the right peer that carries fewer bytes than were sent is taken
    as it is: [recv_write] returns normally, nothing goes to the standard
    error stream, and the copy grows by the bytes received, fewer than
    [n_sent]. *)
Theorem short_datagram_accepted (srv : sockaddr) (srv_len n_sent : Z) (p : proc)
    (src : sockaddr) (len : Z) (data : list byte) :
  0 < net_select net (calls p) ->
  net_recvfrom net (Select (net_select net (calls p)) :: calls p)
    = RecvDgram src len data ->
  address_match src len srv srv_len = Ok true ->
  Z.of_nat (length data) < n_sent ->
  exists p',
    recv_write net srv srv_len n_sent p = (Ok tt, p') /\
    copy p' = copy p ++ data /\
    Z.of_nat (length (copy p')) < Z.of_nat (length (copy p)) + n_sent /\
    stderr p' = stderr p.
Proof.
  intros Hsel Hrecv Hmatch Hshort.
  rewrite (recv_write_readable net srv srv_len n_sent p src len data Hsel Hrecv).
  rewrite Hmatch.
  assert (E : firstn (Z.to_nat n_sent) data = data)
    by (apply firstn_all2; lia).
  rewrite E. eexists. split; [reflexivity|]. cbn.
  rewrite Nat2Z.id, firstn_all. repeat split.
  rewrite length_app. lia.
Qed.

End LossClaims.

(** ** The fuel is enough

    Whatever the network does, the loops of the model end within the fuel
    they are given, provided the chunk size is positive (the loop of the
    engines does not end otherwise, in the code as in the model). *)

Lemma halts_bind {A B : Type} (m : M A) (k : A -> M B) :
  halts m -> (forall a, halts (k a)) -> halts (bind m k).
Proof.
  intros Hm Hk p. specialize (Hm p). unfold bind.
  destruct (m p) as [[a| | |] p']; cbn [fst] in *;
    [apply Hk | discriminate | discriminate | congruence].
Qed.

Lemma keeps_orig_bind {A B : Type} (m : M A) (k : A -> M B) :
  keeps_orig m -> (forall a, keeps_orig (k a)) -> keeps_orig (bind m k).
Proof.
  intros Hm Hk p. specialize (Hm p). unfold bind.
  destruct (m p) as [[a| | |] p']; cbn [snd] in *; try exact Hm.
  destruct (Hk a p') as [Ho He]. destruct Hm as [Ho' He']. split; congruence.
Qed.

Lemma halts_bind_at {A B : Type} (m : M A) (k : A -> M B) (p : proc) :
  fst (m p) <> OutOfFuel -> (forall a, halts (k a)) ->
  fst (bind m k p) <> OutOfFuel.
Proof.
  intros Hm Hk. unfold bind.
  destruct (m p) as [[a| | |] p']; cbn [fst] in *;
    [apply Hk | discriminate | discriminate | congruence].
Qed.

Lemma halts_now {A : Type} (m : M A) :
  (forall p, exists r p', m p = (r, p') /\ r <> OutOfFuel) -> halts m.
Proof. intros H p. destruct (H p) as (r & p' & -> & Hr). exact Hr. Qed.

Lemma keeps_orig_now {A : Type} (m : M A) :
  (forall p, orig (snd (m p)) = orig p /\ orig_eof (snd (m p)) = orig_eof p) ->
  keeps_orig m.
Proof. exact (fun H => H). Qed.

Create HintDb fuel.

Ltac fuel_leaf :=
  first [ apply halts_now; intros ?; eexists _, _; split;
          [reflexivity | discriminate]
        | apply keeps_orig_now; intros ?; split; reflexivity ].

Lemma halts_assert (b : bool) : halts (assert b).
Proof. destruct b; fuel_leaf. Qed.

Lemma keeps_orig_assert (b : bool) : keeps_orig (assert b).
Proof. destruct b; fuel_leaf. Qed.

#[local] Hint Resolve halts_assert keeps_orig_assert : fuel.

Ltac fuel_step :=
  first [ solve [auto with fuel]
        | apply halts_bind; [|intros ?]
        | apply keeps_orig_bind; [|intros ?]
        | match goal with
          | |- halts (if ?b then _ else _) => destruct b
          | |- keeps_orig (if ?b then _ else _) => destruct b
          | |- halts (match ?r with _ => _ end) => destruct r
          | |- keeps_orig (match ?r with _ => _ end) => destruct r
          end
        | fuel_leaf ].

Section Fuel.
Context {P : Platform}.
Variable net : network.

Lemma halts_lift_address_match (a : sockaddr) (la : Z) (b : sockaddr) (lb : Z) :
  halts (lift (address_match a la b lb)).
Proof.
  intros p. cbn.
  destruct (address_match_cases a la b lb) as [H|[H|H]]; rewrite H; discriminate.
Qed.

Lemma halts_send_packet (buf : list byte) (n : Z) (dst : sockaddr) (len : Z) :
  halts (send_packet net buf n dst len).
Proof. unfold send_packet, exit. repeat fuel_step. Qed.

Lemma keeps_orig_send_packet (buf : list byte) (n : Z) (dst : sockaddr)
    (len : Z) :
  keeps_orig (send_packet net buf n dst len).
Proof. unfold send_packet, exit. repeat fuel_step. Qed.

Lemma halts_recv_write (srv : sockaddr) (srv_len n_sent : Z) :
  halts (recv_write net srv srv_len n_sent).
Proof.
  unfold recv_write, assert.
  repeat first [apply halts_lift_address_match | fuel_step].
Qed.

Lemma keeps_orig_recv_write (srv : sockaddr) (srv_len n_sent : Z) :
  keeps_orig (recv_write net srv srv_len n_sent).
Proof. unfold recv_write, assert. repeat fuel_step. Qed.

Lemma halts_read_loop (n_sent : Z) (fuel : nat) :
  forall out n_read,
    (Z.to_nat (n_sent - n_read) <= fuel)%nat ->
    halts (read_loop net fuel n_sent out n_read).
Proof.
  induction fuel as [|fuel IH]; intros out n_read Hfuel p.
  - cbn [read_loop]. destruct (Z.gtb_spec n_sent n_read); [lia | discriminate].
  - destruct (Z.gtb_spec n_sent n_read) as [Hgt|Hle].
    + rewrite read_loop_step by lia.
      destruct (read_result net (calls p) (n_sent - n_read)) as [|data] eqn:Hr;
        [discriminate|].
      pose proof (read_result_length _ _ _ _ Hr).
      destruct (Z.leb_spec (Z.of_nat (length data)) 0); [discriminate|].
      apply IH. lia.
    + cbn [read_loop]. destruct (Z.gtb_spec n_sent n_read); [lia | discriminate].
Qed.

Lemma keeps_orig_read_loop (n_sent : Z) (fuel : nat) :
  forall out n_read, keeps_orig (read_loop net fuel n_sent out n_read).
Proof.
  induction fuel as [|fuel IH]; intros out n_read; cbn [read_loop];
    destruct (n_sent >? n_read); try fuel_leaf.
  apply keeps_orig_bind; [fuel_leaf|]. intros [|data]; [repeat fuel_step|].
  destruct (_ <=? 0); [repeat fuel_step | apply IH].
Qed.

Lemma halts_read_write (n_sent : Z) : halts (read_write net n_sent).
Proof.
  unfold read_write, assert. apply halts_bind.
  - apply halts_read_loop. rewrite Z.sub_0_r. lia.
  - intros [[out n_read]|]; repeat fuel_step.
Qed.

Lemma keeps_orig_read_write (n_sent : Z) : keeps_orig (read_write net n_sent).
Proof.
  unfold read_write, assert. apply keeps_orig_bind.
  - apply keeps_orig_read_loop.
  - intros [[out n_read]|]; repeat fuel_step.
Qed.

End Fuel.

#[local] Hint Resolve halts_send_packet keeps_orig_send_packet halts_recv_write
  keeps_orig_recv_write halts_read_write keeps_orig_read_write : fuel.

Lemma reads_chunk_fread {A : Type} (n : Z) (k : list byte -> M A) :
  (forall buf, keeps_orig (k buf)) -> reads_chunk n (bind (fread n) k).
Proof.
  intros Hk p. unfold bind, fread.
  destruct (Hk (firstn (Z.to_nat n) (orig p)) (after_fread n p)) as [Ho He].
  exact (conj Ho He).
Qed.

Lemma reads_chunk_bind {A B : Type} (n : Z) (m : M A) (k : A -> M B) :
  reads_chunk n m -> (forall a, keeps_orig (k a)) -> reads_chunk n (bind m k).
Proof.
  intros Hm Hk p. specialize (Hm p). unfold bind.
  destruct (m p) as [[a| | |] p']; cbn [snd] in *; try exact Hm.
  destruct (Hk a p') as [Ho He]. destruct Hm as [Ho' He']. split; congruence.
Qed.

(** The loop ends: a turn that returns has read a whole chunk, and so
    shortened the file, or met its end. *)
Lemma do_while_halts (chunk_size : Z) (body : counters -> M counters) :
  0 < chunk_size ->
  (forall c, halts (body c)) ->
  (forall c, reads_chunk chunk_size (body c)) ->
  forall fuel c p,
    orig_eof p = false -> (length (orig p) < fuel)%nat ->
    fst (do_while_not_feof fuel body c p) <> OutOfFuel.
Proof.
  intros Hcs Hhalts Hreads.
  induction fuel as [|fuel IH]; intros c p Heof Hfuel; [lia|].
  cbn [do_while_not_feof]. unfold bind at 1.
  pose proof (Hhalts c p) as Hh. destruct (Hreads c p) as [Ho He].
  destruct (body c p) as [[c1| | |] p1]; cbn [fst snd] in *;
    try discriminate; [|congruence].
  unfold bind, feof. rewrite He. cbn [after_fread orig_eof]. rewrite Heof.
  cbn [orb].
  destruct (Nat.ltb_spec (length (firstn (Z.to_nat chunk_size) (orig p)))
              (Z.to_nat chunk_size)) as [Hshort|Hfull]; [discriminate|].
  apply IH.
  - rewrite He. cbn [after_fread orig_eof]. rewrite Heof. cbn [orb].
    apply Nat.ltb_ge. exact Hfull.
  - rewrite Ho. cbn [after_fread orig].
    pose proof (length_firstn_skipn (Z.to_nat chunk_size) (orig p)). lia.
Qed.

Section EnginesHalt.
Context {P : Platform}.
Variable net : network.

Lemma datagram_turn_halts (srv : sockaddr) (srv_len chunk_size times : Z)
    (f : bool) (c : counters) :
  halts (datagram_turn net srv srv_len chunk_size times f c) /\
  reads_chunk chunk_size (datagram_turn net srv srv_len chunk_size times f c).
Proof.
  unfold datagram_turn, datagram_send_chunk, datagram_checkpoint, call_mark.
  split.
  - repeat fuel_step.
  - apply reads_chunk_bind; [apply reads_chunk_fread|]; intros ?;
      repeat fuel_step.
Qed.

Lemma stream_turn_halts (chunk_size times : Z) (f : bool) (c : counters) :
  halts (stream_turn net chunk_size times f c) /\
  reads_chunk chunk_size (stream_turn net chunk_size times f c).
Proof.
  unfold stream_turn, stream_send_chunk, stream_checkpoint, call_mark, assert.
  split.
  - repeat fuel_step.
  - apply reads_chunk_bind; [apply reads_chunk_fread|]; intros ?;
      repeat fuel_step.
Qed.

(** Neither engine runs out of fuel, on any network. *)
Lemma process_file_halts (srv : sockaddr) (srv_len : Z) (contents : list byte)
    (chunk_size times : Z) (f : bool) :
  0 < chunk_size ->
  halts (datagram_process_file net srv srv_len contents chunk_size times f) /\
  halts (stream_process_file net contents chunk_size times f).
Proof.
  intros Hcs. split; intros p.
  - unfold datagram_process_file. unfold bind at 1. cbn [fopen_both].
    apply halts_bind_at.
    + apply (do_while_halts chunk_size); cbn [orig orig_eof]; auto;
        intros c; apply datagram_turn_halts.
    + intros c. unfold datagram_flush, call_mark. repeat fuel_step.
  - unfold stream_process_file. unfold bind at 1. cbn [fopen_both].
    apply halts_bind_at.
    + apply (do_while_halts chunk_size); cbn [orig orig_eof]; auto;
        intros c; apply stream_turn_halts.
    + intros c. unfold stream_flush, call_mark. repeat fuel_step.
Qed.

End EnginesHalt.

(** ** The loop *)

(** Total correctness of [do ... while (!feof(orig))]: a turn keeps the
    invariant and, unless it meets the end of the file, consumes some of
    it. *)
Lemma do_while_total (body : counters -> M counters)
    (Inv : counters -> proc -> Prop) :
  (forall c p,
     Inv c p -> orig_eof p = false ->
     exists c' p',
       body c p = (Ok c', p') /\ Inv c' p' /\
       (orig_eof p' = false -> (length (orig p') < length (orig p))%nat)) ->
  forall fuel c p,
    Inv c p -> orig_eof p = false -> (length (orig p) < fuel)%nat ->
    exists c' p',
      do_while_not_feof fuel body c p = (Ok c', p') /\
      Inv c' p' /\ orig_eof p' = true.
Proof.
  intros Hbody. induction fuel as [|fuel IH]; intros c p Hinv Heof Hfuel;
    [lia|].
  destruct (Hbody c p Hinv Heof) as (c1 & p1 & Hrun & Hinv1 & Hless).
  cbn [do_while_not_feof]. rewrite (bind_ok _ _ _ _ _ Hrun).
  unfold bind, feof. destruct (orig_eof p1) eqn:E.
  - now exists c1, p1.
  - apply IH; auto. specialize (Hless eq_refl). lia.
Qed.

(** *** How the counters end up

    For any loop body that moves the file and the counters the way a turn
    of the engines does. *)
Section Counting.
Variables (contents : list byte) (chunk_size times : Z).
Variable body : counters -> M counters.

Hypothesis chunk_size_pos : 0 < chunk_size.
Hypothesis times_pos : 0 < times.
Hypothesis batches_fit : longest_batch contents chunk_size times <= INT_MAX.

Hypothesis body_moves :
  forall c p,
    let b := Z.of_nat (length (firstn (Z.to_nat chunk_size) (orig p))) in
    0 <= bytes_sent c -> bytes_sent c + b <= INT_MAX ->
    exists p',
      body c p = (Ok (after_checkpoint times (after_chunk b c)), p') /\
      orig p' = orig (after_fread chunk_size p) /\
      orig_eof p' = orig_eof (after_fread chunk_size p).

Lemma counting_turn (c : counters) (p : proc) :
  counting_inv contents chunk_size times c p -> orig_eof p = false ->
  exists c' p',
    body c p = (Ok c', p') /\ counting_inv contents chunk_size times c' p' /\
    (orig_eof p' = false -> (length (orig p') < length (orig p))%nat).
Proof.
  intros (k & Hk & Hs & Hlo & Hhi & Hcount & Hbytes & Hhead & _) Heof.
  specialize (Hhead Heof).
  set (n := Z.to_nat chunk_size) in *.
  pose proof (length_firstn_skipn n (orig p)) as Hsplit.
  pose proof (length_firstn n (orig p)) as Hfirst.
  pose proof (Z.mod_pos_bound k times times_pos) as Hmod.
  pose proof (mod_succ k times Hk times_pos) as [Hwrap Hstep].
  assert (Hbytes0 : bytes_sent c = (k mod times) * chunk_size).
  { rewrite Hbytes, Hcount. destruct (Z.eqb_spec (k mod times) 0) as [->|]; lia. }
  pose proof (Z.mod_le k times Hk times_pos) as Hmle.
  assert (Hmcs : 0 <= k mod times * chunk_size <= k * chunk_size) by nia.
  set (b := Z.of_nat (length (firstn n (orig p)))).
  assert (Hble : 0 <= b <= chunk_size) by (subst b n; lia).
  assert (Hroom : (0 < b -> count c + 1 <= INT_MAX) /\
                  bytes_sent c + b <= INT_MAX).
  { unfold longest_batch in batches_fit.
    destruct (Z.min_spec (Z.of_nat (length contents)) (chunk_size * times))
      as [[_ Hmin]|[_ Hmin]]; rewrite Hmin in batches_fit.
    - assert (k <= k * chunk_size) by nia. subst b. split; lia.
    - split; [nia|]. rewrite Hbytes0. nia. }
  destruct (body_moves c p) as (p' & Hrun & Horig & Heof');
    [lia | fold n b; lia |].
  cbn [after_fread orig orig_eof] in Horig, Heof'. rewrite Heof in Heof'.
  cbn [orb] in Heof'. fold n in Hrun, Horig, Heof'. fold b in Hrun.
  eexists _, p'. split; [exact Hrun|].
  split; [|rewrite Horig, Heof'; intros Hlt; apply Nat.ltb_ge in Hlt;
           subst b n; lia].
  assert (Hs' : Z.of_nat (length contents)
                - Z.of_nat (length (skipn n (orig p))) = k * chunk_size + b)
    by (subst b; lia).
  assert (Hfull : (length (firstn n (orig p)) <? n)%nat = false ->
                  b = chunk_size).
  { intros Hlt. apply Nat.ltb_ge in Hlt. subst b n. lia. }
  assert (Hend : (length (firstn n (orig p)) <? n)%nat = true ->
                 skipn n (orig p) = []).
  { intros Hlt. apply Nat.ltb_lt in Hlt. apply length_zero_iff_nil. lia. }
  unfold counting_inv. rewrite Horig, Heof', Hs'. clear Hs'.
  unfold after_chunk. destruct (Z.ltb_spec 0 b) as [Hb|Hb].
  - (* a chunk was read and sent *)
    rewrite !to_int_small by (unfold INT_MAX in *; lia).
    exists (k + 1).
    unfold after_checkpoint. cbn [count bytes_sent].
    destruct (Z.eqb_spec (count c + 1) times) as [E|E];
      cbn [count bytes_sent zero_counters].
    + rewrite Hwrap by lia. rewrite Z.eqb_refl.
      repeat split; try lia; auto. intros H. specialize (Hfull H). lia.
    + rewrite Hstep by lia. rewrite <- Hcount.
      destruct (Z.eqb_spec (count c + 1) 0) as [|_]; [lia|].
      repeat split; try lia; auto. intros H. specialize (Hfull H). lia.
  - (* the file had ended already *)
    assert (Hb0 : b = 0) by (subst b; lia).
    unfold after_checkpoint.
    destruct (Z.eqb_spec (count c) times) as [E|_]; [lia|].
    exists k. rewrite Hb0, Z.add_0_r.
    repeat split; auto; try lia.
    rewrite Hbytes, Hhead. reflexivity.
Qed.

Lemma counting_start (p : proc) :
  orig p = contents -> orig_eof p = false -> counting_inv contents chunk_size times zero_counters p.
Proof.
  intros Ho He. exists 0. cbv zeta.
  rewrite Ho, He, Z.sub_diag, Z.mod_0_l by lia.
  cbn [count bytes_sent zero_counters Z.eqb].
  repeat split; try lia; discriminate.
Qed.

Lemma counting_end (c : counters) (p : proc) :
  counting_inv contents chunk_size times c p -> orig_eof p = true ->
  let len := Z.of_nat (length contents) in
  count c = chunks len chunk_size mod times /\
  (count c <> 0 ->
   bytes_sent c = len mod (chunk_size * times) /\ 0 < bytes_sent c).
Proof.
  intros (k & Hk & Hs & Hlo & Hhi & Hcount & Hbytes & _ & Hnil) Heof len.
  rewrite (Hnil Heof) in *. cbn [length] in *. rewrite Z.sub_0_r in *.
  fold len in Hlo, Hhi, Hbytes, Hs.
  assert (Hchunks : chunks len chunk_size = k).
  { unfold chunks. symmetry.
    apply (Z.div_unique_pos _ _ _ (len + chunk_size - 1 - k * chunk_size)); lia. }
  rewrite Hchunks. split; [exact Hcount|]. intros Hne.
  destruct (Z.eqb_spec (count c) 0) as [|_]; [contradiction|].
  pose proof (Z.mod_pos_bound k times times_pos) as Hmod.
  pose proof (Z.div_mod k times ltac:(lia)) as Hdiv.
  assert (Hq : (k - k mod times) * chunk_size = chunk_size * times * (k / times))
    by nia.
  assert (Hrange : 0 < bytes_sent c < chunk_size * times) by nia.
  split; [|lia].
  apply (Z.mod_unique_pos _ _ (k / times)); lia.
Qed.

(** The whole loop, from the opened file. *)
Lemma counting_loop (p : proc) :
  orig p = contents -> orig_eof p = false ->
  exists c p',
    do_while_not_feof (S (length contents)) body zero_counters p = (Ok c, p') /\
    count c = chunks (Z.of_nat (length contents)) chunk_size mod times /\
    (count c <> 0 ->
     bytes_sent c = Z.of_nat (length contents) mod (chunk_size * times) /\
     0 < bytes_sent c).
Proof.
  intros Ho He.
  destruct (do_while_total body (counting_inv contents chunk_size times)
              counting_turn
              (S (length contents)) zero_counters p)
    as (c & p' & Hrun & Hinv & Heof); [now apply counting_start | exact He | |].
  { rewrite Ho. lia. }
  exists c, p'. split; [exact Hrun|]. exact (counting_end c p' Hinv Heof).
Qed.

End Counting.

(** ** The engines, turn by turn *)

Section Turns.
Context {P : Platform}.
Variable net : network.

Lemma datagram_send_chunk_run (srv : sockaddr) (srv_len chunk_size : Z)
    (c : counters) (p : proc) :
  let buf := firstn (Z.to_nat chunk_size) (orig p) in
  let b := Z.of_nat (length buf) in
  let rc := net_sendto net (calls p) buf srv srv_len in
  0 <= rc ->
  datagram_send_chunk net srv srv_len chunk_size c p
  = (Ok (after_chunk b c),
     if 0 <? b
     then with_calls (Sendto buf srv srv_len rc :: calls p)
            (after_fread chunk_size p)
     else after_fread chunk_size p).
Proof.
  intros buf b rc Hrc.
  unfold datagram_send_chunk, send_packet, fread, sendto, bind, log, ret,
    after_chunk. cbn. fold buf b.
  destruct (0 <? b); [|reflexivity]. cbn.
  replace (firstn (Z.to_nat b) buf) with buf
    by (unfold b; now rewrite Nat2Z.id, firstn_all).
  fold rc. destruct (Z.ltb_spec rc 0); [lia | reflexivity].
Qed.

Lemma stream_send_chunk_run (chunk_size : Z) (c : counters) (p : proc) :
  let buf := firstn (Z.to_nat chunk_size) (orig p) in
  let b := Z.of_nat (length buf) in
  net_write net (calls p) buf = b ->
  stream_send_chunk net chunk_size c p
  = (Ok (after_chunk b c),
     if 0 <? b
     then with_calls (Write buf b :: calls p) (after_fread chunk_size p)
     else after_fread chunk_size p).
Proof.
  intros buf b Hrc.
  unfold stream_send_chunk, fread, write, bind, log, ret, assert, after_chunk.
  cbn. fold buf b.
  destruct (0 <? b); [|reflexivity]. cbn.
  replace (firstn (Z.to_nat b) buf) with buf
    by (unfold b; now rewrite Nat2Z.id, firstn_all).
  rewrite Hrc, Z.eqb_refl. reflexivity.
Qed.

(** On a network that is never fatal, [recv_write] returns and leaves
    [orig] alone. *)
Lemma recv_write_returns (srv : sockaddr) (srv_len n_sent : Z) (p : proc) :
  datagram_never_fatal net srv srv_len ->
  exists p',
    recv_write net srv srv_len n_sent p = (Ok tt, p') /\
    orig p' = orig p /\ orig_eof p' = orig_eof p.
Proof.
  intros Hnet.
  destruct (Hnet (calls p)) as (_ & Hsel & _).
  destruct (Z.eq_dec (net_select net (calls p)) 0) as [E|E].
  - rewrite recv_write_timeout by assumption. now eexists.
  - destruct (Hnet (Select (net_select net (calls p)) :: calls p))
      as (_ & _ & src & len & data & Hrecv & Hmatch).
    rewrite (recv_write_readable net srv srv_len n_sent p src len data)
      by (assumption || lia).
    rewrite Hmatch. now eexists.
Qed.

Lemma read_write_returns (n_sent : Z) (p : proc) :
  0 <= n_sent ->
  exists p',
    read_write net n_sent p = (Ok tt, p') /\
    orig p' = orig p /\ orig_eof p' = orig_eof p.
Proof.
  intros Hn.
  destruct (read_loop_spec net n_sent (Z.to_nat n_sent) [] 0 p eq_refl Hn)
    as (evs & [(Hrun & _ & _) | (Hrun & _)]).
  { rewrite Z.sub_0_r. lia. }
  - unfold read_write. rewrite (bind_ok _ _ _ _ _ Hrun).
    unfold assert. rewrite Z.eqb_refl. now eexists.
  - unfold read_write. rewrite (bind_ok _ _ _ _ _ Hrun). now eexists.
Qed.

Lemma datagram_turn_moves (srv : sockaddr) (srv_len chunk_size times : Z)
    (f : bool) (c : counters) (p : proc) :
  datagram_never_fatal net srv srv_len ->
  let b := Z.of_nat (length (firstn (Z.to_nat chunk_size) (orig p))) in
  exists p',
    datagram_turn net srv srv_len chunk_size times f c p
    = (Ok (after_checkpoint times (after_chunk b c)), p') /\
    orig p' = orig (after_fread chunk_size p) /\
    orig_eof p' = orig_eof (after_fread chunk_size p).
Proof.
  intros Hnet b. unfold datagram_turn.
  rewrite (bind_ok _ _ _ _ _
             (datagram_send_chunk_run srv srv_len chunk_size c p
                (proj1 (Hnet (calls p)) _ _ _))).
  fold b. set (p1 := if 0 <? b then _ else _).
  assert (Hp1 : orig p1 = orig (after_fread chunk_size p) /\
                orig_eof p1 = orig_eof (after_fread chunk_size p))
    by (subst p1; destruct (0 <? b); now split).
  unfold datagram_checkpoint, after_checkpoint.
  destruct (count (after_chunk b c) =? times); [|now exists p1].
  rewrite (bind_ok _ _ _ _ _ (call_mark_run f p1)).
  destruct (recv_write_returns srv srv_len (bytes_sent (after_chunk b c))
              (with_calls (marked f (calls p1)) p1) Hnet)
    as (p2 & Hrun & Ho & He).
  rewrite (bind_ok _ _ _ _ _ Hrun). exists p2. split; [reflexivity|].
  rewrite Ho, He. exact Hp1.
Qed.

Lemma stream_turn_moves (chunk_size times : Z) (f : bool) (c : counters)
    (p : proc) :
  stream_never_fatal net ->
  let b := Z.of_nat (length (firstn (Z.to_nat chunk_size) (orig p))) in
  0 <= bytes_sent c -> bytes_sent c + b <= INT_MAX ->
  exists p',
    stream_turn net chunk_size times f c p
    = (Ok (after_checkpoint times (after_chunk b c)), p') /\
    orig p' = orig (after_fread chunk_size p) /\
    orig_eof p' = orig_eof (after_fread chunk_size p).
Proof.
  intros Hnet b Hlo Hhi. unfold stream_turn.
  rewrite (bind_ok _ _ _ _ _
             (stream_send_chunk_run chunk_size c p (Hnet (calls p) _))).
  fold b. set (p1 := if 0 <? b then _ else _).
  assert (Hp1 : orig p1 = orig (after_fread chunk_size p) /\
                orig_eof p1 = orig_eof (after_fread chunk_size p))
    by (subst p1; destruct (0 <? b); now split).
  assert (Hsent : 0 <= bytes_sent (after_chunk b c)).
  { unfold after_chunk. destruct (Z.ltb_spec 0 b); [|exact Hlo].
    cbn [bytes_sent]. rewrite to_int_small; unfold INT_MAX in *; lia. }
  unfold stream_checkpoint, after_checkpoint.
  destruct (count (after_chunk b c) =? times); [|now exists p1].
  rewrite (bind_ok _ _ _ _ _ (call_mark_run f p1)).
  destruct (read_write_returns (bytes_sent (after_chunk b c))
              (with_calls (marked f (calls p1)) p1) Hsent)
    as (p2 & Hrun & Ho & He).
  rewrite (bind_ok _ _ _ _ _ Hrun). exists p2. split; [reflexivity|].
  rewrite Ho, He. exact Hp1.
Qed.

End Turns.

(** ** The last, partial batch *)

Lemma chunks_of_whole_batches (len chunk_size times : Z) :
  0 <= len -> 0 < chunk_size -> 0 < times ->
  len mod (chunk_size * times) = 0 ->
  chunks len chunk_size mod times = 0.
Proof.
  intros Hlen Hcs Ht Hmod.
  pose proof (Z.div_mod len (chunk_size * times) ltac:(nia)) as Hd.
  rewrite Hmod, Z.add_0_r in Hd.
  set (q := len / (chunk_size * times)) in *.
  assert (Hchunks : chunks len chunk_size = times * q).
  { unfold chunks. symmetry.
    apply (Z.div_unique_pos _ _ _ (chunk_size - 1)); [lia|]. rewrite Hd at 1. ring. }
  rewrite Hchunks, Z.mul_comm. now apply Z.mod_mul; lia.
Qed.

Section LastBatch.
Context {P : Platform}.
Variable net : network.

Lemma fopen_both_run (contents : list byte) :
  fopen_both contents start = (Ok tt, opened contents).
Proof. reflexivity. Qed.

(** C5, as the code has it.  When the number of chunks the file is read
    in is not a multiple of the checkpoint interval, both engines, once
    the loop has ended, do exactly one more thing: call the hook, if there
    is one, and receive and verify the bytes sent since the last
    checkpoint, which are the file's length modulo the size of a whole
    batch, and at least one. *)
Theorem partial_final_batch_flushed (srv : sockaddr) (srv_len : Z)
    (contents : list byte) (chunk_size times : Z) (f : bool) :
  0 < chunk_size -> 0 < times ->
  longest_batch contents chunk_size times <= INT_MAX ->
  chunks (Z.of_nat (length contents)) chunk_size mod times <> 0 ->
  0 < Z.of_nat (length contents) mod (chunk_size * times) /\
  (datagram_never_fatal net srv srv_len ->
   datagram_flushes_after_loop net srv srv_len contents chunk_size times f
     (Z.of_nat (length contents) mod (chunk_size * times))) /\
  (stream_never_fatal net ->
   stream_flushes_after_loop net contents chunk_size times f
     (Z.of_nat (length contents) mod (chunk_size * times))).
Proof.
  intros Hcs Ht Hfit Hchunks. split; [|split].
  - pose proof (Z.mod_pos_bound (Z.of_nat (length contents))
                  (chunk_size * times) ltac:(nia)) as Hb.
    destruct (Z.eq_dec (Z.of_nat (length contents) mod (chunk_size * times)) 0)
      as [E|E]; [|lia].
    apply chunks_of_whole_batches in E; [contradiction | lia | lia | lia].
  - intros Hnet. unfold datagram_flushes_after_loop, datagram_process_file.
    rewrite !(bind_ok _ _ _ _ _ (fopen_both_run contents)).
    destruct (counting_loop contents chunk_size times
                (datagram_turn net srv srv_len chunk_size times f)
                Hcs Ht Hfit
                (fun c p _ _ => datagram_turn_moves net srv srv_len
                                  chunk_size times f c p Hnet)
                (opened contents) eq_refl eq_refl)
      as (c & p1 & Hloop & Hcount & Hbytes).
    unfold datagram_loop. exists c, p1. split; [exact Hloop|].
    rewrite (bind_ok _ _ _ _ _ Hloop). unfold datagram_flush.
    destruct (Z.eqb_spec (count c) 0) as [E|E]; [congruence|]. cbn [negb].
    rewrite (bind_ok _ _ _ _ _ (call_mark_run f p1)).
    destruct Hbytes as [-> _]; [congruence | reflexivity].
  - intros Hnet. unfold stream_flushes_after_loop, stream_process_file.
    rewrite !(bind_ok _ _ _ _ _ (fopen_both_run contents)).
    destruct (counting_loop contents chunk_size times
                (stream_turn net chunk_size times f)
                Hcs Ht Hfit
                (fun c p => stream_turn_moves net chunk_size times f c p Hnet)
                (opened contents) eq_refl eq_refl)
      as (c & p1 & Hloop & Hcount & Hbytes).
    unfold stream_loop. exists c, p1. split; [exact Hloop|].
    rewrite (bind_ok _ _ _ _ _ Hloop). unfold stream_flush.
    destruct (Z.eqb_spec (count c) 0) as [E|E]; [congruence|]. cbn [negb].
    rewrite (bind_ok _ _ _ _ _ (call_mark_run f p1)).
    destruct Hbytes as [-> _]; [congruence | reflexivity].
Qed.

(** When the chunks make whole batches, the checkpoint of the last turn
    has flushed them all and nothing follows the loop. *)
Lemma nothing_after_whole_batches (srv : sockaddr) (srv_len : Z)
    (contents : list byte) (chunk_size times : Z) (f : bool) :
  0 < chunk_size -> 0 < times ->
  longest_batch contents chunk_size times <= INT_MAX ->
  chunks (Z.of_nat (length contents)) chunk_size mod times = 0 ->
  (datagram_never_fatal net srv srv_len ->
   datagram_nothing_after_loop net srv srv_len contents chunk_size times f) /\
  (stream_never_fatal net ->
   stream_nothing_after_loop net contents chunk_size times f).
Proof.
  intros Hcs Ht Hfit Hchunks. split; intros Hnet.
  - unfold datagram_nothing_after_loop, datagram_process_file.
    rewrite !(bind_ok _ _ _ _ _ (fopen_both_run contents)).
    destruct (counting_loop contents chunk_size times
                (datagram_turn net srv srv_len chunk_size times f)
                Hcs Ht Hfit
                (fun c p _ _ => datagram_turn_moves net srv srv_len
                                  chunk_size times f c p Hnet)
                (opened contents) eq_refl eq_refl)
      as (c & p1 & Hloop & Hcount & _).
    unfold datagram_loop. exists c, p1. split; [exact Hloop|].
    rewrite (bind_ok _ _ _ _ _ Hloop). unfold datagram_flush.
    now rewrite Hcount, Hchunks.
  - unfold stream_nothing_after_loop, stream_process_file.
    rewrite !(bind_ok _ _ _ _ _ (fopen_both_run contents)).
    destruct (counting_loop contents chunk_size times
                (stream_turn net chunk_size times f)
                Hcs Ht Hfit
                (fun c p => stream_turn_moves net chunk_size times f c p Hnet)
                (opened contents) eq_refl eq_refl)
      as (c & p1 & Hloop & Hcount & _).
    unfold stream_loop. exists c, p1. split; [exact Hloop|].
    rewrite (bind_ok _ _ _ _ _ Hloop). unfold stream_flush.
    now rewrite Hcount, Hchunks.
Qed.

End LastBatch.

(** ** Round trip *)

(** *** What reaches the copy

    For any loop body that moves the file and the counters the way a turn
    of the engines does and, at a checkpoint, moves the [pending] bytes to
    the copy. *)
Section Echoing.
Variables (contents : list byte) (chunk_size times : Z).
Variable body : counters -> M counters.
Variable pending : proc -> list byte.

Hypothesis chunk_size_pos : 0 < chunk_size.
Hypothesis times_pos : 0 < times.
Hypothesis batches_fit : longest_batch contents chunk_size times <= INT_MAX.

Hypothesis body_echoes :
  forall c p,
    let buf := firstn (Z.to_nat chunk_size) (orig p) in
    let b := Z.of_nat (length buf) in
    bytes_sent c = Z.of_nat (length (pending p)) ->
    bytes_sent c + b <= INT_MAX ->
    exists p',
      body c p = (Ok (after_checkpoint times (after_chunk b c)), p') /\
      orig p' = orig (after_fread chunk_size p) /\
      orig_eof p' = orig_eof (after_fread chunk_size p) /\
      (if count (after_chunk b c) =? times
       then copy p' = copy p ++ pending p ++ buf /\ pending p' = []
       else copy p' = copy p /\ pending p' = pending p ++ buf).

Lemma echo_turn (c : counters) (p : proc) :
  echo_inv contents chunk_size times pending c p -> orig_eof p = false ->
  exists c' p',
    body c p = (Ok c', p') /\ echo_inv contents chunk_size times pending c' p' /\
    (orig_eof p' = false -> (length (orig p') < length (orig p))%nat).
Proof.
  intros (Hcount & Hle & Hzero & Hbytes & Hall & _) Heof.
  set (n := Z.to_nat chunk_size) in *.
  pose proof (length_firstn_skipn n (orig p)) as Hsplit.
  pose proof (length_firstn n (orig p)) as Hfirst.
  pose proof (firstn_skipn n (orig p)) as Hcat.
  assert (Hlen : Z.of_nat (length (pending p))
                 + Z.of_nat (length (firstn n (orig p)))
                 <= Z.of_nat (length contents)).
  { rewrite <- Hall, !length_app. lia. }
  set (buf := firstn n (orig p)) in *.
  set (b := Z.of_nat (length buf)) in *.
  assert (Hble : 0 <= b <= chunk_size) by (subst b n; lia).
  assert (Hroom : (0 < b -> count c + 1 <= INT_MAX) /\
                  bytes_sent c + b <= INT_MAX).
  { unfold longest_batch in batches_fit.
    destruct (Z.min_spec (Z.of_nat (length contents)) (chunk_size * times))
      as [[_ Hmin]|[_ Hmin]]; rewrite Hmin in batches_fit.
    - split; lia.
    - split; nia. }
  destruct (body_echoes c p) as (p' & Hrun & Horig & Heof' & Hcopy);
    [exact Hbytes | fold n buf b; lia |].
  cbn [after_fread orig orig_eof] in Horig, Heof'. rewrite Heof in Heof'.
  cbn [orb] in Heof'. fold n in Hrun, Horig, Heof', Hcopy.
  fold buf in Hrun, Heof', Hcopy. fold b in Hrun, Hcopy.
  eexists _, p'. split; [exact Hrun|].
  split; [|rewrite Horig, Heof'; intros Hlt; apply Nat.ltb_ge in Hlt;
           subst b n; lia].
  assert (Hend : orig_eof p' = true -> orig p' = []).
  { rewrite Horig, Heof'. intros Hlt. apply Nat.ltb_lt in Hlt.
    apply length_zero_iff_nil. lia. }
  assert (Hjoin : forall l, (l ++ buf) ++ orig p' = l ++ orig p).
  { intros l. now rewrite Horig, <- app_assoc, Hcat. }
  unfold echo_inv. revert Hcopy. unfold after_chunk.
  destruct (Z.ltb_spec 0 b) as [Hb|Hb].
  - (* a chunk was read and sent *)
    rewrite !to_int_small by (unfold INT_MAX in *; lia).
    unfold after_checkpoint. cbn [count bytes_sent].
    destruct (Z.eqb_spec (count c + 1) times) as [E|E];
      cbn [count bytes_sent zero_counters]; intros [Hcopy Hpend];
      rewrite Hcopy, Hpend.
    + repeat split; auto; try lia.
      cbn [app]. rewrite <- Hall, <- Hjoin. now rewrite <- !app_assoc.
    + repeat split; auto; try lia; try nia.
      * rewrite length_app. lia.
      * rewrite <- Hall, <- !Hjoin. now rewrite <- !app_assoc.
  - (* the file had ended already *)
    assert (Hnil : buf = []) by (apply length_zero_iff_nil; lia).
    unfold after_checkpoint.
    destruct (Z.eqb_spec (count c) times) as [E|_]; [lia|].
    intros [Hcopy Hpend]. rewrite Hcopy, Hpend, Hnil, app_nil_r.
    repeat split; auto; try lia.
    rewrite <- Hall. specialize (Hjoin (pending p)).
    rewrite Hnil, app_nil_r in Hjoin. now rewrite Hjoin.
Qed.

(** The whole loop, from the opened file: everything read is in the copy
    or pending, and the counters say how much is pending. *)
Lemma echo_loop (p : proc) :
  orig p = contents -> orig_eof p = false -> copy p = [] -> pending p = [] ->
  exists c p',
    do_while_not_feof (S (length contents)) body zero_counters p = (Ok c, p') /\
    copy p' ++ pending p' = contents /\
    bytes_sent c = Z.of_nat (length (pending p')) /\
    (count c = 0 -> pending p' = []).
Proof.
  intros Ho He Hc Hp.
  destruct (do_while_total body (echo_inv contents chunk_size times pending) echo_turn
              (S (length contents)) zero_counters p)
    as (c & p' & Hrun & (Hcount & Hle & Hzero & Hbytes & Hall & Hnil) & Heof).
  - unfold echo_inv. rewrite Ho, He, Hc, Hp. cbn.
    repeat split; auto; try lia; discriminate.
  - exact He.
  - rewrite Ho. lia.
  - exists c, p'. split; [exact Hrun|].
    rewrite (Hnil Heof), app_nil_r in Hall. repeat split; auto.
    intros H0. apply length_zero_iff_nil. specialize (Hzero H0). lia.
Qed.

End Echoing.

Lemma unechoed_marked (f : bool) (h : list event) :
  unechoed (marked f h) = unechoed h.
Proof. now destruct f. Qed.

Lemma inflight_marked (f : bool) (h : list event) :
  inflight (marked f h) = inflight h.
Proof. now destruct f. Qed.

Section DatagramRoundTrip.
Context {P : Platform}.
Variables (net : network) (srv : sockaddr) (srv_len : Z).
Hypothesis no_loss : datagram_no_loss net srv srv_len.

(** Without loss, a receive of as many bytes as are outstanding appends
    them to the copy. *)
Lemma recv_write_echo (n_sent : Z) (p : proc) :
  n_sent = Z.of_nat (length (unechoed (calls p))) ->
  exists p',
    recv_write net srv srv_len n_sent p = (Ok tt, p') /\
    orig p' = orig p /\ orig_eof p' = orig_eof p /\
    copy p' = copy p ++ unechoed (calls p) /\
    unechoed (calls p') = [].
Proof.
  intros Hn.
  destruct (no_loss (calls p)) as (_ & Hsel & _).
  destruct (no_loss (Select (net_select net (calls p)) :: calls p))
    as (_ & _ & src & len & Hrecv & Hmatch).
  cbn [unechoed] in Hrecv.
  rewrite (recv_write_readable net srv srv_len n_sent p src len _ Hsel Hrecv).
  rewrite Hmatch, Hn, Nat2Z.id, firstn_all.
  eexists. split; [reflexivity|]. cbn. rewrite Nat2Z.id, firstn_all.
  repeat split.
Qed.

Lemma datagram_turn_echoes (chunk_size times : Z) (f : bool) (c : counters)
    (p : proc) :
  let buf := firstn (Z.to_nat chunk_size) (orig p) in
  let b := Z.of_nat (length buf) in
  bytes_sent c = Z.of_nat (length (unechoed (calls p))) ->
  bytes_sent c + b <= INT_MAX ->
  exists p',
    datagram_turn net srv srv_len chunk_size times f c p
    = (Ok (after_checkpoint times (after_chunk b c)), p') /\
    orig p' = orig (after_fread chunk_size p) /\
    orig_eof p' = orig_eof (after_fread chunk_size p) /\
    (if count (after_chunk b c) =? times
     then copy p' = copy p ++ unechoed (calls p) ++ buf /\
          unechoed (calls p') = []
     else copy p' = copy p /\
          unechoed (calls p') = unechoed (calls p) ++ buf).
Proof.
  intros buf b Hbytes Hfit. unfold datagram_turn.
  rewrite (bind_ok _ _ _ _ _
             (datagram_send_chunk_run net srv srv_len chunk_size c p
                (proj1 (no_loss (calls p)) _ _ _))).
  fold buf b. set (p1 := if 0 <? b then _ else _).
  assert (Hp1 : orig p1 = orig (after_fread chunk_size p) /\
                orig_eof p1 = orig_eof (after_fread chunk_size p) /\
                copy p1 = copy p /\
                unechoed (calls p1) = unechoed (calls p) ++ buf).
  { subst p1. destruct (Z.ltb_spec 0 b) as [Hb|Hb]; repeat split.
    assert (Hnil : buf = []) by (apply length_zero_iff_nil; lia).
    cbn. now rewrite Hnil, app_nil_r. }
  destruct Hp1 as (Ho1 & He1 & Hc1 & Hu1).
  assert (Hsent : bytes_sent (after_chunk b c)
                  = Z.of_nat (length (unechoed (calls p1)))).
  { rewrite Hu1, length_app. unfold after_chunk.
    destruct (Z.ltb_spec 0 b) as [Hb|Hb]; cbn [bytes_sent].
    - rewrite to_int_small; unfold INT_MAX in *; lia.
    - lia. }
  unfold datagram_checkpoint, after_checkpoint.
  destruct (count (after_chunk b c) =? times); [|now exists p1].
  rewrite (bind_ok _ _ _ _ _ (call_mark_run f p1)).
  destruct (recv_write_echo (bytes_sent (after_chunk b c))
              (with_calls (marked f (calls p1)) p1))
    as (p2 & Hrun & Ho & He & Hc & Hu).
  { cbn [calls with_calls]. now rewrite unechoed_marked. }
  rewrite (bind_ok _ _ _ _ _ Hrun). exists p2. split; [reflexivity|].
  cbn [calls with_calls orig orig_eof copy] in Ho, He, Hc.
  rewrite unechoed_marked, Hu1, Hc1 in Hc.
  rewrite Ho, He. repeat split; assumption.
Qed.

(** The datagram engine without loss: the copy is the file. *)
Lemma datagram_round_trip (contents : list byte) (chunk_size times : Z)
    (f : bool) :
  0 < chunk_size -> 0 < times ->
  longest_batch contents chunk_size times <= INT_MAX ->
  exists p,
    datagram_process_file net srv srv_len contents chunk_size times f start
    = (Ok tt, p) /\
    copy p = contents.
Proof.
  intros Hcs Ht Hfit. unfold datagram_process_file.
  rewrite (bind_ok _ _ _ _ _ (fopen_both_run contents)).
  destruct (echo_loop contents chunk_size times
              (datagram_turn net srv srv_len chunk_size times f)
              (fun p => unechoed (calls p)) Hcs Ht Hfit
              (datagram_turn_echoes chunk_size times f)
              (opened contents) eq_refl eq_refl eq_refl eq_refl)
    as (c & p1 & Hloop & Hall & Hbytes & Hzero).
  unfold datagram_loop. rewrite (bind_ok _ _ _ _ _ Hloop).
  unfold datagram_flush. destruct (Z.eqb_spec (count c) 0) as [E|E]; cbn [negb].
  - exists p1. split; [reflexivity|].
    rewrite (Hzero E), app_nil_r in Hall. exact Hall.
  - rewrite (bind_ok _ _ _ _ _ (call_mark_run f p1)).
    destruct (recv_write_echo (bytes_sent c)
                (with_calls (marked f (calls p1)) p1))
      as (p2 & Hrun & _ & _ & Hc & _).
    { cbn [calls with_calls]. now rewrite unechoed_marked. }
    exists p2. split; [exact Hrun|].
    cbn [calls with_calls copy] in Hc. now rewrite unechoed_marked, Hall in Hc.
Qed.

End DatagramRoundTrip.

Section StreamRoundTrip.
Variable net : network.
Hypothesis no_loss : stream_no_loss net.

(** Without loss, the loop of [read_write] collects all the bytes that
    are outstanding. *)
Lemma read_loop_echo (n_sent : Z) (fuel : nat) :
  forall (out : list byte) (n_read : Z) (p : proc),
    n_read = Z.of_nat (length out) ->
    n_sent = n_read + Z.of_nat (length (inflight (calls p))) ->
    (length (inflight (calls p)) <= fuel)%nat ->
    exists h,
      read_loop net fuel n_sent out n_read p
      = (Ok (Some (out ++ inflight (calls p), n_sent)), with_calls h p) /\
      inflight h = [].
Proof.
  induction fuel as [|fuel IH]; intros out n_read p Hout Hn Hfuel.
  - assert (Hnil : inflight (calls p) = [])
      by (apply length_zero_iff_nil; lia).
    rewrite Hnil in *. cbn [length] in Hn. exists (calls p).
    cbn [read_loop]. destruct (Z.gtb_spec n_sent n_read) as [|_]; [lia|].
    rewrite app_nil_r. replace n_read with n_sent by lia.
    destruct p. split; [reflexivity | exact Hnil].
  - destruct (inflight (calls p)) as [|x rest] eqn:Hin.
    + cbn [length] in Hn. exists (calls p).
      cbn [read_loop]. destruct (Z.gtb_spec n_sent n_read) as [|_]; [lia|].
      rewrite app_nil_r. replace n_read with n_sent by lia.
      destruct p. split; [reflexivity | exact Hin].
    + rewrite read_loop_step by (cbn [length] in Hn; lia).
      set (n := n_sent - n_read).
      destruct (proj2 (no_loss (calls p)) n) as (data & tl & Hread & Hdata & Hsplit).
      { rewrite Hin. discriminate. }
      unfold read_result. rewrite Hread.
      set (d := firstn (Z.to_nat n) data).
      assert (Hd : exists tl', inflight (calls p) = d ++ tl' /\ d <> []).
      { exists (skipn (Z.to_nat n) data ++ tl). split.
        - rewrite Hsplit, app_assoc. unfold d. now rewrite firstn_skipn.
        - unfold d. destruct data as [|y data]; [contradiction|].
          assert (0 < n) by (subst n; cbn [length] in Hn; lia).
          destruct (Z.to_nat n) eqn:En; [lia | discriminate]. }
      destruct Hd as (tl' & Htl & Hdne).
      destruct (Z.leb_spec (Z.of_nat (length d)) 0) as [Hz|_].
      { destruct d; [contradiction | cbn [length] in Hz; lia]. }
      set (p1 := with_calls (Read n (ReadBytes d) :: calls p) p).
      assert (Hin1 : inflight (calls p1) = tl').
      { cbn. rewrite Htl, skipn_app, skipn_all, Nat.sub_diag. reflexivity. }
      destruct (IH (out ++ d) (n_read + Z.of_nat (length d)) p1) as (h & Hrun & Hh).
      * rewrite length_app. lia.
      * rewrite Hin1. rewrite Hin in Htl. rewrite Htl, length_app in Hn. lia.
      * rewrite Hin1. rewrite Hin in Htl.
        assert (length (x :: rest) = length (d ++ tl')) by now rewrite Htl.
        rewrite length_app in *. cbn [length] in *.
        destruct d; [contradiction | cbn [length] in *; lia].
      * exists h. split; [|exact Hh].
        rewrite Hrun, Hin1. rewrite Hin in Htl.
        rewrite Htl, <- app_assoc. reflexivity.
Qed.

Lemma read_write_echo (n_sent : Z) (p : proc) :
  n_sent = Z.of_nat (length (inflight (calls p))) ->
  exists p',
    read_write net n_sent p = (Ok tt, p') /\
    orig p' = orig p /\ orig_eof p' = orig_eof p /\
    copy p' = copy p ++ inflight (calls p) /\
    inflight (calls p') = [].
Proof.
  intros Hn.
  destruct (read_loop_echo n_sent (Z.to_nat n_sent) [] 0 p eq_refl)
    as (h & Hrun & Hh); [lia | lia |].
  unfold read_write. rewrite (bind_ok _ _ _ _ _ Hrun).
  unfold assert. rewrite Z.eqb_refl. cbn [app].
  eexists. split; [reflexivity|]. cbn.
  rewrite Hn, Nat2Z.id, firstn_all. repeat split. exact Hh.
Qed.

Lemma stream_turn_echoes (chunk_size times : Z) (f : bool) (c : counters)
    (p : proc) :
  let buf := firstn (Z.to_nat chunk_size) (orig p) in
  let b := Z.of_nat (length buf) in
  bytes_sent c = Z.of_nat (length (inflight (calls p))) ->
  bytes_sent c + b <= INT_MAX ->
  exists p',
    stream_turn net chunk_size times f c p
    = (Ok (after_checkpoint times (after_chunk b c)), p') /\
    orig p' = orig (after_fread chunk_size p) /\
    orig_eof p' = orig_eof (after_fread chunk_size p) /\
    (if count (after_chunk b c) =? times
     then copy p' = copy p ++ inflight (calls p) ++ buf /\
          inflight (calls p') = []
     else copy p' = copy p /\
          inflight (calls p') = inflight (calls p) ++ buf).
Proof.
  intros buf b Hbytes Hfit. unfold stream_turn.
  rewrite (bind_ok _ _ _ _ _
             (stream_send_chunk_run net chunk_size c p
                (proj1 (no_loss (calls p)) _))).
  fold buf b. set (p1 := if 0 <? b then _ else _).
  assert (Hp1 : orig p1 = orig (after_fread chunk_size p) /\
                orig_eof p1 = orig_eof (after_fread chunk_size p) /\
                copy p1 = copy p /\
                inflight (calls p1) = inflight (calls p) ++ buf).
  { subst p1. destruct (Z.ltb_spec 0 b) as [Hb|Hb]; repeat split.
    - cbn. unfold b. now rewrite Nat2Z.id, firstn_all.
    - assert (Hnil : buf = []) by (apply length_zero_iff_nil; lia).
      cbn. now rewrite Hnil, app_nil_r. }
  destruct Hp1 as (Ho1 & He1 & Hc1 & Hu1).
  assert (Hsent : bytes_sent (after_chunk b c)
                  = Z.of_nat (length (inflight (calls p1)))).
  { rewrite Hu1, length_app. unfold after_chunk.
    destruct (Z.ltb_spec 0 b) as [Hb|Hb]; cbn [bytes_sent].
    - rewrite to_int_small; unfold INT_MAX in *; lia.
    - lia. }
  unfold stream_checkpoint, after_checkpoint.
  destruct (count (after_chunk b c) =? times); [|now exists p1].
  rewrite (bind_ok _ _ _ _ _ (call_mark_run f p1)).
  destruct (read_write_echo (bytes_sent (after_chunk b c))
              (with_calls (marked f (calls p1)) p1))
    as (p2 & Hrun & Ho & He & Hc & Hu).
  { cbn [calls with_calls]. now rewrite inflight_marked. }
  rewrite (bind_ok _ _ _ _ _ Hrun). exists p2. split; [reflexivity|].
  cbn [calls with_calls orig orig_eof copy] in Ho, He, Hc.
  rewrite inflight_marked, Hu1, Hc1 in Hc.
  rewrite Ho, He. repeat split; assumption.
Qed.

(** The stream engine without loss: the copy is the file. *)
Lemma stream_round_trip (contents : list byte) (chunk_size times : Z)
    (f : bool) :
  0 < chunk_size -> 0 < times ->
  longest_batch contents chunk_size times <= INT_MAX ->
  exists p,
    stream_process_file net contents chunk_size times f start = (Ok tt, p) /\
    copy p = contents.
Proof.
  intros Hcs Ht Hfit. unfold stream_process_file.
  rewrite (bind_ok _ _ _ _ _ (fopen_both_run contents)).
  destruct (echo_loop contents chunk_size times
              (stream_turn net chunk_size times f)
              (fun p => inflight (calls p)) Hcs Ht Hfit
              (stream_turn_echoes chunk_size times f)
              (opened contents) eq_refl eq_refl eq_refl eq_refl)
    as (c & p1 & Hloop & Hall & Hbytes & Hzero).
  unfold stream_loop. rewrite (bind_ok _ _ _ _ _ Hloop).
  unfold stream_flush. destruct (Z.eqb_spec (count c) 0) as [E|E]; cbn [negb].
  - exists p1. split; [reflexivity|].
    rewrite (Hzero E), app_nil_r in Hall. exact Hall.
  - rewrite (bind_ok _ _ _ _ _ (call_mark_run f p1)).
    destruct (read_write_echo (bytes_sent c)
                (with_calls (marked f (calls p1)) p1))
      as (p2 & Hrun & _ & _ & Hc & _).
    { cbn [calls with_calls]. now rewrite inflight_marked. }
    exists p2. split; [exact Hrun|].
    cbn [calls with_calls copy] in Hc. now rewrite inflight_marked, Hall in Hc.
Qed.

End StreamRoundTrip.

(** X1. Round trip under no loss, where [bytes_sent] can count the batches:
    for every file, every positive chunk size and every positive
    checkpoint interval such that no batch is longer than [INT_MAX] bytes,
    if the network loses nothing, both engines return normally and the
    copy they leave is the file, byte for byte. *)
Theorem round_trip_no_loss {P : Platform} (net : network) (srv : sockaddr)
    (srv_len : Z) (contents : list byte) (chunk_size times : Z) (f : bool) :
  0 < chunk_size -> 0 < times ->
  longest_batch contents chunk_size times <= INT_MAX ->
  (datagram_no_loss net srv srv_len ->
   exists p,
     datagram_process_file net srv srv_len contents chunk_size times f start
     = (Ok tt, p) /\
     copy p = contents) /\
  (stream_no_loss net ->
   exists p,
     stream_process_file net contents chunk_size times f start = (Ok tt, p) /\
     copy p = contents).
Proof.
  intros Hcs Ht Hfit. split; intros Hnet.
  - now apply datagram_round_trip.
  - now apply stream_round_trip.
Qed.

(** ** A batch too long for [bytes_sent]

    The engines add [bytes_read], a [size_t], to [bytes_sent], an [int]:
    past [INT_MAX] the sum does not fit and what the counter holds is the
    sum modulo 2^32.  The receivers are then asked for that many bytes,
    not for the bytes of the batch. *)

Section LongBatch.
Variable net : network.

(** [read_write] asked for a negative count: the loop is skipped and the
    assertion [n_read == n_sent] fails.  (In C the [alloca] of that count
    comes first; its argument is a [size_t], so the request is one no
    stack can meet, and the process may die there, of a signal, before
    it reaches the assertion.  Either way it does not return.) *)
Lemma read_write_negative (n_sent : Z) (p : proc) :
  n_sent < 0 -> read_write net n_sent p = (AssertFailed, p).
Proof.
  intros Hneg. unfold read_write.
  assert (Hloop : read_loop net (Z.to_nat n_sent) n_sent [] 0 p
                  = (Ok (Some ([], 0)), p)).
  { destruct (Z.to_nat n_sent); cbn [read_loop];
      destruct (Z.gtb_spec n_sent 0); (lia || reflexivity). }
  rewrite (bind_ok _ _ _ _ _ Hloop). unfold assert.
  destruct (Z.eqb_spec 0 n_sent); [lia | reflexivity].
Qed.

(** A file one byte longer than [INT_MAX], sent in two chunks that make
    one batch: [bytes_sent] wraps around and the receive that follows
    fails its assertion. *)
Lemma stream_batch_too_long (contents : list byte) (chunk_size : Z) (f : bool) :
  stream_no_loss net ->
  chunk_size = INT_MAX ->
  Z.of_nat (length contents) = chunk_size + 1 ->
  fst (stream_process_file net contents chunk_size 2 f start) = AssertFailed.
Proof.
  intros Hnet Hcs Hlen. unfold stream_process_file.
  rewrite (bind_ok _ _ _ _ _ (fopen_both_run contents)).
  apply bind_fst_assert_failed.
  unfold stream_loop. cbn [do_while_not_feof].
  set (n := Z.to_nat chunk_size).
  pose proof (length_firstn n contents) as Hb1.
  pose proof (length_firstn_skipn n contents) as Hsplit.
  assert (Hn : Z.of_nat n = chunk_size) by (unfold INT_MAX in Hcs; subst n; lia).
  (* the first turn: a whole chunk, no checkpoint *)
  assert (Hturn1 : stream_turn net chunk_size 2 f zero_counters (opened contents)
                   = (Ok {| count := 1; bytes_sent := chunk_size |},
                      with_calls [Write (firstn n contents) chunk_size]
                        (after_fread chunk_size (opened contents)))).
  { unfold stream_turn.
    rewrite (bind_ok _ _ _ _ _
               (stream_send_chunk_run net chunk_size zero_counters
                  (opened contents) (proj1 (Hnet _) _))).
    cbn [orig opened calls]. fold n.
    replace (Z.of_nat (length (firstn n contents))) with chunk_size by lia.
    unfold after_chunk. destruct (Z.ltb_spec 0 chunk_size) as [_|];
      [|unfold INT_MAX in Hcs; lia].
    cbn [count bytes_sent zero_counters].
    rewrite !to_int_small by (unfold INT_MAX in *; lia).
    unfold stream_checkpoint. cbn [count].
    destruct (Z.eqb_spec (0 + 1) 2); [lia | reflexivity]. }
  rewrite (bind_ok _ _ _ _ _ Hturn1).
  set (p1 := with_calls _ _).
  assert (Heof1 : orig_eof p1 = false).
  { subst p1. cbn [orig_eof with_calls after_fread opened orig orb]. fold n.
    apply Nat.ltb_ge. lia. }
  rewrite (bind_ok _ _ _ _ _ (feof_run p1)), Heof1.
  (* the second turn: the last byte, and the checkpoint *)
  destruct (length contents) as [|m] eqn:Hm; [lia|].
  cbn [do_while_not_feof]. apply bind_fst_assert_failed.
  assert (Hturn2 : fst (stream_turn net chunk_size 2 f
                          {| count := 1; bytes_sent := chunk_size |} p1)
                   = AssertFailed).
  { unfold stream_turn.
    rewrite (bind_ok _ _ _ _ _
               (stream_send_chunk_run net chunk_size _ p1 (proj1 (Hnet _) _))).
    assert (Hb2 : Z.of_nat (length (firstn (Z.to_nat chunk_size) (orig p1))) = 1).
    { subst p1. cbn [orig with_calls after_fread opened]. fold n.
      rewrite length_firstn. unfold INT_MAX in Hcs. lia. }
    rewrite Hb2. cbn [Z.ltb Z.compare]. unfold after_chunk.
    cbn [Z.ltb Z.compare count bytes_sent].
    rewrite (to_int_small (1 + 1)) by (unfold INT_MAX; lia).
    unfold stream_checkpoint. cbn [count bytes_sent Z.add Pos.add Z.eqb Pos.eqb].
    rewrite (bind_ok _ _ _ _ _ (call_mark_run f _)).
    assert (Hwrap : to_int (chunk_size + 1) < 0) by now rewrite Hcs.
    now rewrite (bind_assert_failed _ _ _ _ (read_write_negative _ _ Hwrap)). }
  exact Hturn2.
Qed.

End LongBatch.

(** When the counter comes round to a count that is not negative, the
    checkpoint reads that many bytes and is content with them. *)

Lemma to_int_add (a b : Z) : to_int (to_int a + b) = to_int (a + b).
Proof.
  unfold to_int.
  replace ((a + 2147483648) mod 4294967296 - 2147483648 + b + 2147483648)
    with ((a + 2147483648) mod 4294967296 + b) by lia.
  rewrite Zplus_mod_idemp_l. f_equal. f_equal. lia.
Qed.

Lemma firstn_app_firstn {A : Type} (n : nat) (d rest : list A) :
  (length d <= n)%nat ->
  firstn n (d ++ rest) = d ++ firstn (n - length d) rest.
Proof.
  intros H. rewrite firstn_app, firstn_all2 by exact H. reflexivity.
Qed.

Section CutBatch.
Context {P : Platform}.
Variable net : network.
Hypothesis no_loss : stream_no_loss net.

(** Without loss, the loop of [read_write] collects as many of the
    outstanding bytes as it is asked for, the oldest first, and leaves the
    others where they are. *)
Lemma read_loop_takes (n_sent : Z) (fuel : nat) :
  forall (out : list byte) (n_read : Z) (p : proc),
    n_read = Z.of_nat (length out) ->
    n_read <= n_sent ->
    n_sent - n_read <= Z.of_nat (length (inflight (calls p))) ->
    (Z.to_nat (n_sent - n_read) <= fuel)%nat ->
    exists h,
      read_loop net fuel n_sent out n_read p
      = (Ok (Some (out ++ firstn (Z.to_nat (n_sent - n_read))
                            (inflight (calls p)), n_sent)),
         with_calls h p).
Proof.
  induction fuel as [|fuel IH]; intros out n_read p Hout Hle Hin Hfuel.
  - assert (n_sent = n_read) by lia. subst n_sent.
    rewrite Z.sub_diag. cbn [Z.to_nat firstn read_loop].
    destruct (Z.gtb_spec n_read n_read) as [|_]; [lia|].
    rewrite app_nil_r. exists (calls p). destruct p. reflexivity.
  - destruct (Z.eq_dec n_sent n_read) as [->|Hne].
    + rewrite Z.sub_diag. cbn [Z.to_nat firstn read_loop].
      destruct (Z.gtb_spec n_read n_read) as [|_]; [lia|].
      rewrite app_nil_r. exists (calls p). destruct p. reflexivity.
    + rewrite read_loop_step by lia.
      set (n := n_sent - n_read) in *.
      destruct (proj2 (no_loss (calls p)) n) as (data & tl & Hread & Hdata & Hsplit).
      { intros E. rewrite E in Hin. cbn [length] in Hin. lia. }
      unfold read_result. rewrite Hread.
      set (d := firstn (Z.to_nat n) data).
      assert (Hd : inflight (calls p) = d ++ skipn (Z.to_nat n) data ++ tl).
      { rewrite Hsplit, app_assoc. unfold d. now rewrite firstn_skipn. }
      assert (Hdlen : (0 < length d <= Z.to_nat n)%nat).
      { unfold d. rewrite length_firstn.
        destruct data as [|y data]; [contradiction|]. cbn [length]. lia. }
      destruct (Z.leb_spec (Z.of_nat (length d)) 0) as [Hz|_]; [lia|].
      set (p1 := with_calls (Read n (ReadBytes d) :: calls p) p).
      assert (Hin1 : inflight (calls p1) = skipn (Z.to_nat n) data ++ tl).
      { cbn. rewrite Hd, skipn_app, skipn_all, Nat.sub_diag. reflexivity. }
      destruct (IH (out ++ d) (n_read + Z.of_nat (length d)) p1) as (h & Hrun).
      * rewrite length_app. lia.
      * lia.
      * rewrite Hin1. rewrite Hd, length_app in Hin. lia.
      * lia.
      * exists h. rewrite Hrun. f_equal. f_equal. f_equal.
        rewrite Hin1, Hd, <- app_assoc. f_equal.
        rewrite (firstn_app_firstn (Z.to_nat n) d) by lia.
        do 3 f_equal. unfold n. lia.
Qed.

(** [read_write] asked for fewer bytes than are outstanding: its
    assertion holds, nothing goes to the standard error stream, and the
    copy grows by the bytes asked for and no more. *)
Lemma read_write_takes (n_sent : Z) (p : proc) :
  0 <= n_sent <= Z.of_nat (length (inflight (calls p))) ->
  exists p',
    read_write net n_sent p = (Ok tt, p') /\
    orig p' = orig p /\ orig_eof p' = orig_eof p /\
    stderr p' = stderr p /\
    copy p' = copy p ++ firstn (Z.to_nat n_sent) (inflight (calls p)).
Proof.
  intros Hn.
  destruct (read_loop_takes n_sent (Z.to_nat n_sent) [] 0 p eq_refl)
    as (h & Hrun); [lia | lia | lia |].
  unfold read_write. rewrite (bind_ok _ _ _ _ _ Hrun).
  unfold assert. rewrite Z.eqb_refl. cbn [app].
  eexists. split; [reflexivity|]. cbn.
  rewrite Z.sub_0_r, firstn_firstn, Nat.min_id. repeat split.
Qed.

End CutBatch.

Section OneBatch.
Context {P : Platform}.
Variable net : network.
Hypothesis no_loss : stream_no_loss net.
Variables (contents : list byte) (chunk_size times : Z) (f : bool).

(** The file is one batch long: it has [times] chunks, so that the one
    checkpoint of the run is the one its last chunk completes; and
    [bytes_sent] is not negative then. *)
Hypothesis chunk_size_pos : 0 < chunk_size.
Hypothesis times_int : 0 < times <= INT_MAX.
Hypothesis one_batch :
  chunk_size * (times - 1) < Z.of_nat (length contents) <= chunk_size * times.
Hypothesis counted : 0 <= to_int (Z.of_nat (length contents)).

Lemma to_int_le (z : Z) : 0 <= z -> to_int z <= z.
Proof.
  intros Hz. unfold to_int.
  pose proof (Z.mod_le (z + 2147483648) 4294967296). lia.
Qed.

(** A turn of the loop keeps [one_batch_inv]: a whole chunk goes out
    and the counter moves modulo 2^32, or the last chunk goes out and the
    checkpoint reads what the counter says, or the file is at its end. *)
Lemma one_batch_turn (c : counters) (p : proc) :
  let kept := firstn (Z.to_nat (to_int (Z.of_nat (length contents)))) contents in
  one_batch_inv contents kept chunk_size times c p -> orig_eof p = false ->
  exists c' p',
    stream_turn net chunk_size times f c p = (Ok c', p') /\
    one_batch_inv contents kept chunk_size times c' p' /\
    (orig_eof p' = false -> (length (orig p') < length (orig p))%nat).
Proof.
  set (len := Z.of_nat (length contents)) in *.
  intros kept Hinv Heof. unfold stream_turn.
  rewrite (bind_ok _ _ _ _ _
             (stream_send_chunk_run net chunk_size c p
                (proj1 (no_loss (calls p)) _))).
  set (n := Z.to_nat chunk_size).
  pose proof (length_firstn n (orig p)) as Hfirst.
  pose proof (length_skipn n (orig p)) as Hskip.
  set (buf := firstn n (orig p)) in *.
  set (b := Z.of_nat (length buf)) in *.
  destruct Hinv as [Herr [(_ & Hcopy & Hall & Hcount & Hlen & Hbytes)
                         |(-> & Horig & Hcopy)]].
  - (* the batch is still being sent *)
    assert (Hsum : Z.of_nat (length (inflight (calls p)))
                   + Z.of_nat (length (orig p)) = len).
    { unfold len. rewrite <- Hall, length_app. lia. }
    assert (Hb : 0 < b) by (subst b n; nia).
    destruct (Z.ltb_spec 0 b) as [_|]; [|lia].
    set (p1 := with_calls (Write buf b :: calls p) (after_fread chunk_size p)).
    assert (Hin1 : inflight (calls p1) = inflight (calls p) ++ buf).
    { cbn. unfold b. now rewrite Nat2Z.id, firstn_all. }
    unfold after_chunk. destruct (Z.ltb_spec 0 b) as [_|]; [|lia].
    unfold stream_checkpoint. cbn [count bytes_sent].
    rewrite (to_int_small (count c + 1)) by (unfold INT_MAX in *; lia).
    rewrite Hbytes, to_int_add.
    destruct (Z.eqb_spec (count c + 1) times) as [E|E].
    + (* the last chunk of the batch, and its checkpoint *)
      assert (Hrest : skipn n (orig p) = []).
      { apply length_zero_iff_nil. subst n. nia. }
      assert (Hbuf : buf = orig p).
      { unfold buf. rewrite <- (firstn_skipn n (orig p)) at 2.
        now rewrite Hrest, app_nil_r. }
      assert (Hsent : count c * chunk_size + b = len).
      { unfold b. rewrite Hbuf. lia. }
      rewrite Hsent.
      rewrite (bind_ok _ _ _ _ _ (call_mark_run f p1)).
      destruct (read_write_takes net no_loss (to_int len)
                  (with_calls (marked f (calls p1)) p1))
        as (p2 & Hrun & Ho & He & Hs & Hc).
      { cbn [calls with_calls]. rewrite inflight_marked, Hin1, Hbuf, Hall.
        fold len. split; [exact counted|]. apply to_int_le. unfold len. lia. }
      rewrite (bind_ok _ _ _ _ _ Hrun).
      exists zero_counters, p2. split; [reflexivity|].
      cbn [calls with_calls orig orig_eof copy] in Ho, He, Hc.
      unfold p1 in Ho at 1. unfold p1 in Hc at 1.
      cbn [with_calls orig copy after_fread] in Ho, Hc.
      fold n in Ho. rewrite Hrest in Ho.
      split.
      * split; [now rewrite Hs|].
        right. split; [reflexivity|]. split; [exact Ho|].
        rewrite Hc, Hcopy, inflight_marked, Hin1, Hbuf, Hall. reflexivity.
      * intros _. rewrite Ho. cbn [length].
        assert (0 < length (orig p))%nat by (rewrite <- Hbuf; lia). lia.
    + (* a whole chunk, and no checkpoint yet *)
      assert (Hwhole : b = chunk_size) by (subst b n; nia).
      exists {| count := count c + 1;
                bytes_sent := to_int (count c * chunk_size + b) |}, p1.
      split; [reflexivity|]. split.
      * split; [exact Herr|]. left. cbn [count bytes_sent].
        assert (Ho1 : orig p1 = skipn n (orig p)) by reflexivity.
        assert (He1 : orig_eof p1
                      = orig_eof p || (length buf <? n)%nat) by reflexivity.
        assert (Hc1 : copy p1 = copy p) by reflexivity.
        split; [|split; [|split; [|split; [|split]]]].
        -- rewrite He1, Heof. cbn [orb]. apply Nat.ltb_ge. subst b n. lia.
        -- now rewrite Hc1.
        -- rewrite Hin1, Ho1, <- app_assoc. unfold buf.
           now rewrite firstn_skipn.
        -- lia.
        -- rewrite Hin1, length_app. fold b. lia.
        -- f_equal. lia.
      * intros _. subst p1. cbn [orig with_calls after_fread]. fold n.
        subst b n. lia.
  - (* the file is at its end *)
    assert (Hb : b = 0).
    { unfold b. rewrite Hfirst, Horig. cbn [length]. lia. }
    rewrite Hb. cbn [Z.ltb Z.compare].
    unfold after_chunk. cbn [Z.ltb Z.compare].
    unfold stream_checkpoint. cbn [count zero_counters].
    destruct (Z.eqb_spec 0 times) as [|_]; [lia|].
    eexists _, _. split; [reflexivity|]. split.
    + split; [exact Herr|].
      right. cbn [orig copy after_fread]. rewrite Horig, skipn_nil.
      repeat split. exact Hcopy.
    + cbn [orig_eof after_fread]. rewrite Horig, firstn_nil. cbn [length].
      assert (H : (0 <? Z.to_nat chunk_size)%nat = true)
        by (apply Nat.ltb_lt; lia).
      rewrite H, orb_true_r. discriminate.
Qed.

(** The run of [stream_process_file] on a file that is one batch long:
    it returns, no read has failed, and the copy is as many of the first
    bytes of the file as [bytes_sent] held at the checkpoint. *)
Lemma stream_one_batch :
  exists p,
    stream_process_file net contents chunk_size times f start = (Ok tt, p) /\
    copy p = firstn (Z.to_nat (to_int (Z.of_nat (length contents)))) contents /\
    stderr p = ""%string.
Proof.
  unfold stream_process_file.
  rewrite (bind_ok _ _ _ _ _ (fopen_both_run contents)).
  destruct (do_while_total (stream_turn net chunk_size times f)
              (one_batch_inv contents _ chunk_size times) one_batch_turn
              (S (length contents)) zero_counters (opened contents))
    as (c & p1 & Hloop & Hinv & Heof).
  - split; [reflexivity|]. left. cbn. repeat split; lia.
  - reflexivity.
  - cbn. lia.
  - unfold stream_loop. fold zero_counters. rewrite (bind_ok _ _ _ _ _ Hloop).
    destruct Hinv as [Herr [(Heof' & _)|(-> & _ & Hcopy)]]; [congruence|].
    exists p1. split; [reflexivity|]. split; [exact Hcopy | exact Herr].
Qed.

End OneBatch.


(** * More properties *)

Lemma skipn_app_length {A : Type} (a b : list A) : skipn (length a) (a ++ b) = b.
Proof. induction a; cbn; auto. Qed.

Lemma append_length (a b : string) :
  String.length (a ++ b) = (String.length a + String.length b)%nat.
Proof. induction a as [|c a IH]; cbn; [reflexivity | now rewrite IH]. Qed.

Lemma append_not_self (a b : string) : b <> ""%string -> (a ++ b)%string <> a.
Proof.
  intros Hb E. apply (f_equal String.length) in E.
  rewrite append_length in E. destruct b; [contradiction | cbn in E; lia].
Qed.

(** ** More on comparing addresses *)

Lemma bytes_eqb_sym (a b : list byte) : bytes_eqb a b = bytes_eqb b a.
Proof.
  destruct (bytes_eqb a b) eqn:E.
  - apply bytes_eqb_eq in E. subst. symmetry. now apply bytes_eqb_eq.
  - destruct (bytes_eqb b a) eqn:E'; [|reflexivity].
    apply bytes_eqb_eq in E'. subst.
    assert (bytes_eqb a a = true) by now apply bytes_eqb_eq. congruence.
Qed.

Section MoreOnAddresses.
Context {P : Platform}.

Lemma xid_memcmp_eq_sym (x y : xia_xid) : xid_memcmp_eq x y = xid_memcmp_eq y x.
Proof.
  unfold xid_memcmp_eq. now rewrite Z.eqb_sym, bytes_eqb_sym.
Qed.

(** X2. Flat addresses.  Two [AF_INET] addresses match exactly when their
    lengths are equal and so are their first [addr_len] bytes: the whole
    image counts, the padding as the port and the address; and with a
    length of zero any two match. *)
Theorem address_match_inet (a b : sockaddr) (la lb : Z) :
  sa_family a = AF_INET -> sa_family b = AF_INET ->
  (address_match a la b lb = Ok true <->
   la = lb /\
   firstn (Z.to_nat la) (sa_bytes a) = firstn (Z.to_nat la) (sa_bytes b)) /\
  (address_match a la b lb = Ok false <->
   la <> lb \/
   firstn (Z.to_nat la) (sa_bytes a) <> firstn (Z.to_nat la) (sa_bytes b)) /\
  (la <= 0 -> lb = la -> address_match a la b lb = Ok true).
Proof.
  intros Ha Hb.
  assert (E : address_match a la b lb
              = Ok ((la =? lb) && memcmp_eq (sa_bytes a) (sa_bytes b) la)).
  { unfold address_match. now rewrite Ha, Hb, !Z.eqb_refl. }
  rewrite E. unfold memcmp_eq.
  pose proof (bytes_eqb_eq (firstn (Z.to_nat la) (sa_bytes a))
                (firstn (Z.to_nat la) (sa_bytes b))) as Hb'.
  destruct (Z.eqb_spec la lb) as [Hl|Hl];
    destruct (bytes_eqb _ _) eqn:Hm; cbn [andb].
  - split; [|split]; [tauto| |reflexivity].
    split; [discriminate|]. intros [H|H]; [contradiction|].
    exfalso. apply H. now apply Hb'.
  - split; [|split].
    + split; [discriminate|]. intros [_ H]. apply Hb' in H. discriminate.
    + split; [|reflexivity]. intros _. right. intros H. apply Hb' in H.
      discriminate.
    + intros Hz _. exfalso.
      replace (Z.to_nat la) with O in Hm by lia. discriminate.
  - split; [|split]; [| |congruence].
    + split; [discriminate | tauto].
    + split; [now left | reflexivity].
  - split; [|split]; [| |congruence].
    + split; [discriminate | tauto].
    + split; [now left | reflexivity].
Qed.

Lemma has_effective_row (a : sockaddr) :
  (0 < count_rows a)%nat <-> exists n, effective_length a (S n).
Proof.
  split.
  - intros H. exists (count_rows a - 1)%nat.
    apply count_rows_effective_length. lia.
  - intros [n H]. apply count_rows_effective_length in H. lia.
Qed.

Lemma address_match_returns (a b : sockaddr) (la lb : Z) :
  (exists r, address_match a la b lb = Ok r) <->
  sa_family a = sa_family b /\
  (sa_family a = AF_INET \/
   sa_family a = AF_XIA /\ (0 < count_rows a)%nat /\ (0 < count_rows b)%nat).
Proof.
  unfold address_match.
  destruct (Z.eqb_spec (sa_family a) (sa_family b)) as [Hf|Hf]; cbn [negb];
    [|split; [intros [r E]; discriminate | intros [E _]; contradiction]].
  destruct (Z.eqb_spec (sa_family a) AF_INET) as [Hi|Hi].
  - split; [intros _; split; [exact Hf | now left] | intros _; now eexists].
  - destruct (Z.eqb_spec (sa_family a) AF_XIA) as [Hx|Hx].
    + destruct (Nat.ltb_spec 0 (count_rows a));
        destruct (Nat.ltb_spec 0 (count_rows b)); cbn [andb negb].
      * split; [intros _; split; [exact Hf | right; now repeat split]|].
        intros _. now eexists.
      * split; [intros [r E]; discriminate|].
        intros [_ [E|(_ & _ & E)]]; [contradiction | lia].
      * split; [intros [r E]; discriminate|].
        intros [_ [E|(_ & E & _)]]; [contradiction | lia].
      * split; [intros [r E]; discriminate|].
        intros [_ [E|(_ & E & _)]]; [contradiction | lia].
    + split; [intros [r E]; discriminate|].
      intros [_ [E|(E & _)]]; contradiction.
Qed.

(** X3. When [address_match] answers.  It returns a boolean exactly when
    the two families are equal and either they are [AF_INET] or they are
    [AF_XIA] and both addresses have an effective row, a first row that
    is not the sentinel; in every other case, a family it does not know
    among them, an assertion fails. *)
Theorem address_match_answers (a b : sockaddr) (la lb : Z) :
  ((exists r, address_match a la b lb = Ok r) <->
   sa_family a = sa_family b /\
   (sa_family a = AF_INET \/
    sa_family a = AF_XIA /\
    (exists n, effective_length a (S n)) /\
    (exists m, effective_length b (S m)))) /\
  ((forall r, address_match a la b lb <> Ok r) ->
   address_match a la b lb = AssertFailed).
Proof.
  split.
  - rewrite address_match_returns, !has_effective_row. reflexivity.
  - intros Hno. destruct (address_match_cases a la b lb) as [E|[E|E]];
      [now apply Hno in E | now apply Hno in E | exact E].
Qed.

(** X4. Matching is symmetric and transitive: [address_match] gives the
    same outcome when the address and the expected one change places,
    and when an address matches a second and the second a third, the
    first matches the third. *)
Theorem address_match_equivalence (a b c : sockaddr) (la lb lc : Z) :
  address_match a la b lb = address_match b lb a la /\
  (address_match a la b lb = Ok true ->
   address_match b lb c lc = Ok true ->
   address_match a la c lc = Ok true).
Proof.
  split.
  - unfold address_match. rewrite (Z.eqb_sym (sa_family b) (sa_family a)).
    destruct (Z.eqb_spec (sa_family a) (sa_family b)) as [Hf|Hf]; cbn [negb];
      [|reflexivity].
    rewrite <- Hf.
    destruct (sa_family a =? AF_INET).
    + rewrite (Z.eqb_sym lb la). destruct (Z.eqb_spec la lb) as [->|];
        [|reflexivity].
      cbn [andb]. unfold memcmp_eq. now rewrite bytes_eqb_sym.
    + destruct (sa_family a =? AF_XIA); [|reflexivity].
      rewrite (andb_comm (0 <? count_rows b)%nat).
      destruct (negb _); [reflexivity|]. now rewrite xid_memcmp_eq_sym.
  - unfold address_match.
    destruct (Z.eqb_spec (sa_family a) (sa_family b)) as [Hab|]; cbn [negb];
      [|discriminate].
    destruct (Z.eqb_spec (sa_family b) (sa_family c)) as [Hbc|]; cbn [negb];
      [|intros _ Hd; discriminate Hd].
    rewrite <- Hbc, <- Hab, Z.eqb_refl. cbn [negb].
    destruct (sa_family a =? AF_INET).
    + intros [= H1] [= H2]. f_equal.
      apply andb_true_iff in H1, H2. destruct H1 as [H1 M1], H2 as [H2 M2].
      apply Z.eqb_eq in H1, H2. subst lb lc. rewrite Z.eqb_refl. cbn [andb].
      unfold memcmp_eq in *. apply bytes_eqb_eq in M1, M2.
      apply bytes_eqb_eq. congruence.
    + destruct (sa_family a =? AF_XIA); [|discriminate].
      destruct (0 <? count_rows a)%nat, (0 <? count_rows b)%nat,
        (0 <? count_rows c)%nat; cbn [andb negb]; try discriminate.
      intros [= H1] [= H2]. f_equal.
      apply xid_memcmp_eq_same in H1, H2. apply xid_memcmp_eq_same.
      now apply (same_xid_trans _ _ _ H1).
Qed.

End MoreOnAddresses.

(** ** Failed calls end the run *)

Section EndsAt.
Variable bad : event -> bool.
Variable d : death.

Lemma ends_at_quiet {A : Type} (m : M A) :
  (forall p, clean bad (calls p) -> clean bad (calls (snd (m p)))) ->
  ends_at bad d m.
Proof. intros H p Hp. left. now apply H. Qed.

Lemma ends_at_ret {A : Type} (a : A) : ends_at bad d (ret a).
Proof. now apply ends_at_quiet. Qed.

Lemma ends_at_bind {A B : Type} (m : M A) (k : A -> M B) :
  ends_at bad d m -> (forall a, ends_at bad d (k a)) -> ends_at bad d (bind m k).
Proof.
  intros Hm Hk p Hp. specialize (Hm p Hp). unfold bind.
  destruct (m p) as [[a| | |] p1]; cbn [fst snd] in *.
  - destruct Hm as [Hm|[Hm _]]; [now apply Hk | destruct d; discriminate].
  - destruct Hm as [Hm|[Hd Hm]]; [now left | right].
    split; [|exact Hm]. destruct d; [reflexivity | discriminate].
  - destruct Hm as [Hm|[Hd Hm]]; [now left | right].
    split; [|exact Hm]. destruct d; [discriminate | cbn in *; congruence].
  - destruct Hm as [Hm|[Hm _]]; [now left | destruct d; discriminate].
Qed.

Lemma ends_at_if {A : Type} (b : bool) (m1 m2 : M A) :
  ends_at bad d m1 -> ends_at bad d m2 -> ends_at bad d (if b then m1 else m2).
Proof. now destruct b. Qed.

Lemma ends_at_call_mark (f : bool) : bad Mark = false -> ends_at bad d (call_mark f).
Proof.
  intros H. apply ends_at_quiet. intros p Hp. rewrite call_mark_run.
  destruct f; cbn; [now apply clean_cons | exact Hp].
Qed.

Lemma ends_at_do_while (fuel : nat) (body : counters -> M counters)
    (c : counters) :
  (forall c', ends_at bad d (body c')) ->
  ends_at bad d (do_while_not_feof fuel body c).
Proof.
  intros Hbody. revert c; induction fuel as [|fuel IH]; intros c; simpl.
  - now apply ends_at_quiet.
  - apply ends_at_bind; [apply Hbody|]. intros c'.
    apply ends_at_bind; [now apply ends_at_quiet|]. intros eof.
    apply ends_at_if; [apply ends_at_ret | apply IH].
Qed.

End EndsAt.

Section EndsAtDatagram.
Context {P : Platform}.
Variable net : network.
Variable bad : event -> bool.
Variable d : death.
Variables (srv : sockaddr) (srv_len : Z).

Hypothesis bad_mark : bad Mark = false.
Hypothesis ends_at_send_packet :
  forall buf n, ends_at bad d (send_packet net buf n srv srv_len).
Hypothesis ends_at_recv_write :
  forall n_sent, ends_at bad d (recv_write net srv srv_len n_sent).

Lemma ends_at_datagram_process_file (contents : list byte)
    (chunk_size times : Z) (f : bool) :
  ends_at bad d
    (datagram_process_file net srv srv_len contents chunk_size times f).
Proof.
  unfold datagram_process_file, datagram_flush.
  apply ends_at_bind; [now apply ends_at_quiet|]. intros _.
  apply ends_at_bind.
  - apply ends_at_do_while. intros c.
    unfold datagram_turn, datagram_send_chunk, datagram_checkpoint.
    apply ends_at_bind.
    + apply ends_at_bind; [now apply ends_at_quiet|]. intros buf.
      apply ends_at_if; [|apply ends_at_ret].
      apply ends_at_bind; [apply ends_at_send_packet|]. intros _.
      apply ends_at_ret.
    + intros c1. apply ends_at_if; [|apply ends_at_ret].
      apply ends_at_bind; [now apply ends_at_call_mark|]. intros _.
      apply ends_at_bind; [apply ends_at_recv_write|]. intros _.
      apply ends_at_ret.
  - intros c. apply ends_at_if; [|apply ends_at_ret].
    apply ends_at_bind; [now apply ends_at_call_mark|]. intros _.
    apply ends_at_recv_write.
Qed.

(** A [bad] call met in a run is the run's last call, and the process
    has died. *)
Lemma bad_call_is_last (contents : list byte) (chunk_size times : Z)
    (f : bool) (e : event) :
  let run := datagram_process_file net srv srv_len contents chunk_size
               times f start in
  In e (calls (snd run)) -> bad e = true ->
  fst run = dead d /\ exists h, calls (snd run) = e :: h.
Proof.
  intros run Hin Hbad.
  destruct (ends_at_datagram_process_file contents chunk_size times f start)
    as [Hc|[Hr (e' & h & Hh & He & Hc)]].
  - intros e' [].
  - fold run in Hc. specialize (Hc _ Hin). congruence.
  - fold run in Hr, Hh. split; [exact Hr|]. exists h.
    rewrite Hh in Hin |- *. destruct Hin as [->|Hin]; [reflexivity|].
    specialize (Hc _ Hin). congruence.
Qed.

End EndsAtDatagram.

Section FailedCalls.
Context {P : Platform}.
Variable net : network.

(** The calls [recv_write] makes are a [select] and, at most, a
    [recvfrom] after it. *)
Lemma recv_write_calls (srv : sockaddr) (srv_len n_sent : Z) (p : proc) :
  let rc := net_select net (calls p) in
  let p' := snd (recv_write net srv srv_len n_sent p) in
  calls p' = Select rc :: calls p \/
  exists r, calls p' = Recvfrom n_sent r :: Select rc :: calls p /\ 0 < rc.
Proof.
  unfold recv_write, select, recvfrom, bind, log, ret, assert, lift,
    fprintf_stderr, fwrite.
  set (rc := net_select net (calls p)). cbn.
  destruct (Z.leb_spec 0 rc); cbn; [|now left].
  destruct (Z.eqb_spec rc 0); cbn; [now left|].
  right.
  destruct (net_recvfrom net (Select rc :: calls p)) as [|src len data]; cbn.
  - eexists. split; [reflexivity | lia].
  - destruct (address_match src len srv srv_len) as [[|]| | |]; cbn;
      (eexists; split; [reflexivity | lia]).
Qed.

Lemma send_packet_run (buf : list byte) (n : Z) (dst : sockaddr) (len : Z)
    (p : proc) :
  let data := firstn (Z.to_nat n) buf in
  let rc := net_sendto net (calls p) data dst len in
  let p1 := with_calls (Sendto data dst len rc :: calls p) p in
  send_packet net buf n dst len p =
  if rc <? 0
  then (Exited 1,
        {| orig := orig p1; orig_eof := orig_eof p1; copy := copy p1;
           stderr := String.append (stderr p1) "send_packet: sendto";
           calls := calls p1 |})
  else (Ok tt, p1).
Proof.
  unfold send_packet, sendto, bind, log, ret, exit, lift, fprintf_stderr. cbn.
  destruct (_ <? 0); reflexivity.
Qed.

Lemma ends_at_send_packet_failed (buf : list byte) (n : Z) (dst : sockaddr)
    (len : Z) :
  ends_at failed_send (Exits 1) (send_packet net buf n dst len).
Proof.
  intros p Hp. rewrite send_packet_run. cbv zeta.
  destruct (_ <? 0) eqn:E; cbn [fst snd calls with_calls].
  - right. split; [reflexivity|]. eexists _, _. split; [reflexivity|].
    split; [exact E | exact Hp].
  - left. apply clean_cons; [exact E | exact Hp].
Qed.

Lemma ends_at_send_packet_receive (buf : list byte) (n : Z) (dst : sockaddr)
    (len : Z) :
  ends_at failed_receive Aborts (send_packet net buf n dst len).
Proof.
  apply ends_at_quiet. intros p Hp. rewrite send_packet_run. cbv zeta.
  destruct (_ <? 0); cbn [fst snd calls with_calls];
    (apply clean_cons; [reflexivity | exact Hp]).
Qed.

Lemma ends_at_recv_write_send (srv : sockaddr) (srv_len n_sent : Z) :
  ends_at failed_send (Exits 1) (recv_write net srv srv_len n_sent).
Proof.
  apply ends_at_quiet. intros p Hp.
  destruct (recv_write_calls srv srv_len n_sent p) as [->|(r & -> & _)];
    repeat (apply clean_cons; [reflexivity|]); exact Hp.
Qed.

Lemma ends_at_recv_write_receive (srv : sockaddr) (srv_len n_sent : Z) :
  ends_at failed_receive Aborts (recv_write net srv srv_len n_sent).
Proof.
  intros p Hp.
  unfold recv_write, select, recvfrom, bind, log, ret, assert, lift,
    fprintf_stderr, fwrite.
  set (rc := net_select net (calls p)). cbn.
  destruct (Z.leb_spec 0 rc) as [Hrc|Hrc]; cbn.
  - assert (Hsel : clean failed_receive (Select rc :: calls p)).
    { apply clean_cons; [|exact Hp]. cbn. now apply Z.ltb_ge. }
    destruct (Z.eqb_spec rc 0); cbn; [now left|].
    destruct (net_recvfrom net (Select rc :: calls p)) as [|src len data]; cbn.
    + right. split; [reflexivity|]. eexists _, _. split; [reflexivity|].
      split; [reflexivity | exact Hsel].
    + left.
      destruct (address_match src len srv srv_len) as [[|]| | |]; cbn;
        (apply clean_cons; [reflexivity | exact Hsel]).
  - right. split; [reflexivity|]. eexists _, _. split; [reflexivity|].
    split; [|exact Hp]. cbn. now apply Z.ltb_lt.
Qed.

(** X5. A send that fails ends the process.  [send_packet] reports a
    negative result of [sendto] on the standard error stream and exits
    with status 1, and takes any other result for a success, however few
    bytes went out; in a whole run of [datagram_process_file] a failed
    [sendto] is the last call the process makes. *)
Theorem failed_send_exits (srv : sockaddr) (srv_len : Z) :
  (forall buf n p,
     let data := firstn (Z.to_nat n) buf in
     let rc := net_sendto net (calls p) data srv srv_len in
     let run := send_packet net buf n srv srv_len p in
     calls (snd run) = Sendto data srv srv_len rc :: calls p /\
     (rc < 0 ->
      fst run = Exited 1 /\
      stderr (snd run) = String.append (stderr p) "send_packet: sendto") /\
     (0 <= rc -> fst run = Ok tt /\ stderr (snd run) = stderr p)) /\
  (forall contents chunk_size times f buf dst len rc,
     let run := datagram_process_file net srv srv_len contents chunk_size
                  times f start in
     In (Sendto buf dst len rc) (calls (snd run)) ->
     rc < 0 ->
     fst run = Exited 1 /\
     exists h, calls (snd run) = Sendto buf dst len rc :: h).
Proof.
  split.
  - intros buf n p data rc run. unfold run. rewrite send_packet_run.
    fold data. fold rc.
    destruct (Z.ltb_spec rc 0); cbn [fst snd calls with_calls stderr].
    + split; [reflexivity|]. split; [now intros _ | lia].
    + split; [reflexivity|]. split; [lia | now intros _].
  - intros contents chunk_size times f buf dst len rc run Hin Hrc.
    apply (bad_call_is_last net failed_send (Exits 1) srv srv_len eq_refl
             (fun b n => ends_at_send_packet_failed b n srv srv_len)
             (ends_at_recv_write_send srv srv_len)
             contents chunk_size times f _ Hin).
    cbn. now apply Z.ltb_lt.
Qed.

(** X6. A receive that fails ends the process.  In a whole run of
    [datagram_process_file], on any network, a [select] with a negative
    result or a [recvfrom] that returns an error is the last call the
    process makes, and the process dies of a failed assertion. *)
Theorem failed_receive_aborts (srv : sockaddr) (srv_len : Z)
    (contents : list byte) (chunk_size times : Z) (f : bool) (e : event) :
  let run := datagram_process_file net srv srv_len contents chunk_size
               times f start in
  In e (calls (snd run)) ->
  ((exists rc, e = Select rc /\ rc < 0) \/ (exists n, e = Recvfrom n RecvErr)) ->
  fst run = AssertFailed /\ exists h, calls (snd run) = e :: h.
Proof.
  intros run Hin Hbad.
  apply (bad_call_is_last net failed_receive Aborts srv srv_len eq_refl
           (fun b n => ends_at_send_packet_receive b n srv srv_len)
           (ends_at_recv_write_receive srv srv_len)
           contents chunk_size times f _ Hin).
  destruct Hbad as [(rc & -> & Hrc)|(n & ->)]; cbn; [now apply Z.ltb_lt|].
  reflexivity.
Qed.

End FailedCalls.

(** ** What an engine hands to the socket *)

Lemma snd_bind_ret {A B : Type} (m : M A) (b : B) (p : proc) :
  snd (bind m (fun _ => ret b) p) = snd (m p).
Proof. unfold bind, ret. now destruct (m p) as [[a| | |] p']. Qed.

Section AddsOnly.
Variable ok : event -> bool.

Lemma adds_only_quiet {A : Type} (m : M A) :
  (forall p, calls (snd (m p)) = calls p) -> adds_only ok m.
Proof. intros H p. exists []. split; [apply H | reflexivity]. Qed.

Lemma adds_only_bind {A B : Type} (m : M A) (k : A -> M B) :
  adds_only ok m -> (forall a, adds_only ok (k a)) -> adds_only ok (bind m k).
Proof.
  intros Hm Hk p. destruct (Hm p) as (evs & Hc & Hok). unfold bind.
  destruct (m p) as [[a| | |] p1]; cbn [snd] in *; try (now exists evs).
  destruct (Hk a p1) as (evs' & Hc' & Hok'). exists (evs' ++ evs).
  split; [now rewrite Hc', Hc, app_assoc|].
  rewrite forallb_app, Hok, Hok'. reflexivity.
Qed.

Lemma adds_only_log (e : event) : ok e = true -> adds_only ok (log e).
Proof. intros H p. exists [e]. split; [reflexivity | cbn; now rewrite H]. Qed.

Lemma adds_only_if {A : Type} (b : bool) (m1 m2 : M A) :
  adds_only ok m1 -> adds_only ok m2 -> adds_only ok (if b then m1 else m2).
Proof. now destruct b. Qed.

Lemma adds_only_assert (b : bool) : adds_only ok (assert b).
Proof. destruct b; now apply adds_only_quiet. Qed.

End AddsOnly.

Section Receivers.
Context {P : Platform}.
Variable net : network.
Variable ok : event -> bool.
Hypothesis ok_select : forall rc, ok (Select rc) = true.
Hypothesis ok_recvfrom : forall n r, ok (Recvfrom n r) = true.
Hypothesis ok_read : forall n r, ok (Read n r) = true.

Lemma adds_only_recv_write (srv : sockaddr) (srv_len n_sent : Z) :
  adds_only ok (recv_write net srv srv_len n_sent).
Proof.
  intros p.
  destruct (recv_write_calls net srv srv_len n_sent p) as [->|(r & -> & _)].
  - eexists [_]. split; [reflexivity|]. cbn. now rewrite ok_select.
  - eexists [_; _]. split; [reflexivity|]. cbn.
    now rewrite ok_select, ok_recvfrom.
Qed.

Lemma adds_only_read_loop (fuel : nat) (n_sent : Z) :
  forall out n_read, adds_only ok (read_loop net fuel n_sent out n_read).
Proof.
  induction fuel as [|fuel IH]; intros out n_read; cbn [read_loop];
    (destruct (n_sent >? n_read); [|now apply adds_only_quiet]).
  - now apply adds_only_quiet.
  - apply adds_only_bind.
    + intros p. eexists [_]. split; [reflexivity|]. cbn. now rewrite ok_read.
    + intros [|data].
      * now apply adds_only_quiet.
      * destruct (_ <=? 0); [now apply adds_only_quiet | apply IH].
Qed.

Lemma adds_only_read_write (n_sent : Z) : adds_only ok (read_write net n_sent).
Proof.
  unfold read_write. apply adds_only_bind; [apply adds_only_read_loop|].
  intros [[out n_read]|]; [|now apply adds_only_quiet].
  apply adds_only_bind; [apply adds_only_assert|]. intros _.
  now apply adds_only_quiet.
Qed.

End Receivers.

Section Preserves.
Variable I : proc -> Prop.

Lemma preserves_bind {A B : Type} (m : M A) (k : A -> M B) :
  preserves I m -> (forall a, preserves I (k a)) -> preserves I (bind m k).
Proof.
  intros Hm Hk p Hp. specialize (Hm p Hp). unfold bind.
  destruct (m p) as [[a| | |] p1]; cbn [snd] in *; try exact Hm.
  now apply Hk.
Qed.

Lemma preserves_ret {A : Type} (a : A) : preserves I (ret a).
Proof. intros p Hp. exact Hp. Qed.

Lemma preserves_if {A : Type} (b : bool) (m1 m2 : M A) :
  preserves I m1 -> preserves I m2 -> preserves I (if b then m1 else m2).
Proof. now destruct b. Qed.

Lemma preserves_feof : preserves I feof.
Proof. intros p Hp. exact Hp. Qed.

Lemma preserves_do_while (fuel : nat) (body : counters -> M counters)
    (c : counters) :
  (forall c', preserves I (body c')) ->
  preserves I (do_while_not_feof fuel body c).
Proof.
  intros Hbody. revert c; induction fuel as [|fuel IH]; intros c; simpl.
  - intros p Hp. exact Hp.
  - apply preserves_bind; [apply Hbody|]. intros c'.
    apply preserves_bind; [apply preserves_feof|]. intros eof.
    apply preserves_if; [apply preserves_ret | apply IH].
Qed.

End Preserves.

(** The loop is left with the end-of-file indicator set. *)
Lemma do_while_returns_at_eof (fuel : nat) (body : counters -> M counters) :
  forall c p c' p',
    do_while_not_feof fuel body c p = (Ok c', p') -> orig_eof p' = true.
Proof.
  induction fuel as [|fuel IH]; intros c p c' p'; cbn [do_while_not_feof];
    [discriminate|].
  unfold bind at 1. destruct (body c p) as [[c1| | |] p1]; try discriminate.
  unfold bind, feof. destruct (orig_eof p1) eqn:E.
  - unfold ret. now intros [= <- <-].
  - apply IH.
Qed.

Lemma handed_quiet (evs h : list event) :
  forallb (fun e => negb (is_output e)) evs = true ->
  handed (evs ++ h) = handed h.
Proof.
  induction evs as [|e evs IH]; cbn; [reflexivity|].
  intros H. apply andb_true_iff in H. destruct H as [He H].
  destruct e; cbn in He; try discriminate; now apply IH.
Qed.

Lemma in_chunks_quiet (chunk_size : Z) (evs h : list event) :
  forallb (fun e => negb (is_output e)) evs = true ->
  in_chunks chunk_size h -> in_chunks chunk_size (evs ++ h).
Proof.
  intros Hq Hh e Hin. apply in_app_or in Hin. destruct Hin as [Hin|Hin];
    [|now apply Hh].
  rewrite forallb_forall in Hq. specialize (Hq e Hin).
  destruct e; cbn in Hq; try discriminate; exact I.
Qed.

Lemma to_server_quiet (srv : sockaddr) (srv_len : Z) (evs h : list event) :
  forallb (fun e => negb (is_output e)) evs = true ->
  to_server srv srv_len h -> to_server srv srv_len (evs ++ h).
Proof.
  intros Hq Hh buf dst len rc Hin. apply in_app_or in Hin.
  destruct Hin as [Hin|Hin]; [|now apply (Hh buf dst len rc)].
  rewrite forallb_forall in Hq. specialize (Hq _ Hin). discriminate.
Qed.

(** What keeps the file and hands nothing to the socket keeps the
    invariant. *)
Lemma sending_inv_quiet {A : Type} (chunk_size : Z) (contents : list byte)
    (m : M A) :
  keeps_orig m -> adds_only (fun e => negb (is_output e)) m ->
  preserves (sending_inv chunk_size contents) m.
Proof.
  intros Hk Ha p (Hh & Hc & He). destruct (Hk p) as [Ho Hf].
  destruct (Ha p) as (evs & Hcalls & Hq).
  unfold sending_inv. rewrite Hcalls, Ho, Hf.
  split; [now rewrite handed_quiet|]. split; [now apply in_chunks_quiet|].
  exact He.
Qed.

Lemma to_server_quiet_run {A : Type} (srv : sockaddr) (srv_len : Z) (m : M A) :
  adds_only (fun e => negb (is_output e)) m ->
  preserves (fun p => to_server srv srv_len (calls p)) m.
Proof.
  intros Ha p Hp. destruct (Ha p) as (evs & -> & Hq).
  now apply to_server_quiet.
Qed.

Section Sending.
Context {P : Platform}.
Variable net : network.
Variables (chunk_size : Z) (contents : list byte).

(** Reading a chunk and handing it to the socket, as both engines do. *)
Lemma sending_inv_chunk (p : proc) (e : event) :
  let buf := firstn (Z.to_nat chunk_size) (orig p) in
  sending_inv chunk_size contents p ->
  (buf <> [] ->
   (e = Write buf (net_write net (calls p) buf) \/
    exists dst len rc, e = Sendto buf dst len rc) ->
   sending_inv chunk_size contents
     (with_calls (e :: calls p) (after_fread chunk_size p))) /\
  (buf = [] -> sending_inv chunk_size contents (after_fread chunk_size p)).
Proof.
  intros buf (Hh & Hc & He).
  pose proof (firstn_skipn (Z.to_nat chunk_size) (orig p)) as Hsplit.
  fold buf in Hsplit.
  assert (Hend : orig_eof (after_fread chunk_size p) = true ->
                 skipn (Z.to_nat chunk_size) (orig p) = []).
  { cbn [after_fread orig_eof]. fold buf. intros H.
    apply orb_true_iff in H. destruct H as [H|H].
    - rewrite (He H). now destruct (Z.to_nat chunk_size).
    - apply Nat.ltb_lt in H. apply length_zero_iff_nil.
      pose proof (length_firstn_skipn (Z.to_nat chunk_size) (orig p)).
      fold buf in H0. rewrite length_skipn.
      unfold buf in H. rewrite length_firstn in H. lia. }
  split; [intros Hbuf Hev | intros Hbuf].
  - unfold sending_inv. cbn [calls with_calls orig orig_eof after_fread].
    split; [|split].
    + replace (handed (e :: calls p)) with (handed (calls p) ++ buf)
        by (destruct Hev as [->|(dst & len & rc & ->)]; reflexivity).
      now rewrite <- app_assoc, Hsplit.
    + assert (Hlen : 0 < Z.of_nat (length buf) <= chunk_size).
      { split; [destruct buf; [contradiction | cbn; lia]|].
        assert (length buf <= Z.to_nat chunk_size)%nat
          by (unfold buf; rewrite length_firstn; lia).
        destruct buf; [contradiction|]. cbn [length] in *. lia. }
      intros e' [<-|Hin]; [|now apply Hc].
      destruct Hev as [->|(dst & len & rc & ->)]; exact Hlen.
    + exact Hend.
  - unfold sending_inv. cbn [calls orig after_fread].
    split; [|split; [exact Hc | exact Hend]].
    rewrite <- Hh. f_equal. rewrite <- Hsplit at 2. now rewrite Hbuf.
Qed.

Lemma datagram_send_chunk_sends (srv : sockaddr) (srv_len : Z) (c : counters) :
  preserves (sending_inv chunk_size contents)
    (datagram_send_chunk net srv srv_len chunk_size c) /\
  preserves (fun p => to_server srv srv_len (calls p))
    (datagram_send_chunk net srv srv_len chunk_size c).
Proof.
  assert (Hrun : forall p,
    let buf := firstn (Z.to_nat chunk_size) (orig p) in
    let rc := net_sendto net (calls p) buf srv srv_len in
    (buf = [] /\
     snd (datagram_send_chunk net srv srv_len chunk_size c p)
     = after_fread chunk_size p) \/
    (buf <> [] /\
     calls (snd (datagram_send_chunk net srv srv_len chunk_size c p))
     = Sendto buf srv srv_len rc :: calls p /\
     orig (snd (datagram_send_chunk net srv srv_len chunk_size c p))
     = orig (after_fread chunk_size p) /\
     orig_eof (snd (datagram_send_chunk net srv srv_len chunk_size c p))
     = orig_eof (after_fread chunk_size p))).
  { intros p buf rc.
    unfold datagram_send_chunk, send_packet, fread, sendto, bind, log, ret,
      exit, lift, fprintf_stderr.
    cbn [fst snd calls with_calls after_fread orig orig_eof]. fold buf.
    destruct (Z.ltb_spec 0 (Z.of_nat (length buf))) as [Hpos|Hz].
    - right. split; [intros E; rewrite E in Hpos; cbn in Hpos; lia|].
      rewrite Nat2Z.id, firstn_all. subst rc.
      destruct (_ <? 0); cbn; repeat split; reflexivity.
    - left. split; [destruct buf; [reflexivity | cbn in Hz; lia]|].
      reflexivity. }
  split; intros p Hp; destruct (Hrun p) as [[Hbuf ->]|(Hbuf & Hc & Ho & He)].
  - now apply (sending_inv_chunk p Mark).
  - destruct (sending_inv_chunk p
                (Sendto (firstn (Z.to_nat chunk_size) (orig p)) srv srv_len
                   (net_sendto net (calls p)
                      (firstn (Z.to_nat chunk_size) (orig p)) srv srv_len)) Hp)
      as [Hinv _].
    specialize (Hinv Hbuf ltac:(right; now eexists _, _, _)).
    unfold sending_inv in *.
    rewrite Hc, Ho, He. exact Hinv.
  - exact Hp.
  - rewrite Hc. intros buf dst len rc [[= <- <- <- <-]|Hin]; [now split|].
    now apply (Hp buf dst len rc).
Qed.

Lemma stream_send_chunk_sends (c : counters) :
  preserves (sending_inv chunk_size contents)
    (stream_send_chunk net chunk_size c).
Proof.
  intros p Hp.
  set (buf := firstn (Z.to_nat chunk_size) (orig p)).
  destruct (sending_inv_chunk p (Write buf (net_write net (calls p) buf)) Hp)
    as [Hfull Hempty]. fold buf in Hfull, Hempty.
  unfold stream_send_chunk. unfold bind at 1. cbn [fread]. fold buf.
  destruct buf as [|b buf'] eqn:Ebuf; [now apply Hempty|].
  destruct (Z.ltb_spec 0 (Z.of_nat (length (b :: buf')))) as [_|H];
    [|cbn in H; lia].
  rewrite Nat2Z.id, firstn_all.
  specialize (Hfull ltac:(discriminate) ltac:(now left)).
  unfold write. unfold bind, log, ret, assert, lift.
  cbn [calls after_fread].
  destruct (_ =? _); exact Hfull.
Qed.

Lemma call_mark_quiet (f : bool) : adds_only quiet (call_mark f).
Proof.
  destruct f; [now apply adds_only_log | now apply adds_only_quiet].
Qed.

Lemma keeps_orig_call_mark (f : bool) : keeps_orig (call_mark f).
Proof. destruct f; fuel_leaf. Qed.

Lemma datagram_receive_quiet (srv : sockaddr) (srv_len : Z) (f : bool)
    (n_sent : Z) :
  keeps_orig (call_mark f ;; recv_write net srv srv_len n_sent) /\
  adds_only quiet (call_mark f ;; recv_write net srv srv_len n_sent).
Proof.
  split.
  - apply keeps_orig_bind; [apply keeps_orig_call_mark|]. intros _.
    apply keeps_orig_recv_write.
  - apply adds_only_bind; [apply call_mark_quiet|]. intros _.
    now apply adds_only_recv_write.
Qed.

Lemma stream_receive_quiet (f : bool) (n_sent : Z) :
  keeps_orig (call_mark f ;; read_write net n_sent) /\
  adds_only quiet (call_mark f ;; read_write net n_sent).
Proof.
  split.
  - apply keeps_orig_bind; [apply keeps_orig_call_mark|]. intros _.
    apply keeps_orig_read_write.
  - apply adds_only_bind; [apply call_mark_quiet|]. intros _.
    now apply adds_only_read_write.
Qed.

End Sending.

Section SendingClaims.
Context {P : Platform}.
Variable net : network.

Lemma sending_inv_start (chunk_size : Z) (contents : list byte) (p : proc) :
  calls p = [] ->
  sending_inv chunk_size contents (snd (fopen_both contents p)).
Proof.
  intros Hc. unfold sending_inv. cbn. rewrite Hc.
  split; [reflexivity|]. split; [intros e [] | discriminate].
Qed.

(** X7. The datagram engine sends the file, and nothing else, in order.
    On any network and whatever the outcome of the run, the bytes handed
    to [sendto] so far, put end to end, are a beginning of the file; each
    datagram holds at least one byte and at most [chunk_size], and goes
    to the server.  When the run returns, they are the whole file. *)
Theorem datagram_sends_file_in_order (srv : sockaddr) (srv_len : Z)
    (contents : list byte) (chunk_size times : Z) (f : bool) :
  let run := datagram_process_file net srv srv_len contents chunk_size
               times f start in
  (exists rest, handed (calls (snd run)) ++ rest = contents) /\
  in_chunks chunk_size (calls (snd run)) /\
  to_server srv srv_len (calls (snd run)) /\
  (fst run = Ok tt -> handed (calls (snd run)) = contents).
Proof.
  intros run.
  set (Inv := fun p => sending_inv chunk_size contents p /\
                       to_server srv srv_len (calls p)).
  assert (Hquiet : forall A (m : M A),
            keeps_orig m -> adds_only quiet m -> preserves Inv m).
  { intros A m Hk Ha p [Hs Ht]. split.
    - now apply sending_inv_quiet.
    - now apply (to_server_quiet_run srv srv_len m Ha). }
  assert (Hrecv : forall n (c : counters),
            preserves Inv (call_mark f ;; recv_write net srv srv_len n ;; ret c)).
  { intros n c p Hp.
    change (call_mark f ;; recv_write net srv srv_len n ;; ret c)
      with (bind (call_mark f)
              (fun _ => bind (recv_write net srv srv_len n) (fun _ => ret c))).
    pose proof (Hquiet _ (call_mark f ;; recv_write net srv srv_len n)
                  (proj1 (datagram_receive_quiet net srv srv_len f n))
                  (proj2 (datagram_receive_quiet net srv srv_len f n)) p Hp)
      as H.
    unfold bind in *. destruct (call_mark f p) as [[[]| | |] p1]; try exact H.
    destruct (recv_write net srv srv_len n p1) as [[[]| | |] p2]; exact H. }
  assert (Hloop : forall fuel c,
            preserves Inv
              (datagram_loop net fuel srv srv_len chunk_size times f c)).
  { intros fuel c. apply preserves_do_while. intros c'.
    unfold datagram_turn. apply preserves_bind.
    - intros p [Hs Ht]. split.
      + now apply datagram_send_chunk_sends.
      + now apply (datagram_send_chunk_sends net chunk_size contents).
    - intros c1. unfold datagram_checkpoint.
      apply preserves_if; [apply Hrecv | apply preserves_ret]. }
  set (p0 := snd (fopen_both contents start)).
  assert (H0 : Inv p0).
  { split; [now apply sending_inv_start|]. intros ? ? ? ? []. }
  assert (Hrun : run =
            (c <- datagram_loop net (S (length contents)) srv srv_len
                    chunk_size times f {| count := 0; bytes_sent := 0 |} ;;
             datagram_flush net srv srv_len f c) p0) by reflexivity.
  assert (Hflush : forall c, preserves Inv (datagram_flush net srv srv_len f c)).
  { intros c. unfold datagram_flush.
    apply preserves_if; [|apply preserves_ret].
    apply Hquiet; apply datagram_receive_quiet. }
  assert (Hend : Inv (snd run)).
  { rewrite Hrun. apply preserves_bind; [apply Hloop | apply Hflush | exact H0]. }
  destruct Hend as [(Hh & Hc & He) Ht].
  split; [now exists (orig (snd run))|]. split; [exact Hc|].
  split; [exact Ht|]. intros Hok.
  rewrite <- Hh. rewrite He; [now rewrite app_nil_r|].
  (* the run returned: the loop met the end of the file *)
  rewrite Hrun in Hok |- *. unfold bind at 1.
  unfold bind at 1 in Hok.
  destruct (datagram_loop net (S (length contents)) srv srv_len chunk_size
              times f {| count := 0; bytes_sent := 0 |} p0)
    as [[c| | |] p1] eqn:Eloop; try discriminate.
  apply do_while_returns_at_eof in Eloop.
  unfold datagram_flush. destruct (negb (count c =? 0)); [|exact Eloop].
  destruct (keeps_orig_bind _ _ (keeps_orig_call_mark f)
              (fun _ => keeps_orig_recv_write net srv srv_len (bytes_sent c)) p1)
    as [_ Hf].
  now rewrite Hf.
Qed.

(** X8. The stream engine writes the file, and nothing else, in order: on
    any connection and whatever the outcome of the run, the bytes handed
    to [write] so far are a beginning of the file, in pieces of one to
    [chunk_size] bytes; when the run returns, they are the whole file. *)
Theorem stream_writes_file_in_order (contents : list byte)
    (chunk_size times : Z) (f : bool) :
  let run := stream_process_file net contents chunk_size times f start in
  (exists rest, handed (calls (snd run)) ++ rest = contents) /\
  in_chunks chunk_size (calls (snd run)) /\
  (fst run = Ok tt -> handed (calls (snd run)) = contents).
Proof.
  intros run.
  set (Inv := sending_inv chunk_size contents).
  assert (Hrecv : forall n (c : counters),
            preserves Inv (call_mark f ;; read_write net n ;; ret c)).
  { intros n c p Hp.
    change (call_mark f ;; read_write net n ;; ret c)
      with (bind (call_mark f)
              (fun _ => bind (read_write net n) (fun _ => ret c))).
    pose proof (sending_inv_quiet chunk_size contents
                  (call_mark f ;; read_write net n)
                  (proj1 (stream_receive_quiet net f n))
                  (proj2 (stream_receive_quiet net f n)) p Hp) as H.
    unfold bind in *. destruct (call_mark f p) as [[[]| | |] p1]; try exact H.
    destruct (read_write net n p1) as [[[]| | |] p2]; exact H. }
  assert (Hloop : forall fuel c,
            preserves Inv (stream_loop net fuel chunk_size times f c)).
  { intros fuel c. apply preserves_do_while. intros c'.
    unfold stream_turn. apply preserves_bind.
    - apply stream_send_chunk_sends.
    - intros c1. unfold stream_checkpoint.
      apply preserves_if; [apply Hrecv | apply preserves_ret]. }
  set (p0 := snd (fopen_both contents start)).
  assert (H0 : Inv p0) by now apply sending_inv_start.
  assert (Hrun : run =
            (c <- stream_loop net (S (length contents)) chunk_size times f
                    {| count := 0; bytes_sent := 0 |} ;;
             stream_flush net f c) p0) by reflexivity.
  assert (Hflush : forall c, preserves Inv (stream_flush net f c)).
  { intros c. unfold stream_flush.
    apply preserves_if; [|apply preserves_ret].
    apply sending_inv_quiet; apply stream_receive_quiet. }
  assert (Hend : Inv (snd run)).
  { rewrite Hrun. apply preserves_bind; [apply Hloop | apply Hflush | exact H0]. }
  destruct Hend as (Hh & Hc & He).
  split; [now exists (orig (snd run))|]. split; [exact Hc|]. intros Hok.
  rewrite <- Hh. rewrite He; [now rewrite app_nil_r|].
  rewrite Hrun in Hok |- *. unfold bind at 1.
  unfold bind at 1 in Hok.
  destruct (stream_loop net (S (length contents)) chunk_size times f
              {| count := 0; bytes_sent := 0 |} p0)
    as [[c| | |] p1] eqn:Eloop; try discriminate.
  apply do_while_returns_at_eof in Eloop.
  unfold stream_flush. destruct (negb (count c =? 0)); [|exact Eloop].
  destruct (keeps_orig_bind _ _ (keeps_orig_call_mark f)
              (fun _ => keeps_orig_read_write net (bytes_sent c)) p1)
    as [_ Hf].
  now rewrite Hf.
Qed.

End SendingClaims.

(** ** The hook *)

Lemma hooked_quiet (evs h : list event) :
  forallb (fun e => negb (is_sync e)) evs = true ->
  hooked (evs ++ h) = hooked h.
Proof.
  induction evs as [|e evs IH]; cbn [app forallb]; [reflexivity|].
  intros H. apply andb_true_iff in H. destruct H as [He H].
  destruct e; cbn in He; try discriminate; cbn [hooked]; now apply IH.
Qed.

Section Hook.
Context {P : Platform}.
Variable net : network.
Variables (srv : sockaddr) (srv_len : Z).

Lemma adds_only_datagram_send_chunk (ok : event -> bool) (chunk_size : Z)
    (c : counters) :
  (forall buf dst len rc, ok (Sendto buf dst len rc) = true) ->
  adds_only ok (datagram_send_chunk net srv srv_len chunk_size c).
Proof.
  intros Hok. unfold datagram_send_chunk, send_packet, exit.
  apply adds_only_bind; [now apply adds_only_quiet|]. intros buf.
  apply adds_only_if; [|now apply adds_only_quiet].
  apply adds_only_bind; [|intros _; now apply adds_only_quiet].
  apply adds_only_bind.
  - intros p. eexists [_]. split; [reflexivity|]. cbn. now rewrite Hok.
  - intros rc. apply adds_only_if; [|now apply adds_only_quiet].
    apply adds_only_bind; [now apply adds_only_quiet|]. intros _.
    now apply adds_only_quiet.
Qed.

(** Without a hook, no call of it is ever recorded. *)
Lemma adds_only_datagram_process_file (ok : event -> bool)
    (contents : list byte) (chunk_size times : Z) (f : bool) :
  (forall buf dst len rc, ok (Sendto buf dst len rc) = true) ->
  (forall rc, ok (Select rc) = true) ->
  (forall n r, ok (Recvfrom n r) = true) ->
  (f = true -> ok Mark = true) ->
  adds_only ok
    (datagram_process_file net srv srv_len contents chunk_size times f).
Proof.
  intros Hsend Hsel Hrecv Hmark.
  assert (Hcm : adds_only ok (call_mark f)).
  { destruct f; [apply adds_only_log; now apply Hmark|].
    now apply adds_only_quiet. }
  assert (Hrw : forall n, adds_only ok (recv_write net srv srv_len n)).
  { intros n p.
    destruct (recv_write_calls net srv srv_len n p) as [->|(r & -> & _)].
    - eexists [_]. split; [reflexivity|]. cbn. now rewrite Hsel.
    - eexists [_; _]. split; [reflexivity|]. cbn. now rewrite Hsel, Hrecv. }
  unfold datagram_process_file.
  apply adds_only_bind; [now apply adds_only_quiet|]. intros _.
  apply adds_only_bind.
  - unfold datagram_loop. generalize (S (length contents)) as fuel.
    generalize {| count := 0; bytes_sent := 0 |} as c.
    intros c fuel; revert c; induction fuel as [|fuel IH]; intros c;
      cbn [do_while_not_feof]; [now apply adds_only_quiet|].
    apply adds_only_bind.
    + unfold datagram_turn. apply adds_only_bind;
        [now apply adds_only_datagram_send_chunk|].
      intros c1. unfold datagram_checkpoint.
      apply adds_only_if; [|now apply adds_only_quiet].
      apply adds_only_bind; [exact Hcm|]. intros _.
      apply adds_only_bind; [apply Hrw|]. intros _. now apply adds_only_quiet.
    + intros c1. apply adds_only_bind; [now apply adds_only_quiet|].
      intros eof. apply adds_only_if; [now apply adds_only_quiet | apply IH].
  - intros c. unfold datagram_flush.
    apply adds_only_if; [|now apply adds_only_quiet].
    apply adds_only_bind; [exact Hcm | intros _; apply Hrw].
Qed.

Lemma hooked_receive (n : Z) (p : proc) :
  hooked (calls p) = true ->
  hooked (calls (snd ((call_mark true ;; recv_write net srv srv_len n) p)))
  = true.
Proof.
  intros Hp. unfold bind at 1. rewrite call_mark_run.
  set (p1 := with_calls (marked true (calls p)) p).
  replace (snd (let (r, p') := (Ok tt, p1) in
                match r with
                | Ok a => recv_write net srv srv_len n p'
                | AssertFailed => (AssertFailed, p')
                | Exited st => (Exited st, p')
                | OutOfFuel => (OutOfFuel, p')
                end))
    with (snd (recv_write net srv srv_len n p1)) by reflexivity.
  destruct (recv_write_calls net srv srv_len n p1) as [->|(r & -> & _)];
    exact Hp.
Qed.

(** X9. The hook and the waits.  With a hook, in every run of
    [datagram_process_file], whatever its outcome, the hook has been
    called once right before each [select] and at no other time; without
    one, no call of it is recorded. *)
Theorem hook_before_every_wait (contents : list byte) (chunk_size times : Z)
    (f : bool) :
  let run := datagram_process_file net srv srv_len contents chunk_size
               times f start in
  if f then hooked (calls (snd run)) = true
  else forall e, In e (calls (snd run)) -> e <> Mark.
Proof.
  intros run. destruct f.
  - set (Inv := fun p => hooked (calls p) = true).
    assert (Hquiet : forall A (m : M A),
              adds_only (fun e => negb (is_sync e)) m -> preserves Inv m).
    { intros A m Ha p Hp. destruct (Ha p) as (evs & Hc & Hq).
      unfold Inv. rewrite Hc. now rewrite hooked_quiet. }
    assert (Hrecv : forall n,
              preserves Inv (call_mark true ;; recv_write net srv srv_len n)).
    { intros n p Hp. now apply hooked_receive. }
    assert (Hrecv' : forall n (c : counters),
              preserves Inv
                (call_mark true ;; recv_write net srv srv_len n ;; ret c)).
    { intros n c p Hp. pose proof (Hrecv n p Hp) as H.
      change (call_mark true ;; recv_write net srv srv_len n ;; ret c)
        with (bind (call_mark true)
                (fun _ => bind (recv_write net srv srv_len n) (fun _ => ret c))).
      unfold bind in *.
      destruct (call_mark true p) as [[[]| | |] p1]; try exact H.
      destruct (recv_write net srv srv_len n p1) as [[[]| | |] p2]; exact H. }
    unfold run, datagram_process_file.
    apply preserves_bind; [| |reflexivity].
    + intros p Hp. exact Hp.
    + intros _. apply preserves_bind.
      * apply preserves_do_while. intros c. unfold datagram_turn.
        apply preserves_bind.
        -- apply Hquiet. now apply adds_only_datagram_send_chunk.
        -- intros c1. unfold datagram_checkpoint.
           apply preserves_if; [apply Hrecv' | apply preserves_ret].
      * intros c. unfold datagram_flush.
        apply preserves_if; [apply Hrecv | apply preserves_ret].
  - destruct (adds_only_datagram_process_file (fun e => negb (is_mark e))
                contents chunk_size times false
                (fun _ _ _ _ => eq_refl) (fun _ => eq_refl)
                (fun _ _ => eq_refl) ltac:(discriminate) start)
      as (evs & Hc & Hq).
    fold run in Hc. rewrite Hc, app_nil_r. intros e Hin ->.
    rewrite forallb_forall in Hq. specialize (Hq _ Hin). discriminate.
Qed.

End Hook.

(** ** Edges *)

Section Edges.
Context {P : Platform}.
Variable net : network.

(** X10. An empty file.  With a positive chunk size and an interval other
    than zero, both engines return without a single call on the socket
    or of the hook, and the copy is empty. *)
Theorem empty_file_no_traffic (srv : sockaddr) (srv_len chunk_size times : Z)
    (f : bool) (p : proc) :
  0 < chunk_size -> times <> 0 ->
  let done := {| orig := []; orig_eof := true; copy := [];
                 stderr := stderr p; calls := calls p |} in
  datagram_process_file net srv srv_len [] chunk_size times f p = (Ok tt, done) /\
  stream_process_file net [] chunk_size times f p = (Ok tt, done).
Proof.
  intros Hcs Ht done.
  assert (Hlt : (0 <? Z.to_nat chunk_size)%nat = true)
    by (apply Nat.ltb_lt; lia).
  assert (Hne : (0 =? times) = false) by (apply Z.eqb_neq; lia).
  set (p0 := {| orig := []; orig_eof := false; copy := [];
                stderr := stderr p; calls := calls p |}).
  split.
  - assert (Hturn : datagram_turn net srv srv_len chunk_size times f
                      {| count := 0; bytes_sent := 0 |} p0 
                    = (Ok {| count := 0; bytes_sent := 0 |}, done)).
    { unfold datagram_turn, datagram_send_chunk, datagram_checkpoint, fread,
        bind, ret, after_fread, p0.
      cbn [orig orig_eof copy stderr calls count].
      rewrite firstn_nil, skipn_nil. cbn [length Z.of_nat Z.ltb Z.compare orb].
      rewrite Hlt. cbn [count]. rewrite Hne. reflexivity. }
    unfold datagram_process_file, datagram_loop. unfold bind at 1.
    cbn [fopen_both length do_while_not_feof]. fold p0.
    erewrite bind_ok; [|erewrite bind_ok; [|exact Hturn]; reflexivity].
    reflexivity.
  - assert (Hturn : stream_turn net chunk_size times f
                      {| count := 0; bytes_sent := 0 |} p0 
                    = (Ok {| count := 0; bytes_sent := 0 |}, done)).
    { unfold stream_turn, stream_send_chunk, stream_checkpoint, fread,
        bind, ret, after_fread, p0.
      cbn [orig orig_eof copy stderr calls count].
      rewrite firstn_nil, skipn_nil. cbn [length Z.of_nat Z.ltb Z.compare orb].
      rewrite Hlt. cbn [count]. rewrite Hne. reflexivity. }
    unfold stream_process_file, stream_loop. unfold bind at 1.
    cbn [fopen_both length do_while_not_feof]. fold p0.
    erewrite bind_ok; [|erewrite bind_ok; [|exact Hturn]; reflexivity].
    reflexivity.
Qed.

(** X11. A chunk size of zero.  [fread] then reads nothing and never meets
    the end of the file: however many turns the loop of either engine is
    given it is still running, and it has made no call and moved nothing. *)
Theorem zero_chunk_size_never_ends (srv : sockaddr) (srv_len times : Z)
    (f : bool) (contents : list byte) (fuel : nat) :
  times <> 0 ->
  datagram_loop net fuel srv srv_len 0 times f zero_counters (opened contents)
  = (OutOfFuel, opened contents) /\
  stream_loop net fuel 0 times f zero_counters (opened contents)
  = (OutOfFuel, opened contents).
Proof.
  intros Ht.
  assert (Hne : (0 =? times) = false) by (apply Z.eqb_neq; lia).
  induction fuel as [|fuel [IHd IHs]]; [split; reflexivity|]. split.
  - unfold datagram_loop in *. cbn [do_while_not_feof].
    unfold datagram_turn, datagram_send_chunk, datagram_checkpoint, fread,
      feof, bind, ret, after_fread in *.
    cbn in *. rewrite Hne in *. exact IHd.
  - unfold stream_loop in *. cbn [do_while_not_feof].
    unfold stream_turn, stream_send_chunk, stream_checkpoint, fread,
      feof, bind, ret, after_fread in *.
    cbn in *. rewrite Hne in *. exact IHs.
Qed.

End Edges.

(** ** The mirror never outgrows the source *)

Section CopyBounds.
Context {P : Platform}.
Variable net : network.

Lemma recv_write_copy_bound (srv : sockaddr) (srv_len n_sent : Z) (p : proc) :
  Z.of_nat (length (copy (snd (recv_write net srv srv_len n_sent p))))
  <= Z.of_nat (length (copy p)) + Z.max 0 n_sent.
Proof.
  unfold recv_write, select, recvfrom, bind, log, ret, assert, lift,
    fprintf_stderr, fwrite.
  set (rc := net_select net (calls p)). cbn.
  destruct (0 <=? rc); cbn; [|lia].
  destruct (rc =? 0); cbn; [lia|].
  destruct (net_recvfrom net (Select rc :: calls p)) as [|src len data]; cbn;
    [lia|].
  destruct (address_match src len srv srv_len) as [[|]| | |]; cbn; try lia.
  rewrite length_app, !length_firstn. lia.
Qed.

Lemma read_write_copy_bound (n_sent : Z) (p : proc) :
  0 <= n_sent ->
  Z.of_nat (length (copy (snd (read_write net n_sent p))))
  <= Z.of_nat (length (copy p)) + n_sent.
Proof.
  intros Hn.
  destruct (read_loop_spec net n_sent (Z.to_nat n_sent) [] 0 p eq_refl Hn)
    as (evs & [(Hrun & _ & Hlen) | (Hrun & _)]).
  { rewrite Z.sub_0_r. lia. }
  - unfold read_write. rewrite (bind_ok _ _ _ _ _ Hrun).
    unfold assert. rewrite Z.eqb_refl. cbn.
    rewrite length_app, length_firstn. cbn [app] in Hlen. lia.
  - unfold read_write. rewrite (bind_ok _ _ _ _ _ Hrun). cbn. lia.
Qed.

Lemma call_mark_copy (f : bool) (p : proc) :
  copy (snd (call_mark f p)) = copy p.
Proof. now destruct f. Qed.

End CopyBounds.

Section Mirror.
Variables (contents : list byte) (chunk_size times : Z).
Variable body : counters -> M counters.

Hypothesis chunk_size_pos : 0 < chunk_size.
Hypothesis times_pos : 0 < times.
Hypothesis batches_fit : longest_batch contents chunk_size times <= INT_MAX.

Hypothesis body_moves :
  forall c p,
    let b := Z.of_nat (length (firstn (Z.to_nat chunk_size) (orig p))) in
    0 <= bytes_sent c -> bytes_sent c + b <= INT_MAX ->
    exists p',
      body c p = (Ok (after_checkpoint times (after_chunk b c)), p') /\
      orig p' = orig (after_fread chunk_size p) /\
      orig_eof p' = orig_eof (after_fread chunk_size p).

Hypothesis body_copies :
  forall c p,
    let b := Z.of_nat (length (firstn (Z.to_nat chunk_size) (orig p))) in
    0 <= bytes_sent (after_chunk b c) ->
    Z.of_nat (length (copy (snd (body c p))))
    <= Z.of_nat (length (copy p))
       + (if count (after_chunk b c) =? times
          then bytes_sent (after_chunk b c) else 0).

(** The counters never overflow within the range the batches fit in. *)
Lemma counting_room (c : counters) (p : proc) :
  counting_inv contents chunk_size times c p -> orig_eof p = false ->
  let b := Z.of_nat (length (firstn (Z.to_nat chunk_size) (orig p))) in
  0 <= bytes_sent c /\ bytes_sent c + b <= INT_MAX.
Proof.
  intros (k & Hk & Hs & Hlo & Hhi & Hcount & Hbytes & Hhead & _) Heof b.
  specialize (Hhead Heof).
  set (n := Z.to_nat chunk_size) in *.
  pose proof (length_firstn_skipn n (orig p)) as Hsplit.
  pose proof (length_firstn n (orig p)) as Hfirst.
  pose proof (Z.mod_pos_bound k times times_pos) as Hmod.
  assert (Hbytes0 : bytes_sent c = (k mod times) * chunk_size).
  { rewrite Hbytes, Hcount. destruct (Z.eqb_spec (k mod times) 0) as [->|]; lia. }
  pose proof (Z.mod_le k times Hk times_pos) as Hmle.
  assert (Hmcs : 0 <= k mod times * chunk_size <= k * chunk_size) by nia.
  assert (Hble : 0 <= b <= chunk_size) by (subst b n; lia).
  split; [lia|].
  unfold longest_batch in batches_fit.
  destruct (Z.min_spec (Z.of_nat (length contents)) (chunk_size * times))
    as [[_ Hmin]|[_ Hmin]]; rewrite Hmin in batches_fit.
  - subst b. lia.
  - rewrite Hbytes0. nia.
Qed.

Lemma mirror_turn (c : counters) (p : proc) :
  mirror_inv contents chunk_size times c p -> orig_eof p = false ->
  exists c' p',
    body c p = (Ok c', p') /\ mirror_inv contents chunk_size times c' p' /\
    (orig_eof p' = false -> (length (orig p') < length (orig p))%nat).
Proof.
  intros [Hcount Hcopy] Heof.
  destruct (counting_room c p Hcount Heof) as [Hlo Hhi].
  destruct (counting_turn contents chunk_size times body chunk_size_pos
              times_pos batches_fit body_moves c p Hcount Heof)
    as (c' & p' & Hrun & Hinv & Hless).
  destruct (body_moves c p Hlo Hhi) as (p'' & Hrun' & Horig & _).
  rewrite Hrun in Hrun'. injection Hrun' as -> <-.
  exists (after_checkpoint times
            (after_chunk
               (Z.of_nat (length (firstn (Z.to_nat chunk_size) (orig p)))) c)),
         p'.
  split; [exact Hrun|]. split; [|exact Hless]. split; [exact Hinv|].
  set (b := Z.of_nat (length (firstn (Z.to_nat chunk_size) (orig p)))) in *.
  assert (Hsent : bytes_sent (after_chunk b c) = bytes_sent c + b).
  { unfold after_chunk. destruct (Z.ltb_spec 0 b); cbn [bytes_sent].
    - apply to_int_small. unfold INT_MAX in *. lia.
    - subst b. lia. }
  pose proof (body_copies c p) as Hb. fold b in Hb. rewrite Hrun in Hb.
  cbn [snd] in Hb. specialize (Hb ltac:(lia)).
  rewrite Horig. cbn [after_fread orig].
  pose proof (length_firstn_skipn (Z.to_nat chunk_size) (orig p)) as Hsplit.
  unfold after_checkpoint.
  destruct (count (after_chunk b c) =? times); cbn [bytes_sent zero_counters];
    subst b; lia.
Qed.

Lemma mirror_loop (p : proc) :
  orig p = contents -> orig_eof p = false -> copy p = [] ->
  exists c p',
    do_while_not_feof (S (length contents)) body zero_counters p = (Ok c, p') /\
    0 <= bytes_sent c /\
    Z.of_nat (length (copy p')) + bytes_sent c <= Z.of_nat (length contents).
Proof.
  intros Ho He Hc.
  destruct (do_while_total body (mirror_inv contents chunk_size times) mirror_turn
              (S (length contents)) zero_counters p)
    as (c & p' & Hrun & [Hinv Hcopy] & Heof).
  - split; [now apply counting_start|]. rewrite Hc, Ho. cbn. lia.
  - exact He.
  - rewrite Ho. lia.
  - exists c, p'. split; [exact Hrun|].
    destruct Hinv as (k & Hk & Hs & Hlo & Hhi & Hcount & Hbytes & _).
    pose proof (Z.mod_pos_bound k times times_pos) as Hmod.
    assert (Hmle : k mod times <= k) by (apply Z.mod_le; lia).
    split; [|lia].
    rewrite Hbytes. destruct (Z.eqb_spec (count c) 0) as [|Hne]; [lia|].
    assert ((k - k mod times) * chunk_size <= (k - 1) * chunk_size)
      by (apply Z.mul_le_mono_nonneg_r; lia).
    lia.
Qed.

End Mirror.

Section MirrorClaims.
Context {P : Platform}.
Variable net : network.

Lemma datagram_turn_copies (srv : sockaddr) (srv_len chunk_size times : Z)
    (f : bool) (c : counters) (p : proc) :
  datagram_never_fatal net srv srv_len ->
  let b := Z.of_nat (length (firstn (Z.to_nat chunk_size) (orig p))) in
  0 <= bytes_sent (after_chunk b c) ->
  Z.of_nat (length (copy (snd (datagram_turn net srv srv_len chunk_size
                                 times f c p))))
  <= Z.of_nat (length (copy p))
     + (if count (after_chunk b c) =? times
        then bytes_sent (after_chunk b c) else 0).
Proof.
  intros Hnet b Hsent. unfold datagram_turn.
  rewrite (bind_ok _ _ _ _ _
             (datagram_send_chunk_run net srv srv_len chunk_size c p
                (proj1 (Hnet (calls p)) _ _ _))).
  fold b. set (p1 := if 0 <? b then _ else _).
  assert (Hp1 : copy p1 = copy p) by (subst p1; now destruct (0 <? b)).
  unfold datagram_checkpoint.
  destruct (count (after_chunk b c) =? times); [|cbn; rewrite Hp1; lia].
  rewrite (bind_ok _ _ _ _ _ (call_mark_run f p1)). rewrite snd_bind_ret.
  pose proof (recv_write_copy_bound net srv srv_len
                (bytes_sent (after_chunk b c))
                (with_calls (marked f (calls p1)) p1)) as Hb.
  cbn [copy with_calls] in Hb. rewrite Hp1 in Hb. lia.
Qed.

Lemma stream_turn_copies (chunk_size times : Z) (f : bool) (c : counters)
    (p : proc) :
  stream_never_fatal net ->
  let b := Z.of_nat (length (firstn (Z.to_nat chunk_size) (orig p))) in
  0 <= bytes_sent (after_chunk b c) ->
  Z.of_nat (length (copy (snd (stream_turn net chunk_size times f c p))))
  <= Z.of_nat (length (copy p))
     + (if count (after_chunk b c) =? times
        then bytes_sent (after_chunk b c) else 0).
Proof.
  intros Hnet b Hsent. unfold stream_turn.
  rewrite (bind_ok _ _ _ _ _
             (stream_send_chunk_run net chunk_size c p (Hnet (calls p) _))).
  fold b. set (p1 := if 0 <? b then _ else _).
  assert (Hp1 : copy p1 = copy p) by (subst p1; now destruct (0 <? b)).
  unfold stream_checkpoint.
  destruct (count (after_chunk b c) =? times); [|cbn; rewrite Hp1; lia].
  rewrite (bind_ok _ _ _ _ _ (call_mark_run f p1)). rewrite snd_bind_ret.
  pose proof (read_write_copy_bound net (bytes_sent (after_chunk b c))
                (with_calls (marked f (calls p1)) p1) Hsent) as Hb.
  cbn [copy with_calls] in Hb. rewrite Hp1 in Hb. lia.
Qed.

(** X12. The mirror never outgrows the source.  With a positive chunk size
    and interval and batches that fit an [int], on a network on which
    nothing fatal happens, though batches may be lost or cut short, each
    engine returns and the copy it leaves is no longer than the file. *)
Theorem mirror_never_longer (srv : sockaddr) (srv_len : Z)
    (contents : list byte) (chunk_size times : Z) (f : bool) :
  0 < chunk_size -> 0 < times ->
  longest_batch contents chunk_size times <= INT_MAX ->
  (datagram_never_fatal net srv srv_len ->
   exists p,
     datagram_process_file net srv srv_len contents chunk_size times f start
     = (Ok tt, p) /\
     (length (copy p) <= length contents)%nat) /\
  (stream_never_fatal net ->
   exists p,
     stream_process_file net contents chunk_size times f start = (Ok tt, p) /\
     (length (copy p) <= length contents)%nat).
Proof.
  intros Hcs Ht Hfit. split; intros Hnet.
  - destruct (mirror_loop contents chunk_size times
                (datagram_turn net srv srv_len chunk_size times f)
                Hcs Ht Hfit
                (fun c p _ _ =>
                   datagram_turn_moves net srv srv_len chunk_size times f c p Hnet)
                (fun c p =>
                   datagram_turn_copies srv srv_len chunk_size times f c p Hnet)
                (opened contents) eq_refl eq_refl eq_refl)
      as (c & p1 & Hrun & Hpos & Hlen).
    unfold datagram_process_file.
    rewrite (bind_ok _ _ _ _ _ (fopen_both_run contents)).
    unfold datagram_loop. change {| count := 0; bytes_sent := 0 |} with zero_counters.
    rewrite (bind_ok _ _ _ _ _ Hrun). unfold datagram_flush.
    destruct (negb (count c =? 0)); [|exists p1; split; [reflexivity | lia]].
    rewrite (bind_ok _ _ _ _ _ (call_mark_run f p1)).
    destruct (recv_write_returns net srv srv_len (bytes_sent c)
                (with_calls (marked f (calls p1)) p1) Hnet) as (p2 & Hrw & _).
    exists p2. split; [exact Hrw|].
    pose proof (recv_write_copy_bound net srv srv_len (bytes_sent c)
                  (with_calls (marked f (calls p1)) p1)) as Hb.
    rewrite Hrw in Hb. cbn [snd copy with_calls] in Hb. lia.
  - destruct (mirror_loop contents chunk_size times
                (stream_turn net chunk_size times f)
                Hcs Ht Hfit
                (fun c p => stream_turn_moves net chunk_size times f c p Hnet)
                (fun c p => stream_turn_copies chunk_size times f c p Hnet)
                (opened contents) eq_refl eq_refl eq_refl)
      as (c & p1 & Hrun & Hpos & Hlen).
    unfold stream_process_file.
    rewrite (bind_ok _ _ _ _ _ (fopen_both_run contents)).
    unfold stream_loop. change {| count := 0; bytes_sent := 0 |} with zero_counters.
    rewrite (bind_ok _ _ _ _ _ Hrun). unfold stream_flush.
    destruct (negb (count c =? 0)); [|exists p1; split; [reflexivity | lia]].
    rewrite (bind_ok _ _ _ _ _ (call_mark_run f p1)).
    destruct (read_write_returns net (bytes_sent c)
                (with_calls (marked f (calls p1)) p1) Hpos) as (p2 & Hrw & _).
    exists p2. split; [exact Hrw|].
    pose proof (read_write_copy_bound net (bytes_sent c)
                  (with_calls (marked f (calls p1)) p1) Hpos) as Hb.
    rewrite Hrw in Hb. cbn [snd copy with_calls] in Hb. lia.
Qed.

End MirrorClaims.

(** ** Copying a descriptor to another *)

Lemma written_app (l1 l2 : list event) :
  written (l1 ++ l2) = written l2 ++ written l1.
Proof.
  induction l1 as [|e l1 IH]; cbn; [now rewrite app_nil_r|].
  destruct e; rewrite ?IH; try reflexivity. now rewrite app_assoc.
Qed.

Lemma received_app (l1 l2 : list event) :
  received (l1 ++ l2) = received l2 ++ received l1.
Proof.
  induction l1 as [|e l1 IH]; cbn; [now rewrite app_nil_r|].
  destruct e as [| | | |n [|d]|]; rewrite ?IH; try reflexivity.
  now rewrite app_assoc.
Qed.

Section CopyDataProperties.
Variable net : network.

Lemma copy_data_turn (fuel : nat) (p : proc) :
  copy_data net (S fuel) p =
  match read_result net (calls p) 2048 with
  | ReadErr =>
      (AssertFailed, with_calls (Read 2048 ReadErr :: calls p) p)
  | ReadBytes [] =>
      (Ok tt, with_calls (Read 2048 (ReadBytes []) :: calls p) p)
  | ReadBytes buf =>
      let h := Read 2048 (ReadBytes buf) :: calls p in
      let rc := net_write net h buf in
      if rc =? Z.of_nat (length buf)
      then copy_data net fuel (with_calls (Write buf rc :: h) p)
      else (AssertFailed, with_calls (Write buf rc :: h) p)
  end%Z.
Proof.
  cbn [copy_data]. unfold bind at 1. rewrite read_run.
  destruct (read_result net (calls p) 2048) as [|[|b buf]]; try reflexivity.
  set (data := b :: buf).
  assert (Hpos : (0 <? Z.of_nat (length data)) = true)
    by (apply Z.ltb_lt; cbn; lia).
  rewrite Hpos, Nat2Z.id, firstn_all.
  unfold write. unfold bind, log, ret, assert, lift. cbn [calls with_calls].
  destruct (_ =? _); reflexivity.
Qed.

(** X13. Whatever the two descriptors do, [copy_data] writes every chunk it
    reads before it reads again, and touches nothing else.  It returns
    only when a read finds the end of the source, with all that was read
    written; it dies of a failed assertion on a read error or on a write
    that did not take the whole chunk; it never exits. *)
Theorem copy_data_in_order (fuel : nat) (p : proc) :
  exists evs,
    only_calls evs p (snd (copy_data net fuel p)) /\
    match fst (copy_data net fuel p) with
    | Ok _ =>
        written evs = received evs /\
        exists h, evs = Read 2048 (ReadBytes []) :: h
    | AssertFailed =>
        (written evs = received evs /\
         exists h, evs = Read 2048 ReadErr :: h) \/
        (exists buf rc h,
           evs = Write buf rc :: Read 2048 (ReadBytes buf) :: h /\
           rc <> Z.of_nat (length buf) /\
           written h = received h)
    | OutOfFuel => written evs = received evs /\ length evs = (2 * fuel)%nat
    | Exited _ => False
    end.
Proof.
  revert p; induction fuel as [|fuel IH]; intros p.
  - exists []. split; [now destruct p|]. split; reflexivity.
  - rewrite copy_data_turn.
    destruct (read_result net (calls p) 2048) as [|[|b buf]].
    + exists [Read 2048 ReadErr]. split; [reflexivity|]. left.
      split; [reflexivity | now exists []].
    + exists [Read 2048 (ReadBytes [])]. split; [reflexivity|].
      split; [reflexivity | now exists []].
    + set (data := b :: buf). cbv zeta.
      set (h := Read 2048 (ReadBytes data) :: calls p).
      destruct (Z.eqb_spec (net_write net h data) (Z.of_nat (length data)))
        as [E|E].
      * destruct (IH (with_calls (Write data (net_write net h data) :: h) p))
          as (evs & Hcalls & Hr).
        set (w := Write data (net_write net h data)) in *.
        exists (evs ++ [w; Read 2048 (ReadBytes data)]).
        assert (Hw : forall l, written (l ++ [w; Read 2048 (ReadBytes data)])
                               = data ++ written l).
        { intros l. rewrite written_app. cbn.
          now rewrite E, Nat2Z.id, firstn_all. }
        assert (Hrcv : forall l, received (l ++ [w; Read 2048 (ReadBytes data)])
                                 = data ++ received l).
        { intros l. now rewrite received_app. }
        split.
        { unfold only_calls in *. rewrite Hcalls. cbn [calls with_calls].
          unfold with_calls. cbn. now rewrite <- app_assoc. }
        destruct (fst (copy_data net fuel _)) as [[]| | |].
        -- destruct Hr as (Hwr & h' & ->). split.
           ++ rewrite Hw, Hrcv. now f_equal.
           ++ eexists. reflexivity.
        -- destruct Hr as [(Hwr & h' & ->)|(buf' & rc' & h' & -> & Hrc & Hwr)].
           ++ left. split; [rewrite Hw, Hrcv; now f_equal|].
              eexists. reflexivity.
           ++ right. exists buf', rc', (h' ++ [w; Read 2048 (ReadBytes data)]).
              split; [reflexivity|]. split; [exact Hrc|].
              rewrite Hw, Hrcv. now f_equal.
        -- exact Hr.
        -- destruct Hr as [Hwr Hlen]. split.
           ++ rewrite Hw, Hrcv. now f_equal.
           ++ rewrite length_app, Hlen. cbn. lia.
      * exists [Write data (net_write net h data); Read 2048 (ReadBytes data)].
        split; [reflexivity|]. right. exists data, (net_write net h data), [].
        repeat split; auto.
Qed.

Lemma copy_data_drains (src : list byte) :
  source_of net src -> stream_never_fatal net ->
  forall fuel p,
    (length (left_of src (calls p)) < fuel)%nat ->
    exists evs,
      copy_data net fuel p = (Ok tt, with_calls (evs ++ calls p) p) /\
      written evs = left_of src (calls p) /\
      received evs = left_of src (calls p).
Proof.
  intros Hsrc Hwr. induction fuel as [|fuel IH]; intros p Hfuel; [lia|].
  rewrite copy_data_turn. unfold read_result.
  destruct (Hsrc (calls p) 2048) as (data & rest & -> & Hleft & Hne).
  destruct (firstn (Z.to_nat 2048) data) as [|b d] eqn:Ed.
  - assert (data = []) by (destruct data; [reflexivity | discriminate]).
    subst data. cbn in Hleft.
    destruct (left_of src (calls p)) as [|x l] eqn:El.
    + exists [Read 2048 (ReadBytes [])]. now repeat split.
    + exfalso. now apply Hne.
  - cbv zeta. rewrite <- Ed. set (chunk := firstn (Z.to_nat 2048) data).
    set (h := Read 2048 (ReadBytes chunk) :: calls p).
    rewrite Hwr, Z.eqb_refl.
    set (p1 := with_calls (Write chunk (Z.of_nat (length chunk)) :: h) p).
    assert (Hleft1 : left_of src (calls p)
                     = chunk ++ left_of src (calls p1)).
    { assert (Hl : left_of src (calls p)
                   = chunk ++ (skipn (Z.to_nat 2048) data ++ rest)).
      { rewrite Hleft. rewrite <- (firstn_skipn (Z.to_nat 2048) data) at 1.
        now rewrite <- app_assoc. }
      unfold p1, h. unfold left_of at 2. cbn [calls with_calls received].
      rewrite length_app, Nat.add_comm, <- skipn_skipn.
      fold (left_of src (calls p)). rewrite Hl at 2.
      rewrite skipn_app_length. exact Hl. }
    assert (Hchunk : (0 < length chunk)%nat)
      by (unfold chunk; rewrite Ed; cbn; lia).
    destruct (IH p1) as (evs & Hrun & Hw & Hr).
    { rewrite Hleft1, length_app in Hfuel. lia. }
    exists (evs ++ [Write chunk (Z.of_nat (length chunk));
                    Read 2048 (ReadBytes chunk)]).
    split; [|split].
    + rewrite Hrun. unfold p1, h, with_calls. cbn. now rewrite <- app_assoc.
    + rewrite written_app, Hw, Hleft1. cbn.
      now rewrite Nat2Z.id, firstn_all.
    + rewrite received_app, Hr, Hleft1. reflexivity.
Qed.

(** X14. From a source that delivers the bytes [src] and then ends, to a
    descriptor that takes every write in full, [copy_data] returns, and
    the bytes it has written are [src]: all of them, in order, once. *)
Theorem copy_data_copies (src : list byte) (p : proc) :
  source_of net src -> stream_never_fatal net ->
  received (calls p) = [] ->
  exists evs,
    copy_data net (S (length src)) p = (Ok tt, with_calls (evs ++ calls p) p) /\
    written evs = src.
Proof.
  intros Hsrc Hwr Hfresh.
  destruct (copy_data_drains src Hsrc Hwr (S (length src)) p) as (evs & Hrun & Hw & _).
  - unfold left_of. rewrite Hfresh. cbn. lia.
  - exists evs. split; [exact Hrun|]. rewrite Hw. unfold left_of.
    now rewrite Hfresh.
Qed.

End CopyDataProperties.

(** ** The name of the copy *)

Lemma substring_all (s : string) (n : nat) :
  (String.length s <= n)%nat -> substring 0 n s = s.
Proof.
  revert n; induction s as [|c s IH]; intros n Hn; cbn.
  - now destruct n.
  - destruct n; cbn in *; [lia|]. rewrite IH; [reflexivity | lia].
Qed.

(** X15. The copy is another file.  For a name that leaves room for the
    suffix in an [int], the assertion of [fopen_copy] holds and the file
    it opens is named as the original followed by [_echo], whole: it is
    never the original itself, and two originals never share a copy. *)
Theorem fopen_copy_name_appends (orig_name : string) :
  Z.of_nat (String.length orig_name) + 6 <= INT_MAX ->
  fopen_copy_name orig_name = Ok (orig_name ++ "_echo")%string /\
  (orig_name ++ "_echo")%string <> orig_name /\
  forall other, (other ++ "_echo")%string = (orig_name ++ "_echo")%string ->
                other = orig_name.
Proof.
  intros Hlen. split; [|split].
  - unfold fopen_copy_name, snprintf_ss, FILE_APPENDIX.
    rewrite append_length. cbn [String.length].
    rewrite to_int_small by (unfold INT_MAX in *; lia).
    rewrite Z.mod_small by (unfold INT_MAX in *; lia).
    rewrite substring_all by (rewrite append_length; cbn; lia).
    destruct (Z.leb_spec (Z.of_nat (String.length orig_name + 5)) INT_MAX);
      [|lia].
    destruct (Z.eqb_spec (Z.of_nat (String.length orig_name + 5))
                (Z.of_nat (String.length orig_name) + Z.of_nat 5 + 1 - 1));
      [reflexivity | lia].
  - now apply append_not_self.
  - induction other as [|c other IH] in orig_name |- *; intros E.
    + destruct orig_name as [|c' o]; [reflexivity|].
      apply (f_equal String.length) in E. cbn in E.
      rewrite append_length in E. cbn in E. lia.
    + destruct orig_name as [|c' o].
      * apply (f_equal String.length) in E. cbn in E.
        rewrite append_length in E. cbn in E. lia.
      * cbn in E. injection E as -> E. f_equal. now apply IH.
Qed.

(** ** Reading a command *)

Lemma byte_eqb_refl (a : byte) : Byte.eqb a a = true.
Proof. now apply Byte.byte_dec_lb. Qed.

Lemma byte_eqb_neq (a b : byte) : a <> b -> Byte.eqb a b = false.
Proof.
  intros H. destruct (Byte.eqb a b) eqn:E; [|reflexivity].
  apply Byte.byte_dec_bl in E. contradiction.
Qed.

Lemma byte_eqb_eq (a b : byte) : Byte.eqb a b = true <-> a = b.
Proof.
  split; [apply Byte.byte_dec_bl | apply Byte.byte_dec_lb].
Qed.

Lemma take_line_spec (n : nat) (s : list byte) :
  let line := fst (take_line n s) in
  let met_end := snd (take_line n s) in
  (length line <= n)%nat /\
  s = line ++ skipn (length line) s /\
  (forall i, (S i < length line)%nat -> nth i line NUL <> NL) /\
  (met_end = true -> line = s /\ (length s < n)%nat /\ ~ In NL s) /\
  (met_end = false -> (0 < n)%nat -> line <> []).
Proof.
  revert s; induction n as [|n IH]; intros s; cbn.
  - split; [lia|]. split; [reflexivity|]. split; [intros i Hi; cbn in Hi; lia|].
    split; [discriminate | lia].
  - destruct s as [|c s]; cbn.
    + split; [lia|]. split; [reflexivity|].
      split; [intros i Hi; cbn in Hi; lia|].
      split; [intros _; repeat split; [lia | tauto] | discriminate].
    + destruct (Byte.eqb c NL) eqn:Ec; cbn.
      * split; [lia|]. split; [reflexivity|].
        split; [intros i Hi; cbn in Hi; lia|].
        split; [discriminate | intros _ _; discriminate].
      * specialize (IH s). destruct (take_line n s) as [l e]. cbn in *.
        destruct IH as (Hlen & Hs & Hnl & Hend & Hne).
        split; [lia|]. split; [now rewrite <- Hs|]. split; [|split].
        -- intros [|i] Hi.
           ++ intros ->. now rewrite byte_eqb_refl in Ec.
           ++ apply Hnl. lia.
        -- intros H. destruct (Hend H) as (-> & Hl & Hin).
           split; [reflexivity|]. split; [lia|].
           intros [->|Hc]; [|contradiction].
           now rewrite byte_eqb_refl in Ec.
        -- intros _ _. discriminate.
Qed.

Lemma take_line_terminated (n : nat) (cmd rest : list byte) :
  ~ In NL cmd -> (length cmd < n)%nat ->
  take_line n (cmd ++ NL :: rest) = (cmd ++ [NL], false).
Proof.
  revert n; induction cmd as [|c cmd IH]; intros n Hnl Hlen; cbn in *.
  - destruct n; [lia|]. reflexivity.
  - destruct n; [lia|]. cbn.
    rewrite byte_eqb_neq by (intros ->; apply Hnl; now left).
    rewrite IH; [reflexivity | tauto | lia].
Qed.

Lemma take_line_full (n : nat) (cmd rest : list byte) :
  ~ In NL cmd -> length cmd = n ->
  take_line n (cmd ++ rest) = (cmd, false).
Proof.
  revert n; induction cmd as [|c cmd IH]; intros n Hnl Hlen; cbn in *.
  - now subst.
  - destruct n; [lia|]. cbn.
    rewrite byte_eqb_neq by (intros ->; apply Hnl; now left).
    rewrite IH; [reflexivity | tauto | lia].
Qed.

Lemma take_line_unterminated (n : nat) (cmd : list byte) :
  ~ In NL cmd -> (length cmd < n)%nat ->
  take_line n cmd = (cmd, true).
Proof.
  revert n; induction cmd as [|c cmd IH]; intros n Hnl Hlen; cbn in *.
  - destruct n; [lia|]. reflexivity.
  - destruct n; [lia|]. cbn.
    rewrite byte_eqb_neq by (intros ->; apply Hnl; now left).
    rewrite IH; [reflexivity | tauto | lia].
Qed.

Lemma strlen_le (s : list byte) : (strlen s <= length s)%nat.
Proof.
  induction s as [|c s IH]; cbn; [lia|]. destruct (Byte.eqb c NUL); lia.
Qed.

Lemma strlen_app_nul (s t : list byte) :
  ~ In NUL s -> strlen (s ++ NUL :: t) = length s.
Proof.
  induction s as [|c s IH]; intros H; cbn.
  - reflexivity.
  - rewrite byte_eqb_neq by (intros ->; apply H; now left).
    rewrite IH; [reflexivity|]. intros Hin. apply H. now right.
Qed.

(** The bytes before the terminator do not depend on what follows it. *)
Lemma strlen_terminated (s t : list byte) :
  strlen ((s ++ [NUL]) ++ t) = strlen (s ++ [NUL]) /\
  (strlen (s ++ [NUL]) <= length s)%nat.
Proof.
  induction s as [|c s IH]; cbn.
  - split; [reflexivity | lia].
  - destruct (Byte.eqb c NUL); [split; [reflexivity | lia]|].
    destruct IH as [-> IH]. split; [reflexivity | lia].
Qed.

Lemma strlen_no_nul (s : list byte) : ~ In NUL (c_str s).
Proof.
  unfold c_str. induction s as [|c s IH]; cbn; [tauto|].
  destruct (Byte.eqb c NUL) eqn:E; cbn; [tauto|].
  intros [->|H]; [|contradiction]. now rewrite byte_eqb_refl in E.
Qed.

Lemma c_str_length (s : list byte) : length (c_str s) = strlen s.
Proof.
  unfold c_str. rewrite length_firstn. pose proof (strlen_le s). lia.
Qed.

Lemma c_str_app_nul (s t : list byte) :
  ~ In NUL s -> c_str (s ++ NUL :: t) = s.
Proof.
  intros H. unfold c_str. rewrite (strlen_app_nul s t H).
  rewrite firstn_app, Nat.sub_diag, firstn_all. cbn. apply app_nil_r.
Qed.

Lemma strlen_set_nth (n : nat) (s : list byte) :
  (n <= strlen s)%nat -> strlen (set_nth n NUL s) = n.
Proof.
  revert n; induction s as [|c s IH]; intros n Hn; cbn in *.
  - destruct n; [reflexivity | lia].
  - destruct n as [|n]; cbn; [reflexivity|].
    destruct (Byte.eqb c NUL); [lia|]. rewrite IH; [reflexivity | lia].
Qed.

Lemma firstn_set_nth (n : nat) (c : byte) (s : list byte) :
  firstn n (set_nth n c s) = firstn n s.
Proof.
  revert n; induction s as [|b s IH]; intros [|n]; cbn; try reflexivity.
  now rewrite IH.
Qed.

Lemma c_str_set_nth (n : nat) (s : list byte) :
  (n <= strlen s)%nat -> c_str (set_nth n NUL s) = firstn n s.
Proof.
  intros H. unfold c_str. rewrite (strlen_set_nth n s H). apply firstn_set_nth.
Qed.

Lemma nth_c_str (i : nat) (s : list byte) :
  (i < strlen s)%nat -> nth i (c_str s) NUL = nth i s NUL.
Proof.
  unfold c_str. revert i; induction s as [|c s IH]; intros i Hi; cbn in *; [lia|].
  destruct (Byte.eqb c NUL); [lia|]. destruct i; cbn; [reflexivity|].
  apply IH. lia.
Qed.

Lemma strlen_set_nth_0 (b : list byte) : strlen (set_nth 0 NUL b) = O.
Proof. destruct b; reflexivity. Qed.

Lemma loop_post_step (len : Z) (k k1 : console) (r : result loop_exit)
    (k' : console) :
  (exists taken, stdin k = taken ++ stdin k1) ->
  stdin_fails k1 = stdin_fails k -> con_stderr k1 = con_stderr k ->
  loop_post len k1 r k' -> loop_post len k r k'.
Proof.
  intros [t1 Ht1] Hf He ([t2 Ht2] & Hf' & Hr).
  split; [|split].
  - exists (t1 ++ t2). now rewrite Ht1, Ht2, app_assoc.
  - congruence.
  - destruct r as [[b n|b]| | |]; try assumption.
    + destruct Hr as (Hn & Hpos & Hlt & Hnl & Herr).
      split; [exact Hn|]. split; [exact Hpos|]. split; [exact Hlt|].
      split; [exact Hnl | congruence].
    + destruct Hr as (? & ? & ?). repeat split; congruence.
    + destruct Hr as (? & ? & ?). repeat split; congruence.
Qed.

Lemma read_command_loop_post (fuel : nat) (len : Z) (buf : list byte)
    (k : console) :
  2 <= len -> (length (stdin k) < fuel)%nat ->
  loop_post len k (fst (read_command_loop fuel len buf k))
    (snd (read_command_loop fuel len buf k)).
Proof.
  intros Hlen. revert buf k; induction fuel as [|fuel IH]; intros buf k Hfuel;
    [lia|].
  cbn [read_command_loop]. unfold fgets.
  destruct (Z.leb_spec len 0) as [|_]; [lia|].
  pose proof (take_line_spec (Z.to_nat (len - 1)) (stdin k)) as Hspec.
  destruct (take_line (Z.to_nat (len - 1)) (stdin k)) as [line met_end].
  cbn [fst snd] in Hspec. destruct Hspec as (Hl & Hs & Hnl & Hend & Hne).
  assert (Htaken : exists taken,
            stdin k = taken ++ skipn (length line) (stdin k))
    by now exists line.
  (* the turns that find a line *)
  assert (Hline : line <> [] ->
    let s := store (line ++ [NUL]) buf in
    let k1 := {| stdin := skipn (length line) (stdin k);
                 stdin_eof := stdin_eof k || (met_end && negb (stdin_fails k));
                 stdin_fails := stdin_fails k;
                 con_stderr := con_stderr k |} in
    let r := if (strlen s =? 0)%nat then read_command_loop fuel len s k1
             else if (strlen s =? 1)%nat && Byte.eqb (nth 0 s NUL) NL
                  then read_command_loop fuel len s k1
                  else (Ok (Break s (strlen s)), k1) in
    loop_post len k (fst r) (snd r)).
  { intros Hne' s k1 r.
    assert (Hgo : loop_post len k (fst (read_command_loop fuel len s k1))
                    (snd (read_command_loop fuel len s k1))).
    { apply (loop_post_step len k k1); try reflexivity; [exact Htaken|].
      apply IH. subst k1. cbn [stdin]. pose proof (f_equal (@length byte) Hs) as Hs'.
      rewrite length_app in Hs'.
      assert (0 < length line)%nat by (destruct line; [contradiction | cbn; lia]).
      lia. }
    subst r. destruct (strlen s =? 0)%nat eqn:E0; [exact Hgo|].
    destruct ((strlen s =? 1)%nat && Byte.eqb (nth 0 s NUL) NL) eqn:E1;
      [exact Hgo|].
    cbn [fst snd]. split; [exact Htaken|]. split; [reflexivity|].
    destruct (strlen_terminated line (skipn (length (line ++ [NUL])) buf))
      as [Hn Hle].
    fold (store (line ++ [NUL]) buf) in Hn. fold s in Hn.
    apply Nat.eqb_neq in E0.
    split; [reflexivity|]. split; [lia|]. split; [lia|].
    split; [|reflexivity].
    intros i Hi Hnli.
    assert (Hnth : nth i s NUL = nth i line NUL).
    { unfold s, store. rewrite <- app_assoc. apply app_nth1. lia. }
    rewrite Hnth in Hnli.
    assert (Hlast : ~ (S i < length line)%nat)
      by (intros Hlt; exact (Hnl i Hlt Hnli)).
    split; [lia|].
    destruct (Nat.eq_dec (strlen s) 1) as [E|E]; [|lia].
    exfalso. assert (i = O) by lia. subst i.
    apply andb_false_iff in E1. destruct E1 as [E1|E1].
    - apply Nat.eqb_neq in E1. contradiction.
    - rewrite Hnth, Hnli, byte_eqb_refl in E1. discriminate. }
  destruct met_end; cbn [andb].
  - (* the input ran out *)
    destruct (Hend eq_refl) as (-> & Hshort & Hno).
    destruct (stdin_fails k) eqn:Hf; cbn [negb andb orb stdin_eof].
    + rewrite orb_false_r. destruct (stdin_eof k) eqn:He; cbn [fst snd];
        (split; [exact Htaken|]); (split; [cbn; congruence|]); cbn.
      * split; [reflexivity|]. split; [|reflexivity].
        destruct (Z.leb_spec 1 len); [apply strlen_set_nth_0 | lia].
      * now repeat split.
    + rewrite orb_true_r.
      destruct (length (stdin k) =? 0)%nat eqn:E0; cbn [fst snd stdin_eof].
      * split; [exact Htaken|]. split; [cbn; congruence|]. cbn.
        split; [reflexivity|]. split; [|reflexivity].
        destruct (Z.leb_spec 1 len); [apply strlen_set_nth_0 | lia].
      * (* the last line, without a newline *)
        apply Nat.eqb_neq in E0. specialize (Hline ltac:(now destruct (stdin k))).
        cbn zeta in Hline. cbn [negb andb] in Hline.
        rewrite orb_true_r in Hline. exact Hline.
  - rewrite orb_false_r.
    specialize (Hline (Hne eq_refl ltac:(lia))). cbn zeta in Hline.
    cbn [andb] in Hline. rewrite orb_false_r in Hline. exact Hline.
Qed.

Lemma fgets_line (len : Z) (buf : list byte) (k : console) (line : list byte) :
  1 <= len ->
  take_line (Z.to_nat (len - 1)) (stdin k) = (line, false) ->
  fgets len buf k
  = (true, store (line ++ [NUL]) buf,
     with_stdin (skipn (length line) (stdin k)) k).
Proof.
  intros Hlen Hline. unfold fgets, with_stdin.
  destruct (Z.leb_spec len 0); [lia|]. rewrite Hline. cbn [andb].
  now rewrite orb_false_r.
Qed.

Lemma with_stdin_twice (s t : list byte) (k : console) :
  with_stdin s (with_stdin t k) = with_stdin s k.
Proof. reflexivity. Qed.

(** Empty lines are skipped, one turn of the loop each. *)
Lemma read_command_loop_blanks (len : Z) (blanks rest : list byte) :
  2 <= len -> Forall (eq NL) blanks ->
  forall fuel buf k,
    stdin k = blanks ++ rest ->
    exists buf',
      read_command_loop (length blanks + fuel) len buf k
      = read_command_loop fuel len buf' (with_stdin rest k).
Proof.
  intros Hlen. induction 1 as [|c blanks <- _ IH]; intros fuel buf k Hk.
  - exists buf. cbn in *. rewrite <- Hk. now destruct k.
  - cbn [length Nat.add read_command_loop].
    rewrite (fgets_line len buf k [NL]); [|lia|].
    + cbn [length]. rewrite Hk. cbn [app skipn].
      replace (strlen (store ([NL] ++ [NUL]) buf)) with 1%nat by reflexivity.
      cbn [Nat.eqb andb store app nth]. cbn.
      destruct (IH fuel (NL :: NUL :: skipn 2 buf)
                  (with_stdin (blanks ++ rest) k) eq_refl) as [buf' E].
      exists buf'. exact E.
    + rewrite Hk. destruct (Z.to_nat (len - 1)) eqn:E; [lia|]. reflexivity.
Qed.

(** The state of the loop once the empty lines are past. *)
Lemma read_command_blanks (len : Z) (blanks rest : list byte)
    (buf : list byte) (k : console) :
  2 <= len -> Forall (eq NL) blanks -> stdin k = blanks ++ rest ->
  exists buf',
    read_command_loop (S (length (stdin k))) len buf k
    = read_command_loop (S (length rest)) len buf' (with_stdin rest k).
Proof.
  intros Hlen Hb Hk.
  destruct (read_command_loop_blanks len blanks rest Hlen Hb
              (S (length rest)) buf k Hk) as [buf' E].
  exists buf'. rewrite <- E. f_equal. rewrite Hk, length_app. lia.
Qed.

Lemma In_firstn_nth (n : nat) (b : list byte) (c : byte) :
  In c (firstn n b) -> exists i, (i < n)%nat /\ nth i b NUL = c.
Proof.
  revert b; induction n as [|n IH]; intros [|x b]; cbn; try tauto.
  intros [<-|H].
  - exists O. split; [lia | reflexivity].
  - destruct (IH b H) as (i & Hi & E). exists (S i). split; [lia | exact E].
Qed.

(** X16. [read_command] with room for at least one character: the final
    assertion never fails and the loop ends.  It returns 0 at the end of
    the input, leaving the empty string; or the length of the string it
    leaves, which is not empty, fits the array and holds no newline; or it
    exits with status 1, which takes a read error. *)
Theorem read_command_result (len : Z) (buf : list byte) (k : console) :
  2 <= len ->
  let r := fst (read_command len buf k) in
  let k' := snd (read_command len buf k) in
  (exists taken, stdin k = taken ++ stdin k') /\
  match r with
  | Ok (buf', n) =>
      con_stderr k' = con_stderr k /\
      Z.of_nat (strlen buf') = n /\
      ~ In NL (c_str buf') /\
      ((n = 0 /\ stdin_eof k' = true) \/ 0 < n < len)
  | Exited st => st = 1 /\ stdin_eof k' = false /\ stdin_fails k = true
  | AssertFailed | OutOfFuel => False
  end.
Proof.
  intros Hlen. unfold read_command.
  pose proof (read_command_loop_post (S (length (stdin k))) len buf k Hlen
                ltac:(lia)) as Hpost.
  destruct (read_command_loop (S (length (stdin k))) len buf k)
    as [[[b n|b]| | |] k1]; cbn [fst snd] in Hpost;
    destruct Hpost as (Htaken & Hfails & Hr); try contradiction.
  - (* break *)
    destruct Hr as (Hn & Hpos & Hlt & Hnl & Herr).
    destruct (Byte.eqb (nth (n - 1) b NUL) NL) eqn:Eshave.
    + apply byte_eqb_eq in Eshave.
      destruct (Hnl (n - 1)%nat ltac:(lia) Eshave) as [_ H2].
      destruct (Nat.ltb_spec 0 (n - 1)) as [_|]; [|lia]. cbn [fst snd].
      split; [exact Htaken|]. split; [exact Herr|].
      rewrite strlen_set_nth by lia. split; [reflexivity|].
      split; [|right; lia].
      rewrite c_str_set_nth by lia. intros Hin.
      destruct (In_firstn_nth _ _ _ Hin) as (i & Hi & E).
      destruct (Hnl i ltac:(lia) E). lia.
    + destruct (Nat.ltb_spec 0 n) as [_|]; [|lia]. cbn [fst snd].
      split; [exact Htaken|]. split; [exact Herr|].
      split; [now rewrite Hn|]. split; [|right; lia].
      unfold c_str. rewrite <- Hn. intros Hin.
      destruct (In_firstn_nth _ _ _ Hin) as (i & Hi & E).
      destruct (Hnl i Hi E) as [Hi' _].
      replace i with (n - 1)%nat in E by lia.
      rewrite E, byte_eqb_refl in Eshave. discriminate.
  - (* return 0 *)
    destruct Hr as (Heof & Hlen0 & Herr). cbn [fst snd].
    split; [exact Htaken|]. split; [exact Herr|].
    split; [now rewrite Hlen0|]. split; [|now left].
    unfold c_str. rewrite Hlen0. cbn. tauto.
  - cbn [fst snd]. split; [exact Htaken | exact Hr].
Qed.

(** X17. The next command.  Empty lines are skipped; the first line that is
    not empty and fits the array is returned without its newline, and the
    input is left right after that newline. *)
Theorem read_command_next_line (len : Z) (buf : list byte) (k : console)
    (blanks cmd rest : list byte) :
  2 <= len ->
  Forall (eq NL) blanks ->
  cmd <> [] -> ~ In NL cmd -> ~ In NUL cmd ->
  Z.of_nat (length cmd) <= len - 2 ->
  stdin k = blanks ++ cmd ++ NL :: rest ->
  exists buf',
    read_command len buf k
    = (Ok (buf', Z.of_nat (length cmd)), with_stdin rest k) /\
    c_str buf' = cmd.
Proof.
  intros Hlen Hb Hne Hnl Hnul Hfit Hk. unfold read_command.
  destruct (read_command_blanks len blanks (cmd ++ NL :: rest) buf k Hlen Hb Hk)
    as [buf1 ->].
  cbn [read_command_loop].
  rewrite (fgets_line len buf1 _ (cmd ++ [NL])); [|lia|];
    [|cbn [stdin with_stdin]; apply take_line_terminated; [exact Hnl | lia]].
  cbn [stdin with_stdin]. rewrite with_stdin_twice.
  replace (skipn (length (cmd ++ [NL])) (cmd ++ NL :: rest)) with rest
    by (change (cmd ++ NL :: rest) with (cmd ++ [NL] ++ rest);
        now rewrite app_assoc, skipn_app_length).
  set (s := store ((cmd ++ [NL]) ++ [NUL]) buf1).
  assert (Hs : s = cmd ++ NL :: NUL :: skipn (length ((cmd ++ [NL]) ++ [NUL])) buf1).
  { unfold s, store. now rewrite <- !app_assoc. }
  assert (Hlen_s : strlen s = S (length cmd)).
  { unfold s, store. rewrite <- app_assoc. cbn [app].
    rewrite strlen_app_nul; [rewrite length_app; cbn; lia|].
    intros Hin. apply in_app_or in Hin. destruct Hin as [Hin|[Hin|[]]];
      [contradiction | discriminate]. }
  rewrite Hlen_s.
  assert (Hcmd : (0 < length cmd)%nat) by (destruct cmd; [contradiction | cbn; lia]).
  destruct (Nat.eqb_spec (S (length cmd)) 0); [lia|].
  destruct (Nat.eqb_spec (S (length cmd)) 1); [lia|]. cbn [andb].
  replace (S (length cmd) - 1)%nat with (length cmd) by lia.
  assert (Hnth : nth (length cmd) s NUL = NL).
  { rewrite Hs. rewrite app_nth2 by lia. now rewrite Nat.sub_diag. }
  rewrite Hnth, byte_eqb_refl.
  destruct (Nat.ltb_spec 0 (length cmd)); [|lia].
  eexists. split; [reflexivity|].
  rewrite c_str_set_nth by lia.
  rewrite Hs, firstn_app, Nat.sub_diag, firstn_all. cbn. apply app_nil_r.
Qed.

(** X18. The last line of the input, when it has no newline, is a command
    as well: it is returned as it is and the end of the input is met. *)
Theorem read_command_last_line (len : Z) (buf : list byte) (k : console)
    (blanks cmd : list byte) :
  2 <= len ->
  Forall (eq NL) blanks ->
  cmd <> [] -> ~ In NL cmd -> ~ In NUL cmd ->
  Z.of_nat (length cmd) <= len - 2 ->
  stdin k = blanks ++ cmd ->
  stdin_fails k = false ->
  exists buf',
    read_command len buf k = (Ok (buf', Z.of_nat (length cmd)), at_end k) /\
    c_str buf' = cmd.
Proof.
  intros Hlen Hb Hne Hnl Hnul Hfit Hk Hf. unfold read_command.
  destruct (read_command_blanks len blanks cmd buf k Hlen Hb Hk) as [buf1 ->].
  cbn [read_command_loop]. unfold fgets.
  destruct (Z.leb_spec len 0); [lia|]. cbn [stdin with_stdin].
  rewrite take_line_unterminated by (auto; lia).
  cbn [stdin_fails stdin_eof with_stdin]. rewrite Hf. cbn [andb negb].
  assert (Hcmd : (0 < length cmd)%nat) by (destruct cmd; [contradiction | cbn; lia]).
  destruct (Nat.eqb_spec (length cmd) 0); [lia|]. cbn [andb].
  rewrite skipn_all, orb_true_r.
  set (s := store (cmd ++ [NUL]) buf1).
  assert (Hs : s = cmd ++ NUL :: skipn (length (cmd ++ [NUL])) buf1).
  { unfold s, store. now rewrite <- app_assoc. }
  assert (Hlen_s : strlen s = length cmd) by (rewrite Hs; now apply strlen_app_nul).
  rewrite Hlen_s.
  destruct (Nat.eqb_spec (length cmd) 0); [lia|].
  assert (Hlast : forall i, (i < length cmd)%nat -> nth i s NUL <> NL).
  { intros i Hi. rewrite Hs, app_nth1 by lia. intros E. apply Hnl.
    rewrite <- E. now apply nth_In. }
  rewrite (byte_eqb_neq (nth 0 s NUL) NL) by (apply Hlast; lia).
  rewrite andb_false_r.
  rewrite (byte_eqb_neq (nth (length cmd - 1) s NUL) NL) by (apply Hlast; lia).
  destruct (Nat.ltb_spec 0 (length cmd)); [|lia].
  exists s. split; [unfold at_end; now rewrite Hf|].
  rewrite Hs. now apply c_str_app_nul.
Qed.

(** X19. A line too long for the array is cut: [read_command] returns its
    first [len - 1] characters and leaves the rest of the line on the
    input, for the next call to return as a command of its own. *)
Theorem read_command_long_line (len : Z) (buf : list byte) (k : console)
    (blanks cmd rest : list byte) :
  2 <= len ->
  Forall (eq NL) blanks ->
  ~ In NL cmd -> ~ In NUL cmd ->
  Z.of_nat (length cmd) = len - 1 ->
  stdin k = blanks ++ cmd ++ rest ->
  exists buf',
    read_command len buf k = (Ok (buf', len - 1), with_stdin rest k) /\
    c_str buf' = cmd.
Proof.
  intros Hlen Hb Hnl Hnul Hfit Hk. unfold read_command.
  destruct (read_command_blanks len blanks (cmd ++ rest) buf k Hlen Hb Hk)
    as [buf1 ->].
  cbn [read_command_loop].
  rewrite (fgets_line len buf1 _ cmd); [|lia|];
    [|cbn [stdin with_stdin]; apply take_line_full; [exact Hnl | lia]].
  cbn [stdin with_stdin]. rewrite with_stdin_twice, skipn_app_length.
  set (s := store (cmd ++ [NUL]) buf1).
  assert (Hs : s = cmd ++ NUL :: skipn (length (cmd ++ [NUL])) buf1).
  { unfold s, store. now rewrite <- app_assoc. }
  assert (Hlen_s : strlen s = length cmd) by (rewrite Hs; now apply strlen_app_nul).
  rewrite Hlen_s.
  destruct (Nat.eqb_spec (length cmd) 0); [lia|].
  assert (Hlast : forall i, (i < length cmd)%nat -> nth i s NUL <> NL).
  { intros i Hi. rewrite Hs, app_nth1 by lia. intros E. apply Hnl.
    rewrite <- E. now apply nth_In. }
  rewrite (byte_eqb_neq (nth 0 s NUL) NL) by (apply Hlast; lia).
  rewrite andb_false_r.
  rewrite (byte_eqb_neq (nth (length cmd - 1) s NUL) NL) by (apply Hlast; lia).
  destruct (Nat.ltb_spec 0 (length cmd)); [|lia].
  exists s. split; [now rewrite Hfit|].
  rewrite Hs. now apply c_str_app_nul.
Qed.

(** X20. The end of the input.  When nothing but empty lines is left,
    [read_command] returns 0 and leaves the empty string. *)
Theorem read_command_end_of_input (len : Z) (buf : list byte) (k : console)
    (blanks : list byte) :
  2 <= len ->
  Forall (eq NL) blanks ->
  stdin k = blanks ->
  stdin_fails k = false ->
  exists buf',
    read_command len buf k = (Ok (buf', 0), at_end k) /\ c_str buf' = [].
Proof.
  intros Hlen Hb Hk Hf. unfold read_command.
  destruct (read_command_blanks len blanks [] buf k Hlen Hb
              ltac:(now rewrite app_nil_r)) as [buf1 ->].
  cbn [read_command_loop]. unfold fgets.
  destruct (Z.leb_spec len 0); [lia|]. cbn [stdin with_stdin].
  destruct (Z.to_nat (len - 1)) eqn:E; [lia|]. cbn [take_line].
  cbn [stdin_fails stdin_eof with_stdin]. rewrite Hf. cbn [andb negb length Nat.eqb skipn].
  rewrite orb_true_r. destruct (Z.leb_spec 1 len); [|lia].
  eexists. split; [unfold at_end; rewrite Hf; reflexivity|]. now destruct buf1.
Qed.

(** X21. A read error.  When the input fails before a line is complete and
    its end has not been met, [read_command] reports it on the standard
    error stream and exits with status 1; what was read of the line is
    dropped. *)
Theorem read_command_read_error (len : Z) (buf : list byte) (k : console)
    (blanks part : list byte) :
  2 <= len ->
  Forall (eq NL) blanks ->
  ~ In NL part ->
  Z.of_nat (length part) <= len - 2 ->
  stdin k = blanks ++ part ->
  stdin_fails k = true ->
  stdin_eof k = false ->
  read_command len buf k
  = (Exited 1,
     {| stdin := []; stdin_eof := false; stdin_fails := true;
        con_stderr := String.append (con_stderr k) "read_command: fgets" |}).
Proof.
  intros Hlen Hb Hnl Hfit Hk Hf He. unfold read_command.
  destruct (read_command_blanks len blanks part buf k Hlen Hb Hk) as [buf1 ->].
  cbn [read_command_loop]. unfold fgets.
  destruct (Z.leb_spec len 0); [lia|]. cbn [stdin with_stdin].
  rewrite take_line_unterminated by (auto; lia).
  cbn [stdin_fails stdin_eof with_stdin]. rewrite Hf, He. cbn [andb negb orb].
  cbn [stdin_eof]. unfold con_fprintf_stderr. cbn.
  now rewrite skipn_all.
Qed.

(** ** The command line *)

(** X22. [check_cli_params] returns exactly for the command lines of five
    words whose second is [datagram] or [stream] and whose third is [xip]
    or [ip]; it then returns 1 for [xip] and 0 for [ip], leaves 1 in
    [*pis_stream] for [stream] and 0 for [datagram], and prints nothing. *)
Theorem check_cli_params_accepts (is_xia0 is_stream0 : Z) (argv : list string)
    (is_xia is_stream : Z) (out : string) :
  check_cli_params is_xia0 is_stream0 argv = (Ok (is_xia, is_stream), out)
  <->
  exists prog kind family a b,
    argv = [prog; kind; family; a; b] /\
    (kind = "datagram"%string /\ is_stream = 0 \/
     kind = "stream"%string /\ is_stream = 1) /\
    (family = "xip"%string /\ is_xia = 1 \/
     family = "ip"%string /\ is_xia = 0) /\
    out = ""%string.
Proof.
  split.
  - unfold check_cli_params.
    destruct argv as [|prog [|kind [|family [|a [|b [|c argv]]]]]].
    6: { cbn -[String.eqb].
         destruct (String.eqb_spec kind "datagram") as [->|_];
           [|destruct (String.eqb_spec kind "stream") as [->|_]; [|discriminate]];
           (destruct (String.eqb_spec family "xip") as [->|_];
            [|destruct (String.eqb_spec family "ip") as [->|_]; [|discriminate]]);
           cbn; intros [= <- <- <-]; eexists _, _, _, _, _;
           (split; [reflexivity|]); intuition auto. }
    6: { set (l := prog :: kind :: family :: a :: b :: c :: argv).
         assert (H5 : (Z.of_nat (length l) =? 5) = false)
           by (apply Z.eqb_neq; cbn [length l]; lia).
         assert (H1 : (1 <? Z.of_nat (length l)) = true)
           by (apply Z.ltb_lt; cbn [length l]; lia).
         assert (H2 : (2 <? Z.of_nat (length l)) = true)
           by (apply Z.ltb_lt; cbn [length l]; lia).
         rewrite H1, H2, H5.
         destruct (String.eqb (arg l 1) "datagram");
           [|destruct (String.eqb (arg l 1) "stream"); [|discriminate]];
           (destruct (String.eqb (arg l 2) "xip");
            [|destruct (String.eqb (arg l 2) "ip"); [|discriminate]]);
           cbn; discriminate. }
    all: cbn -[String.eqb usage];
      repeat match goal with
             | |- context [String.eqb ?x ?y] => destruct (String.eqb x y)
             end;
      cbn -[usage]; try discriminate;
      destruct (is_xia0 =? 0); cbn; discriminate.
  - intros (prog & kind & family & a & b & -> & Hk & Hf & ->).
    unfold check_cli_params. cbn -[String.eqb].
    destruct Hk as [[-> ->]|[-> ->]]; destruct Hf as [[-> ->]|[-> ->]];
      reflexivity.
Qed.

(** X23. Every other command line ends the process: the usage, which names
    the program as [argv[0]] does, goes to the standard output and the
    exit status is 1.  What [is_xia] held before it was assigned makes no
    difference to the outcome, nor does what [*pis_stream] held. *)
Theorem check_cli_params_rejects (is_xia0 is_stream0 : Z) (argv : list string) :
  (forall is_xia1 is_stream1,
     check_cli_params is_xia0 is_stream0 argv
     = check_cli_params is_xia1 is_stream1 argv) /\
  ((forall v, fst (check_cli_params is_xia0 is_stream0 argv) <> Ok v) ->
   check_cli_params is_xia0 is_stream0 argv = (Exited 1, usage (arg argv 0))).
Proof.
  split.
  - intros is_xia1 is_stream1. unfold check_cli_params.
    destruct argv as [|prog [|kind [|family [|a [|b [|c argv]]]]]].
    7: { set (l := prog :: kind :: family :: a :: b :: c :: argv).
         assert (H5 : (Z.of_nat (length l) =? 5) = false)
           by (apply Z.eqb_neq; cbn [length l]; lia).
         assert (H1 : (1 <? Z.of_nat (length l)) = true)
           by (apply Z.ltb_lt; cbn [length l]; lia).
         assert (H2 : (2 <? Z.of_nat (length l)) = true)
           by (apply Z.ltb_lt; cbn [length l]; lia).
         rewrite H1, H2, H5. reflexivity. }
    all: cbn -[String.eqb usage];
      repeat match goal with
             | |- context [String.eqb ?x ?y] => destruct (String.eqb x y)
             end;
      cbn -[usage]; try reflexivity;
      destruct (is_xia0 =? 0), (is_xia1 =? 0); reflexivity.
  - intros Hno. unfold check_cli_params in *.
    destruct (if 1 <? Z.of_nat (length argv) then _ else _) as [is_stream|];
      [|reflexivity].
    destruct (if 2 <? Z.of_nat (length argv) then _ else _) as [is_xia|];
      [|reflexivity].
    destruct (_ || _); [|reflexivity].
    exfalso. eapply Hno. reflexivity.
Qed.

(** ** Setting up *)

Lemma sbind_ok {A B : Type} (m : SM A) (k : A -> SM B) (s s' : setup) (a : A) :
  m s = (Ok a, s') -> sbind m k s = k a s'.
Proof. unfold sbind. now intros ->. Qed.

Lemma skeeps_bind (I : setup -> Prop) {A B : Type} (m : SM A) (k : A -> SM B) :
  skeeps I m -> (forall a, skeeps I (k a)) -> skeeps I (sbind m k).
Proof.
  intros Hm Hk s Hs. specialize (Hm s Hs). unfold sbind.
  destruct (m s) as [[a| | |] s1]; cbn [snd] in *; try exact Hm.
  now apply Hk.
Qed.

Lemma skeeps_now (I : setup -> Prop) {A : Type} (m : SM A) :
  (forall s, I s -> exists r s', m s = (r, s') /\ I s') -> skeeps I m.
Proof. intros Hm s Hs. destruct (Hm s Hs) as (r & s' & -> & H'). exact H'. Qed.

Lemma skeeps_if (I : setup -> Prop) {A : Type} (b : bool) (m1 m2 : SM A) :
  skeeps I m1 -> skeeps I m2 -> skeeps I (if b then m1 else m2).
Proof. now destruct b. Qed.

Lemma skeeps_assert (I : setup -> Prop) (b : bool) : skeeps I (sassert b).
Proof. intros s Hs. unfold sassert. now destruct b. Qed.

Lemma skeeps_ret (I : setup -> Prop) {A : Type} (a : A) : skeeps I (sret a).
Proof. intros s Hs. exact Hs. Qed.

Section SetupProperties.
Context {P : Platform} {H : Headers}.
Variable sys : system.

Local Open Scope setup_scope.

(** *** The type numbers are looked up once *)

(** An invariant of the state that does not depend on the calls made nor
    on the standard error stream, and that loading the principal map
    keeps. *)
Section Statics.
Variable I : setup -> Prop.
Hypothesis I_calls :
  forall s h e,
    I s ->
    I {| ppal_map_loaded := ppal_map_loaded s; xidtype_xdp := xidtype_xdp s;
         xidtype_srvc := xidtype_srvc s; sys_calls := h; setup_stderr := e |}.
Hypothesis I_loaded :
  forall s v,
    I s ->
    I {| ppal_map_loaded := v; xidtype_xdp := xidtype_xdp s;
         xidtype_srvc := xidtype_srvc s; sys_calls := sys_calls s;
         setup_stderr := setup_stderr s |}.

Lemma skeeps_log (e : sys_event) : skeeps I (sys_log e).
Proof. intros s Hs. now apply I_calls. Qed.

Lemma skeeps_fprintf (msg : string) : skeeps I (sys_fprintf_stderr msg).
Proof. intros s Hs. now apply I_calls. Qed.

Lemma skeeps_load_ppal_map : skeeps I (load_ppal_map sys).
Proof.
  intros s Hs. unfold load_ppal_map.
  destruct (truthy (ppal_map_loaded s)); [exact Hs|].
  revert s Hs. apply skeeps_bind.
  - intros s Hs. now apply I_calls.
  - intros rc. apply skeeps_bind; [apply skeeps_assert|]. intros _ s Hs.
    now apply I_loaded.
Qed.

Lemma skeeps_socket (d t p : Z) : skeeps I (socket sys d t p).
Proof. intros s Hs. now apply I_calls. Qed.

Lemma skeeps_bind_socket (sock : Z) (a : sockaddr) (l : Z) :
  skeeps I (bind_socket sys sock a l).
Proof. intros s Hs. now apply I_calls. Qed.

Lemma skeeps_any_bind (is_xia force sock : Z) (a : sockaddr) (l : Z) :
  skeeps I (any_bind sys is_xia force sock a l).
Proof.
  unfold any_bind. apply skeeps_if; [|apply skeeps_ret].
  apply skeeps_bind; [apply skeeps_bind_socket|]. intros rc.
  apply skeeps_assert.
Qed.

Lemma skeeps_parse (str : list byte) : skeeps I (parse_and_validate_addr str).
Proof.
  unfold parse_and_validate_addr.
  destruct (xia_pton str) as [[rc addr] flag].
  repeat first [ apply skeeps_if
               | apply skeeps_bind; [|intros ?]
               | apply skeeps_fprintf
               | apply skeeps_assert
               | apply skeeps_ret ].
Qed.

Lemma skeeps_get_addr (is_xia : Z) (str1 str2 : option string) :
  skeeps I (__get_addr sys is_xia str1 str2).
Proof.
  unfold __get_addr, set_sockaddr_xia, set_sockaddr_in.
  apply skeeps_if.
  - apply skeeps_bind; [apply skeeps_assert|]. intros _.
    apply skeeps_bind; [|intros r; apply skeeps_bind;
                          [apply skeeps_assert | intros _; apply skeeps_ret]].
    apply skeeps_bind; [apply skeeps_load_ppal_map|]. intros _.
    destruct (sys_file sys _) as [contents|].
    + apply skeeps_bind; [apply skeeps_assert|]. intros _.
      apply skeeps_bind; [apply skeeps_parse | intros r; apply skeeps_ret].
    + apply skeeps_bind; [apply skeeps_fprintf | intros _; apply skeeps_ret].
  - apply skeeps_bind; [apply skeeps_assert|]. intros _.
    apply skeeps_bind; [|intros a; apply skeeps_ret].
    destruct str1 as [str|]; [|apply skeeps_ret].
    destruct (inet_aton str); [apply skeeps_ret|].
    apply skeeps_bind; [apply skeeps_assert | intros _; apply skeeps_ret].
Qed.

(** Given that the two lookups keep it too, every call keeps it. *)
Hypothesis I_xdp : skeeps I (get_xdp_type sys).
Hypothesis I_srvc : skeeps I (get_srvc_type sys).

Lemma skeeps_any_socket (is_xia is_stream : Z) :
  skeeps I (any_socket sys is_xia is_stream).
Proof.
  unfold any_socket. apply skeeps_bind.
  - apply skeeps_if; [|apply skeeps_ret].
    apply skeeps_bind; [|intros ty; apply skeeps_ret].
    apply skeeps_if; assumption.
  - intros protocol. apply skeeps_bind; [apply skeeps_socket|]. intros sock.
    apply skeeps_if; [|apply skeeps_ret].
    apply skeeps_bind; [apply skeeps_log | intros _; apply skeeps_ret].
Qed.

Lemma skeeps_run_calls (cs : list setup_call) : skeeps I (run_calls sys cs).
Proof.
  induction cs as [|c cs IH]; cbn [run_calls]; [apply skeeps_ret|].
  apply skeeps_bind; [|intros _; exact IH].
  destruct c; cbn [run_call];
    try (apply skeeps_bind; [|intros ?; apply skeeps_ret]);
    try assumption.
  - apply skeeps_any_socket.
  - apply skeeps_any_bind.
  - unfold get_cli_addr. apply skeeps_if; apply skeeps_get_addr.
  - unfold get_srv_addr. apply skeeps_if; apply skeeps_get_addr.
Qed.

End Statics.

Lemma get_xdp_type_cached (s : setup) :
  xidtype_xdp s <> XIDTYPE_NAT ->
  get_xdp_type sys s = (Ok (xidtype_xdp s), s).
Proof.
  intros Hne. unfold get_xdp_type.
  destruct (Z.eqb_spec (xidtype_xdp s) XIDTYPE_NAT); [contradiction|].
  reflexivity.
Qed.

Lemma get_srvc_type_cached (s : setup) :
  xidtype_srvc s <> XIDTYPE_NAT ->
  get_srvc_type sys s = (Ok (xidtype_srvc s), s).
Proof.
  intros Hne. unfold get_srvc_type.
  destruct (Z.eqb_spec (xidtype_srvc s) XIDTYPE_NAT); [contradiction|].
  reflexivity.
Qed.

(** What a lookup that returns leaves in its variable. *)
Lemma get_xdp_type_sets (s s1 : setup) (ty : Z) :
  get_xdp_type sys s = (Ok ty, s1) -> xidtype_xdp s1 = ty.
Proof.
  unfold get_xdp_type.
  destruct (negb (xidtype_xdp s =? XIDTYPE_NAT));
    [unfold sret; now intros [= <- <-]|].
  unfold sbind at 1.
  destruct (load_ppal_map sys s) as [[[]| | |] s0]; try discriminate.
  destruct (sys_ppal_name_to_type sys (sys_calls s0) "xdp" (xidtype_xdp s0))
    as [rc ty'].
  unfold sbind, sys_log, set_xidtype_xdp, sassert, sret. cbn.
  destruct (negb (truthy rc)); [|discriminate]. now intros [= <- <-].
Qed.

Lemma get_srvc_type_sets (s s1 : setup) (ty : Z) :
  get_srvc_type sys s = (Ok ty, s1) -> xidtype_srvc s1 = ty.
Proof.
  unfold get_srvc_type.
  destruct (negb (xidtype_srvc s =? XIDTYPE_NAT));
    [unfold sret; now intros [= <- <-]|].
  unfold sbind at 1.
  destruct (load_ppal_map sys s) as [[[]| | |] s0]; try discriminate.
  destruct (sys_ppal_name_to_type sys (sys_calls s0) "serval" (xidtype_srvc s0))
    as [rc ty'].
  unfold sbind, sys_log, set_xidtype_srvc, sassert, sret. cbn.
  destruct (negb (truthy rc)); [|discriminate]. now intros [= <- <-].
Qed.

Lemma get_srvc_type_keeps_xdp (ty : Z) :
  skeeps (fun s => xidtype_xdp s = ty) (get_srvc_type sys).
Proof.
  intros s Hs. unfold get_srvc_type.
  destruct (negb (xidtype_srvc s =? XIDTYPE_NAT)); [exact Hs|].
  apply (skeeps_bind (fun s => xidtype_xdp s = ty)); [| |exact Hs];
    [now apply skeeps_load_ppal_map|].
  clear s Hs. intros _ s Hs.
  destruct (sys_ppal_name_to_type sys (sys_calls s) "serval" (xidtype_srvc s))
    as [rc ty'].
  unfold sbind, sys_log, set_xidtype_srvc, sassert, sret. cbn.
  now destruct (negb (truthy rc)).
Qed.

Lemma get_xdp_type_keeps_srvc (ty : Z) :
  skeeps (fun s => xidtype_srvc s = ty) (get_xdp_type sys).
Proof.
  intros s Hs. unfold get_xdp_type.
  destruct (negb (xidtype_xdp s =? XIDTYPE_NAT)); [exact Hs|].
  apply (skeeps_bind (fun s => xidtype_srvc s = ty)); [| |exact Hs];
    [now apply skeeps_load_ppal_map|].
  clear s Hs. intros _ s Hs.
  destruct (sys_ppal_name_to_type sys (sys_calls s) "xdp" (xidtype_xdp s))
    as [rc ty'].
  unfold sbind, sys_log, set_xidtype_xdp, sassert, sret. cbn.
  now destruct (negb (truthy rc)).
Qed.

(** X24. The type numbers are looked up once.  Once [get_xdp_type] has
    returned a type that is not [XIDTYPE_NAT], then after any further
    calls of the set-up functions it returns that same type, without a
    call to the library and without a change to the process; and so does
    [get_srvc_type]. *)
Theorem principal_types_are_cached (s s1 : setup) (ty : Z)
    (cs : list setup_call) :
  ty <> XIDTYPE_NAT ->
  let s2 := snd (run_calls sys cs s1) in
  (get_xdp_type sys s = (Ok ty, s1) -> get_xdp_type sys s2 = (Ok ty, s2)) /\
  (get_srvc_type sys s = (Ok ty, s1) -> get_srvc_type sys s2 = (Ok ty, s2)).
Proof.
  intros Hne s2. split; intros Hrun.
  - assert (H2 : xidtype_xdp s2 = ty).
    { apply (skeeps_run_calls (fun s => xidtype_xdp s = ty)); auto.
      - intros s0 Hs0. rewrite get_xdp_type_cached by congruence. exact Hs0.
      - apply get_srvc_type_keeps_xdp.
      - now apply (get_xdp_type_sets s). }
    rewrite get_xdp_type_cached by congruence. now rewrite H2.
  - assert (H2 : xidtype_srvc s2 = ty).
    { apply (skeeps_run_calls (fun s => xidtype_srvc s = ty)); auto.
      - apply get_xdp_type_keeps_srvc.
      - intros s0 Hs0. rewrite get_srvc_type_cached by congruence. exact Hs0.
      - now apply (get_srvc_type_sets s). }
    rewrite get_srvc_type_cached by congruence. now rewrite H2.
Qed.

End SetupProperties.

(** *** The principal map is loaded once *)

Lemma map_inv_final (s : setup) :
  map_inv s ->
  lookups_after_init (sys_calls s) = true /\ (inits (sys_calls s) <= 1)%nat.
Proof.
  intros (Hl & Ht & Hf). split; [exact Hl|].
  destruct (truthy (ppal_map_loaded s)).
  - destruct (Ht eq_refl) as [-> _]. lia.
  - rewrite (Hf eq_refl). lia.
Qed.

Lemma keeps_map_bind {A B : Type} (m : SM A) (k : A -> SM B) :
  keeps_map m -> (forall a, keeps_map (k a)) -> keeps_map (sbind m k).
Proof.
  intros Hm Hk s Hs. destruct (Hm s Hs) as [Hfin Hlive]. unfold sbind.
  destruct (m s) as [[a| | |] s1]; cbn [fst snd] in *;
    try (split; [exact Hfin | discriminate]).
  apply Hk. now apply (Hlive a).
Qed.

(** What changes neither the flag nor the calls, but for calls that do
    not concern the map. *)
Lemma keeps_map_plain {A : Type} (m : SM A) :
  (forall s, exists evs,
     sys_calls (snd (m s)) = evs ++ sys_calls s /\
     forallb is_plain evs = true /\
     ppal_map_loaded (snd (m s)) = ppal_map_loaded s) ->
  keeps_map m.
Proof.
  intros Hm s Hs. destruct (Hm s) as (evs & Hc & Hp & Hl).
  assert (Hinv : map_inv (snd (m s))).
  { destruct Hs as (H1 & H2 & H3). unfold map_inv. rewrite Hc, Hl. clear Hc Hl.
    induction evs as [|e evs IH]; [exact (conj H1 (conj H2 H3))|].
    cbn [forallb] in Hp. apply andb_true_iff in Hp. destruct Hp as [He Hp].
    destruct (IH Hp) as (IH1 & IH2 & IH3).
    destruct e; try discriminate; cbn [app lookups_after_init inits];
      (split; [exact IH1|]); (split; [|exact IH3]);
      intros Ht; destruct (IH2 Ht) as [Hi Hz]; (split; [exact Hi|]);
      unfold initialised in *; cbn [existsb]; exact Hz. }
  split; [now apply map_inv_final | intros _ _; exact Hinv].
Qed.

Lemma keeps_map_if {A : Type} (b : bool) (m1 m2 : SM A) :
  keeps_map m1 -> keeps_map m2 -> keeps_map (if b then m1 else m2).
Proof. now destruct b. Qed.

Ltac plain_leaf :=
  apply keeps_map_plain; intros ?;
  first [ exists []; repeat split; reflexivity
        | eexists [_]; repeat split; reflexivity ].

Lemma keeps_map_ret {A : Type} (a : A) : keeps_map (sret a).
Proof. plain_leaf. Qed.

Lemma keeps_map_assert (b : bool) : keeps_map (sassert b).
Proof. destruct b; plain_leaf. Qed.

Lemma keeps_map_fprintf (msg : string) : keeps_map (sys_fprintf_stderr msg).
Proof. plain_leaf. Qed.

Section MapProperties.
Context {P : Platform} {H : Headers}.
Variable sys : system.

Local Open Scope setup_scope.

(** Loading the map, and what a load that returns guarantees. *)
Lemma load_ppal_map_loads (s : setup) :
  map_inv s ->
  (lookups_after_init (sys_calls (snd (load_ppal_map sys s))) = true /\
   (inits (sys_calls (snd (load_ppal_map sys s))) <= 1)%nat) /\
  (fst (load_ppal_map sys s) = Ok tt ->
   map_inv (snd (load_ppal_map sys s)) /\
   initialised (sys_calls (snd (load_ppal_map sys s))) = true).
Proof.
  intros Hs. pose proof (map_inv_final s Hs) as Hfin.
  destruct Hs as (H1 & H2 & H3). unfold load_ppal_map.
  destruct (truthy (ppal_map_loaded s)) eqn:Et.
  - split; [exact Hfin|]. intros _. split; [|now apply H2].
    unfold map_inv. cbn [sret snd]. rewrite Et. exact (conj H1 (conj H2 H3)).
  - specialize (H3 eq_refl).
    unfold sbind, init_ppal_map, sys_log, sassert, set_ppal_map_loaded, sret,
      truthy.
    cbn. destruct (Z.eqb_spec (sys_init_ppal_map sys (sys_calls s)) 0) as [E|E];
      cbn.
    + rewrite E. split; [split; [exact H1 | lia]|]. intros _.
      split; [|reflexivity]. unfold map_inv. cbn.
      split; [exact H1|]. split; [intros _; split; [lia | reflexivity]|].
      discriminate.
    + split; [split; [exact H1 | lia] | discriminate].
Qed.

Lemma keeps_map_load : keeps_map (load_ppal_map sys).
Proof.
  intros s Hs. destruct (load_ppal_map_loads s Hs) as [Hfin Hlive].
  split; [exact Hfin|]. intros [] Ha. now apply Hlive.
Qed.

Lemma keeps_map_lookup (name : string) (var : setup -> Z)
    (set : Z -> SM unit) :
  (forall v s, exists s',
     set v s = (Ok tt, s') /\ sys_calls s' = sys_calls s /\
     ppal_map_loaded s' = ppal_map_loaded s) ->
  keeps_map
    (load_ppal_map sys ;;
     (fun s1 =>
        let (rc, ty) := sys_ppal_name_to_type sys (sys_calls s1) name (var s1) in
        (sys_log (PpalNameToType name rc ty) ;;
         set ty ;;
         sassert (negb (truthy rc)) ;;
         sret ty) s1)).
Proof.
  intros Hset s Hs. destruct (load_ppal_map_loads s Hs) as [Hfin Hlive].
  unfold sbind.
  destruct (load_ppal_map sys s) as [[[]| | |] s1]; cbn [fst snd] in *;
    try (split; [exact Hfin | discriminate]).
  destruct (Hlive eq_refl) as [(H1 & H2 & H3) Hinit].
  destruct (sys_ppal_name_to_type sys (sys_calls s1) name (var s1)) as [rc ty].
  cbn [sys_log].
  set (s2 := {| ppal_map_loaded := ppal_map_loaded s1; xidtype_xdp := _;
                xidtype_srvc := _; sys_calls := _; setup_stderr := _ |}).
  destruct (Hset ty s2) as (s3 & Hrun & Hc & Hl). rewrite Hrun.
  assert (Hinv : map_inv s3).
  { unfold map_inv. rewrite Hc, Hl. cbn [s2 sys_calls ppal_map_loaded].
    cbn [lookups_after_init inits]. rewrite Hinit, H1.
    split; [reflexivity|]. split; [|exact H3].
    intros Ht. destruct (H2 Ht) as [Hi _]. split; [exact Hi|].
    unfold initialised in *. cbn [existsb]. exact Hinit. }
  unfold sassert, sret.
  destruct (negb (truthy rc)); cbn [fst snd].
  - split; [now apply map_inv_final | intros _ _; exact Hinv].
  - split; [now apply map_inv_final | discriminate].
Qed.

Lemma keeps_map_get_xdp_type : keeps_map (get_xdp_type sys).
Proof.
  intros s Hs. unfold get_xdp_type.
  destruct (negb (xidtype_xdp s =? XIDTYPE_NAT)).
  - now apply keeps_map_ret.
  - apply (keeps_map_lookup "xdp" xidtype_xdp set_xidtype_xdp); [|exact Hs].
    intros v s0. eexists. repeat split.
Qed.

Lemma keeps_map_get_srvc_type : keeps_map (get_srvc_type sys).
Proof.
  intros s Hs. unfold get_srvc_type.
  destruct (negb (xidtype_srvc s =? XIDTYPE_NAT)).
  - now apply keeps_map_ret.
  - apply (keeps_map_lookup "serval" xidtype_srvc set_xidtype_srvc); [|exact Hs].
    intros v s0. eexists. repeat split.
Qed.

Lemma keeps_map_any_socket (is_xia is_stream : Z) :
  keeps_map (any_socket sys is_xia is_stream).
Proof.
  unfold any_socket. apply keeps_map_bind.
  - apply keeps_map_if; [|apply keeps_map_ret].
    apply keeps_map_bind; [|intros ty; apply keeps_map_ret].
    apply keeps_map_if;
      [apply keeps_map_get_srvc_type | apply keeps_map_get_xdp_type].
  - intros protocol. apply keeps_map_bind; [unfold socket; plain_leaf|].
    intros sock. apply keeps_map_if; [|apply keeps_map_ret].
    apply keeps_map_bind; [plain_leaf | intros _; apply keeps_map_ret].
Qed.

Lemma keeps_map_any_bind (is_xia force sock : Z) (a : sockaddr) (l : Z) :
  keeps_map (any_bind sys is_xia force sock a l).
Proof.
  unfold any_bind. apply keeps_map_if; [|apply keeps_map_ret].
  apply keeps_map_bind; [unfold bind_socket; plain_leaf|]. intros rc.
  apply keeps_map_assert.
Qed.

Lemma keeps_map_parse (str : list byte) :
  keeps_map (parse_and_validate_addr str).
Proof.
  unfold parse_and_validate_addr.
  destruct (xia_pton str) as [[rc addr] flag].
  repeat first [ apply keeps_map_if
               | apply keeps_map_bind; [|intros ?]
               | apply keeps_map_fprintf
               | apply keeps_map_assert
               | apply keeps_map_ret ].
Qed.

Lemma keeps_map_get_addr (is_xia : Z) (str1 str2 : option string) :
  keeps_map (__get_addr sys is_xia str1 str2).
Proof.
  unfold __get_addr, set_sockaddr_xia, set_sockaddr_in.
  apply keeps_map_if.
  - apply keeps_map_bind; [apply keeps_map_assert|]. intros _.
    apply keeps_map_bind; [|intros r; apply keeps_map_bind;
                          [apply keeps_map_assert | intros _; apply keeps_map_ret]].
    apply keeps_map_bind; [apply keeps_map_load|]. intros _.
    destruct (sys_file sys _) as [contents|].
    + apply keeps_map_bind; [apply keeps_map_assert|]. intros _.
      apply keeps_map_bind; [apply keeps_map_parse | intros r; apply keeps_map_ret].
    + apply keeps_map_bind; [apply keeps_map_fprintf | intros _; apply keeps_map_ret].
  - apply keeps_map_bind; [apply keeps_map_assert|]. intros _.
    apply keeps_map_bind; [|intros a; apply keeps_map_ret].
    destruct str1 as [str|]; [|apply keeps_map_ret].
    destruct (inet_aton str); [apply keeps_map_ret|].
    apply keeps_map_bind; [apply keeps_map_assert | intros _; apply keeps_map_ret].
Qed.

Lemma keeps_map_run_calls (cs : list setup_call) : keeps_map (run_calls sys cs).
Proof.
  induction cs as [|c cs IH]; cbn [run_calls]; [apply keeps_map_ret|].
  apply keeps_map_bind; [|intros _; exact IH].
  destruct c; cbn [run_call];
    try (apply keeps_map_bind; [|intros ?; apply keeps_map_ret]).
  - apply keeps_map_get_xdp_type.
  - apply keeps_map_get_srvc_type.
  - apply keeps_map_any_socket.
  - apply keeps_map_any_bind.
  - unfold get_cli_addr. apply keeps_map_if; apply keeps_map_get_addr.
  - unfold get_srv_addr. apply keeps_map_if; apply keeps_map_get_addr.
Qed.

(** X25. The principal map is loaded once.  Whatever set-up calls a
    process makes from its start, and whatever their outcome,
    [init_ppal_map] has been called once at most, and no principal name
    was looked up before it had succeeded. *)
Theorem principal_map_loaded_once (cs : list setup_call) :
  let s := snd (run_calls sys cs fresh) in
  (inits (sys_calls s) <= 1)%nat /\
  lookups_after_init (sys_calls s) = true.
Proof.
  intros s.
  destruct (keeps_map_run_calls cs fresh) as [[Hl Hi] _].
  - unfold map_inv, fresh, truthy. cbn. repeat split; try discriminate.
  - split; assumption.
Qed.

End MapProperties.

(** *** Sockets *)

Section SocketProperties.
Context {P : Platform} {H : Headers}.
Variable sys : system.

Local Open Scope setup_scope.

Lemma adds_no_socket_bind {A B : Type} (m : SM A) (k : A -> SM B) :
  adds_no_socket m -> (forall a, adds_no_socket (k a)) ->
  adds_no_socket (sbind m k).
Proof.
  intros Hm Hk s. destruct (Hm s) as (evs & Hc & Hn). unfold sbind.
  destruct (m s) as [[a| | |] s1]; cbn [snd] in *; try (now exists evs).
  destruct (Hk a s1) as (evs' & Hc' & Hn'). exists (evs' ++ evs).
  split; [now rewrite Hc', Hc, app_assoc|].
  intros e Hin. apply in_app_or in Hin. destruct Hin; auto.
Qed.

Lemma adds_no_socket_now {A : Type} (m : SM A) (evs : list sys_event) :
  (forall s, sys_calls (snd (m s)) = evs ++ sys_calls s) ->
  forallb (fun e => negb (is_socket_call e)) evs = true ->
  adds_no_socket m.
Proof.
  intros Hc Hn s. exists evs. split; [apply Hc|].
  intros e Hin. rewrite forallb_forall in Hn. specialize (Hn e Hin).
  now destruct (is_socket_call e).
Qed.

Lemma returns_or_aborts_bind {A B : Type} (m : SM A) (k : A -> SM B) :
  returns_or_aborts m -> (forall a, returns_or_aborts (k a)) ->
  returns_or_aborts (sbind m k).
Proof.
  intros Hm Hk s. specialize (Hm s). unfold sbind.
  destruct (m s) as [[a| | |] s1]; cbn [fst] in *; try exact Hm. apply Hk.
Qed.

Lemma returns_or_aborts_load : returns_or_aborts (load_ppal_map sys).
Proof.
  intros s. unfold load_ppal_map.
  destruct (truthy (ppal_map_loaded s)); [exact I|].
  unfold sbind, init_ppal_map, sys_log, sassert, set_ppal_map_loaded, sret.
  cbn. now destruct (negb (truthy _)).
Qed.

Lemma returns_or_aborts_get_xdp_type : returns_or_aborts (get_xdp_type sys).
Proof.
  intros s. unfold get_xdp_type.
  destruct (negb (xidtype_xdp s =? XIDTYPE_NAT)); [exact I|].
  revert s. apply returns_or_aborts_bind; [apply returns_or_aborts_load|].
  intros _ s.
  destruct (sys_ppal_name_to_type sys (sys_calls s) "xdp" (xidtype_xdp s))
    as [rc ty].
  unfold sbind, sys_log, set_xidtype_xdp, sassert, sret. cbn.
  now destruct (negb (truthy rc)).
Qed.

Lemma returns_or_aborts_get_srvc_type : returns_or_aborts (get_srvc_type sys).
Proof.
  intros s. unfold get_srvc_type.
  destruct (negb (xidtype_srvc s =? XIDTYPE_NAT)); [exact I|].
  revert s. apply returns_or_aborts_bind; [apply returns_or_aborts_load|].
  intros _ s.
  destruct (sys_ppal_name_to_type sys (sys_calls s) "serval" (xidtype_srvc s))
    as [rc ty].
  unfold sbind, sys_log, set_xidtype_srvc, sassert, sret. cbn.
  now destruct (negb (truthy rc)).
Qed.

Lemma adds_no_socket_load : adds_no_socket (load_ppal_map sys).
Proof.
  intros s. unfold load_ppal_map.
  destruct (truthy (ppal_map_loaded s)).
  - exists []. split; [reflexivity | intros e []].
  - exists [InitPpalMap (sys_init_ppal_map sys (sys_calls s))].
    split; [|intros e [<-|[]]; reflexivity].
    unfold sbind, init_ppal_map, sys_log, sassert, set_ppal_map_loaded, sret.
    cbn. now destruct (negb (truthy _)).
Qed.

Lemma adds_no_socket_get_xdp_type : adds_no_socket (get_xdp_type sys).
Proof.
  intros s. unfold get_xdp_type.
  destruct (negb (xidtype_xdp s =? XIDTYPE_NAT));
    [exists []; split; [reflexivity | intros e []]|].
  revert s. apply adds_no_socket_bind; [apply adds_no_socket_load|].
  intros _ s.
  destruct (sys_ppal_name_to_type sys (sys_calls s) "xdp" (xidtype_xdp s))
    as [rc ty] eqn:E.
  exists [PpalNameToType "xdp" rc ty]. split; [|intros e [<-|[]]; reflexivity].
  unfold sbind, sys_log, set_xidtype_xdp, sassert, sret. cbn.
  now destruct (negb (truthy rc)).
Qed.

Lemma adds_no_socket_get_srvc_type : adds_no_socket (get_srvc_type sys).
Proof.
  intros s. unfold get_srvc_type.
  destruct (negb (xidtype_srvc s =? XIDTYPE_NAT));
    [exists []; split; [reflexivity | intros e []]|].
  revert s. apply adds_no_socket_bind; [apply adds_no_socket_load|].
  intros _ s.
  destruct (sys_ppal_name_to_type sys (sys_calls s) "serval" (xidtype_srvc s))
    as [rc ty] eqn:E.
  exists [PpalNameToType "serval" rc ty].
  split; [|intros e [<-|[]]; reflexivity].
  unfold sbind, sys_log, set_xidtype_srvc, sassert, sret. cbn.
  now destruct (negb (truthy rc)).
Qed.

(** X26. [any_socket].  For IP it never fails: it makes one call of
    [socket] for TCP or UDP, sets [SO_REUSEADDR] on the socket exactly
    when there is one, returns what [socket] returned, negative or not,
    and leaves the principal map alone.  For XIA the protocol is the
    principal type the process holds for the kind of socket, and the
    only way to fail is a failed assertion before any socket is made. *)
Theorem any_socket_outcome (is_xia is_stream : Z) (s : setup) :
  let type := if truthy is_stream then SOCK_STREAM else SOCK_DGRAM in
  let r := fst (any_socket sys is_xia is_stream s) in
  let s' := snd (any_socket sys is_xia is_stream s) in
  if truthy is_xia then
    match r with
    | Ok sock =>
        let ty := if truthy is_stream then xidtype_srvc s' else xidtype_xdp s' in
        exists evs,
          sys_calls s' = Socket AF_XIA type (to_int ty) sock :: evs ++ sys_calls s /\
          no_socket evs
    | AssertFailed =>
        exists evs, sys_calls s' = evs ++ sys_calls s /\ no_socket evs
    | Exited _ | OutOfFuel => False
    end
  else
    let protocol := if truthy is_stream then IPPROTO_TCP else IPPROTO_UDP in
    let sock := sys_socket sys (sys_calls s) AF_INET type protocol in
    r = Ok sock /\
    s' = with_sys_calls
           ((if 0 <=? sock then [Setsockopt sock SOL_SOCKET SO_REUSEADDR 1]
             else []) ++ Socket AF_INET type protocol sock :: sys_calls s) s.
Proof.
  intros type r s'. subst r s'. unfold any_socket.
  destruct (truthy is_xia) eqn:Ex; cbn [negb andb].
  - fold type.
    set (get := if truthy is_stream then get_srvc_type sys
                else get_xdp_type sys).
    assert (Hget : adds_no_socket get)
      by (subst get; destruct (truthy is_stream);
          [apply adds_no_socket_get_srvc_type | apply adds_no_socket_get_xdp_type]).
    assert (Hnx : returns_or_aborts get)
      by (subst get; destruct (truthy is_stream);
          [apply returns_or_aborts_get_srvc_type
          |apply returns_or_aborts_get_xdp_type]).
    assert (Hty : forall ty s1, get s = (Ok ty, s1) ->
              (if truthy is_stream then xidtype_srvc s1 else xidtype_xdp s1) = ty).
    { intros ty s1. subst get. destruct (truthy is_stream).
      - apply get_srvc_type_sets.
      - apply get_xdp_type_sets. }
    destruct (Hget s) as (evs & Hc & Hn).
    unfold sbind, socket, sys_log, sret.
    destruct (get s) as [[ty| | |] s1] eqn:Eg; cbn [fst snd] in *.
    + exists evs. cbn. rewrite (Hty ty s1 eq_refl), Hc. now split.
    + now exists evs.
    + pose proof (Hnx s) as Hx. rewrite Eg in Hx. exact Hx.
    + pose proof (Hnx s) as Hx. rewrite Eg in Hx. exact Hx.
  - fold type. cbv zeta.
    set (protocol := if truthy is_stream then IPPROTO_TCP else IPPROTO_UDP).
    unfold sbind, socket, sys_log, sret, with_sys_calls. cbn.
    destruct (0 <=? sys_socket sys (sys_calls s) AF_INET type protocol);
      split; reflexivity.
Qed.

End SocketProperties.

(** *** Addresses *)

Section XiaAddresses.
Context {P : Platform} {H : Headers}.
Variable sys : system.

Local Open Scope setup_scope.

(** What [parse_and_validate_addr] returns, one case for each way
    through it. *)
Lemma parse_and_validate_addr_cases (str : list byte) (s : setup) :
  let rc0 := fst (fst (xia_pton str)) in
  let addr := snd (fst (xia_pton str)) in
  let flag := snd (xia_pton str) in
  match fst (parse_and_validate_addr str s) with
  | Ok (rc, a) =>
      a = addr /\
      (rc = 0 <-> 0 <= rc0 /\ 0 <= xia_test_addr addr /\ flag = 0)
  | AssertFailed => 0 <= rc0 /\ xia_test_addr addr < 0
  | Exited _ | OutOfFuel => False
  end.
Proof.
  unfold parse_and_validate_addr.
  destruct (xia_pton str) as [[rc0 addr] flag]. cbn [fst snd].
  unfold sbind, sassert, sret, truthy.
  destruct (Z.ltb_spec rc0 0) as [Hrc|Hrc]; cbn [fst snd sys_fprintf_stderr].
  - split; [reflexivity | lia].
  - destruct (Z.ltb_spec (xia_test_addr addr) 0) as [Ht|Ht].
    + destruct (Z.leb_spec 0 (xia_ntop addr)) as [Hn|Hn];
        cbn [fst snd sys_fprintf_stderr].
      * split; [reflexivity | lia].
      * split; lia.
    + destruct (Z.eqb_spec flag 0) as [Hf|Hf];
        cbn [negb fst snd sys_fprintf_stderr].
      * split; [reflexivity | lia].
      * split; [reflexivity | lia].
Qed.

(** X27. [parse_and_validate_addr] never returns a positive number.  It
    returns 0 exactly when the address parses, passes [xia_test_addr] and
    has no invalid flag, and that is also exactly when it writes nothing
    to the standard error stream; the one way it does not return is a
    failed assertion, when an address that fails the test cannot be
    printed either. *)
Theorem parse_and_validate_addr_result (str : list byte) (s : setup) :
  let rc0 := fst (fst (xia_pton str)) in
  let addr := snd (fst (xia_pton str)) in
  let flag := snd (xia_pton str) in
  match parse_and_validate_addr str s with
  | (Ok (rc, a), s') =>
      a = addr /\ rc <= 0 /\
      (rc = 0 <-> 0 <= rc0 /\ 0 <= xia_test_addr addr /\ flag = 0) /\
      (rc = 0 -> s' = s) /\
      (rc < 0 ->
       exists msg, msg <> ""%string /\ s' = snd (sys_fprintf_stderr msg s))
  | (AssertFailed, s') =>
      0 <= rc0 /\ xia_test_addr addr < 0 /\ xia_ntop addr < 0 /\ s' = s
  | (Exited _, _) | (OutOfFuel, _) => False
  end.
Proof.
  unfold parse_and_validate_addr.
  destruct (xia_pton str) as [[rc0 addr] flag]. cbn [fst snd].
  unfold sbind, sassert, sret, truthy.
  destruct (Z.ltb_spec rc0 0) as [Hrc|Hrc]; cbn [fst snd sys_fprintf_stderr].
  - split; [reflexivity|]. split; [lia|]. split; [lia|]. split; [lia|].
    intros _. eexists. split; [|reflexivity]. discriminate.
  - destruct (Z.ltb_spec (xia_test_addr addr) 0) as [Ht|Ht].
    + destruct (Z.leb_spec 0 (xia_ntop addr)) as [Hn|Hn];
        cbn [fst snd sys_fprintf_stderr].
      * split; [reflexivity|]. split; [lia|]. split; [lia|]. split; [lia|].
        intros _. eexists. split; [|reflexivity]. discriminate.
      * repeat split; lia.
    + destruct (Z.eqb_spec flag 0) as [Hf|Hf];
        cbn [negb fst snd sys_fprintf_stderr].
      * split; [reflexivity|]. split; [lia|]. split; [lia|].
        split; [reflexivity | lia].
      * split; [reflexivity|]. split; [lia|]. split; [lia|]. split; [lia|].
        intros _. eexists. split; [|reflexivity]. discriminate.
Qed.

Lemma load_ppal_map_run (s : setup) :
  load_ppal_map sys s =
  if truthy (ppal_map_loaded s) then (Ok tt, s)
  else
    let rc := sys_init_ppal_map sys (sys_calls s) in
    let s1 := with_sys_calls (InitPpalMap rc :: sys_calls s) s in
    if rc =? 0
    then (Ok tt, {| ppal_map_loaded := 1; xidtype_xdp := xidtype_xdp s;
                    xidtype_srvc := xidtype_srvc s; sys_calls := sys_calls s1;
                    setup_stderr := setup_stderr s |})
    else (AssertFailed, s1).
Proof.
  unfold load_ppal_map. destruct (truthy (ppal_map_loaded s)); [reflexivity|].
  unfold sbind, init_ppal_map, sys_log, sassert, set_ppal_map_loaded, sret,
    truthy. cbn.
  now destruct (_ =? 0).
Qed.

(** X28. An XIA address is returned only once it is checked.
    [__get_addr] returns an XIA address exactly when the principal map is
    or can be loaded, the file is there and shorter than 4096 bytes, and
    its text, up to the first NUL, parses into an address that passes
    [xia_test_addr] without an invalid flag; the address returned is that
    one, its family is [AF_XIA] and [*plen] the size of a
    [struct sockaddr_xia].  In every other case the process dies. *)
Theorem get_addr_xia_checked (is_xia : Z) (file : string)
    (str2 : option string) (s : setup) (a : address) (len : Z) :
  truthy is_xia = true ->
  sys_errno sys file <> 0 ->
  (exists s', __get_addr sys is_xia (Some file) str2 s = (Ok (a, len), s'))
  <->
  (sizeof_sockaddr_xia <= sizeof_sockaddr_storage /\
   (truthy (ppal_map_loaded s) = true \/
    sys_init_ppal_map sys (sys_calls s) = 0) /\
   exists contents rc addr,
     sys_file sys file = Some contents /\
     Z.of_nat (length contents) < BUFSIZE /\
     xia_pton (c_str (contents ++ [NUL])) = (rc, addr, 0) /\
     0 <= rc /\ 0 <= xia_test_addr addr /\
     a = XiaAddress AF_XIA addr /\ len = sizeof_sockaddr_xia).
Proof.
  intros Hx Herrno. unfold __get_addr, set_sockaddr_xia. rewrite Hx.
  unfold sbind at 1. unfold sassert at 1.
  destruct (Z.leb_spec sizeof_sockaddr_xia sizeof_sockaddr_storage) as [Hsz|Hsz];
    [|split; [intros [s' E]; discriminate | lia]].
  unfold sbind at 1 2. rewrite load_ppal_map_run.
  assert (Hfirstn : forall contents : list byte,
            Z.of_nat (length (firstn (Z.to_nat BUFSIZE) contents)) < BUFSIZE ->
            firstn (Z.to_nat BUFSIZE) contents = contents /\
            Z.of_nat (length contents) < BUFSIZE).
  { intros contents Hlt. rewrite length_firstn in Hlt.
    assert (length contents < Z.to_nat BUFSIZE)%nat by lia.
    split; [apply firstn_all2; lia | lia]. }
  (* what follows the loading of the map *)
  assert (Hrest : forall s1,
    (exists s',
       (let (r, s'0) :=
          match sys_file sys file with
          | Some contents =>
              sassert (Z.of_nat (length (firstn (Z.to_nat BUFSIZE) contents))
                       <? BUFSIZE) ;;
              r <- parse_and_validate_addr
                     (c_str (firstn (Z.to_nat BUFSIZE) contents ++ [NUL])) ;;
              sret (fst r, XiaAddress AF_XIA (snd r))
          | None =>
              sys_fprintf_stderr "set_sockaddr_xia" ;;
              sret (sys_errno sys file, XiaAddress 0 {| s_row := [] |})
          end s1 in
        match r with
        | Ok a0 =>
            (sassert (negb (truthy (fst a0))) ;;
             sret (snd a0, sizeof_sockaddr_xia)) s'0
        | AssertFailed => (AssertFailed, s'0)
        | Exited st => (Exited st, s'0)
        | OutOfFuel => (OutOfFuel, s'0)
        end) = (Ok (a, len), s'))
    <->
    exists contents rc addr,
      sys_file sys file = Some contents /\
      Z.of_nat (length contents) < BUFSIZE /\
      xia_pton (c_str (contents ++ [NUL])) = (rc, addr, 0) /\
      0 <= rc /\ 0 <= xia_test_addr addr /\
      a = XiaAddress AF_XIA addr /\ len = sizeof_sockaddr_xia).
  { intros s1. destruct (sys_file sys file) as [contents|].
    - unfold sbind at 1. unfold sassert at 1.
      destruct (Z.ltb_spec (Z.of_nat (length (firstn (Z.to_nat BUFSIZE) contents)))
                  BUFSIZE) as [Hlt|Hge].
      + destruct (Hfirstn contents Hlt) as [-> Hlen].
        unfold sbind at 1.
        pose proof (parse_and_validate_addr_cases
                      (c_str (contents ++ [NUL])) s1) as Hp.
        destruct (xia_pton (c_str (contents ++ [NUL]))) as [[rc0 addr] flag]
          eqn:Epton.
        cbn [fst snd] in Hp.
        destruct (parse_and_validate_addr (c_str (contents ++ [NUL])) s1)
          as [[[rc a0]| | |] s2]; cbn [fst snd sret] in *.
        * destruct Hp as (-> & Hiff).
          unfold sbind, sassert, sret, truthy.
          destruct (Z.eqb_spec rc 0) as [E|E]; cbn [negb].
          -- destruct (proj1 Hiff E) as (H1 & H2 & ->). split.
             ++ intros [s' [= <- <- <-]]. exists contents, rc0, addr.
                now repeat split.
             ++ intros (c' & rc' & addr' & [= <-] & _ & Hp' & _ & _ & -> & ->).
                rewrite Epton in Hp'. injection Hp' as <- <-. now eexists.
          -- split; [intros [s' E']; discriminate|].
             intros (c' & rc' & addr' & [= <-] & _ & Hp' & H1 & H2 & _).
             rewrite Epton in Hp'. injection Hp' as <- <- ->.
             exfalso. apply E. now apply Hiff.
        * destruct Hp as (H1 & H2). split; [intros [s' E']; discriminate|].
          intros (c' & rc' & addr' & [= <-] & _ & Hp' & _ & H3 & _).
          rewrite Epton in Hp'. injection Hp' as <- <- ->. lia.
        * contradiction.
        * contradiction.
      + split; [intros [s' E']; discriminate|].
        intros (c' & rc' & addr' & [= <-] & Hlen & _).
        rewrite length_firstn in Hge. lia.
    - unfold sbind, sys_fprintf_stderr, sassert, sret, truthy. cbn [fst snd].
      destruct (Z.eqb_spec (sys_errno sys file) 0) as [E|E]; [contradiction|].
      cbn [negb]. split; [intros [s' E']; discriminate|].
      intros (c' & rc' & addr' & E' & _). discriminate. }
  destruct (truthy (ppal_map_loaded s)) eqn:Et.
  - rewrite Hrest. split; [intros Hr; split; [lia|]; split; [now left | exact Hr]|].
    now intros (_ & _ & Hr).
  - cbv zeta.
    destruct (Z.eqb_spec (sys_init_ppal_map sys (sys_calls s)) 0) as [E|E].
    + rewrite Hrest. split; [intros Hr; split; [lia|]; split; [now right | exact Hr]|].
      now intros (_ & _ & Hr).
    + split; [intros [s' E']; discriminate|].
      intros (_ & [Hl|Hl] & _); [discriminate | contradiction].
Qed.


End XiaAddresses.

(** ** One batch, of any length *)

Lemma to_int_range (z : Z) : - 2147483648 <= to_int z <= INT_MAX.
Proof.
  unfold to_int, INT_MAX.
  pose proof (Z.mod_pos_bound (z + 2147483648) 4294967296). lia.
Qed.

(** X30. A file that is one batch long, over a stream that loses nothing.
    When [bytes_sent] has not come round to a negative count, the engine
    returns normally with nothing on the standard error stream, and the
    copy is the first [bytes_sent] bytes of the file, [bytes_sent] being
    the length of the file as an [int] holds it: the copy is the file
    exactly when the file is no longer than [INT_MAX] bytes. *)
Theorem one_batch_round_trip {P : Platform} (net : network)
    (contents : list byte) (chunk_size times : Z) (f : bool) :
  stream_no_loss net ->
  0 < chunk_size -> 0 < times <= INT_MAX ->
  chunk_size * (times - 1) < Z.of_nat (length contents) <= chunk_size * times ->
  0 <= to_int (Z.of_nat (length contents)) ->
  exists p,
    stream_process_file net contents chunk_size times f start = (Ok tt, p) /\
    stderr p = ""%string /\
    copy p = firstn (Z.to_nat (to_int (Z.of_nat (length contents)))) contents /\
    (copy p = contents <-> Z.of_nat (length contents) <= INT_MAX).
Proof.
  intros Hnet Hcs Ht Hone Hpos.
  destruct (stream_one_batch net Hnet contents chunk_size times f Hcs Ht Hone
              Hpos) as (p & Hrun & Hcopy & Herr).
  exists p. split; [exact Hrun|]. split; [exact Herr|]. split; [exact Hcopy|].
  rewrite Hcopy. split.
  - intros E. apply (f_equal (@length byte)) in E.
    rewrite length_firstn in E.
    pose proof (to_int_range (Z.of_nat (length contents))). lia.
  - intros Hle. rewrite to_int_small by (unfold INT_MAX in *; lia).
    now rewrite Nat2Z.id, firstn_all.
Qed.

(** * Runs of the model *)

Lemma firstn_repeat_le {A : Type} (x : A) (n m : nat) :
  (n <= m)%nat -> firstn n (repeat x m) = repeat x n.
Proof.
  revert m; induction n as [|n IH]; intros [|m] H; cbn; try reflexivity; try lia.
  f_equal. apply IH. lia.
Qed.


Lemma echo_net_never_fatal :
  datagram_never_fatal (echo_net srv_in 16) srv_in 16 /\
  stream_never_fatal (echo_net srv_in 16).
Proof.
  split.
  - intros h. split; [intros; cbn; lia|]. split; [cbn; lia|].
    exists srv_in, 16, (unechoed h). split; reflexivity.
  - intros h buf. reflexivity.
Qed.

Lemma echo_net_no_loss :
  datagram_no_loss (echo_net srv_in 16) srv_in 16 /\
  stream_no_loss (echo_net srv_in 16).
Proof.
  split.
  - intros h. split; [intros; cbn; lia|]. split; [reflexivity|].
    exists srv_in, 16. split; reflexivity.
  - intros h. split; [reflexivity|]. intros n Hne.
    exists (inflight h), []. cbn. rewrite app_nil_r. repeat split. exact Hne.
Qed.

Lemma route_a_length : effective_length route_a 2.
Proof.
  split; [cbn; lia|]. split; [|intros _; reflexivity].
  intros [|[|i]] Hi; [discriminate | discriminate | lia].
Qed.

Lemma route_b_length : effective_length route_b 3.
Proof.
  split; [cbn; lia|]. split; [|intros _; reflexivity].
  intros [|[|[|i]]] Hi; [discriminate | discriminate | discriminate | lia].
Qed.

Lemma route_c_length : effective_length route_c 2.
Proof.
  split; [cbn; lia|]. split; [|intros _; reflexivity].
  intros [|[|i]] Hi; [discriminate | discriminate | lia].
Qed.

(** One row counts in [stale_route]: the second is the sentinel, and the
    third is not looked at. *)
Lemma stale_route_length : effective_length stale_route 1.
Proof.
  split; [cbn; lia|]. split; [|intros _; reflexivity].
  intros [|i] Hi; [discriminate | lia].
Qed.

Lemma same_xid_example (ty : Z) (id id' : list byte) :
  map (id_byte {| xid_type := ty; xid_id := id |}) (seq 0 XIA_XID_MAX)
  = map (id_byte {| xid_type := ty; xid_id := id' |}) (seq 0 XIA_XID_MAX) ->
  same_xid {| xid_type := ty; xid_id := id |} {| xid_type := ty; xid_id := id' |}.
Proof.
  intros H. split; [reflexivity|]. intros i Hi.
  apply (f_equal (fun l => nth i l x00)) in H.
  now rewrite !nth_map_seq in H by exact Hi.
Qed.

Lemma address_match_suffix_only_witness :
  address_match route_a 0 route_b 0 = Ok true /\
  address_match route_a 0 route_c 0 = Ok false /\
  address_match stale_route 0 route_a 0 = Ok true /\
  address_match stale_route 0 route_b 0 = address_match route_a 0 route_b 0.
Proof.
  split; [|split; [|split]].
  - apply (address_match_suffix_only route_a route_b 0 0 1 2);
      [reflexivity | reflexivity | exact route_a_length | exact route_b_length |].
    now apply same_xid_example.
  - apply (address_match_suffix_only route_a route_c 0 0 1 1);
      [reflexivity | reflexivity | exact route_a_length | exact route_c_length |].
    intros [_ H]. specialize (H 1%nat). cbn in H.
    assert (E : x0b = x0c) by (apply H; lia). discriminate E.
  - apply (address_match_suffix_only stale_route route_a 0 0 0 1);
      [reflexivity | reflexivity | exact stale_route_length
      | exact route_a_length |].
    now apply same_xid_example.
  - destruct (address_match_suffix_only route_a route_b 0 0 1 2)
      as (_ & _ & Hsame);
      [reflexivity | reflexivity | exact route_a_length | exact route_b_length |].
    apply (Hsame stale_route 0 0%nat route_b 0 2%nat);
      [reflexivity | reflexivity | exact stale_route_length
      | exact route_b_length | now apply same_xid_example
      | now apply same_xid_example].
Defined.

Lemma address_match_cross_family_witness :
  address_match srv_in 16 route_a 16 = AssertFailed.
Proof.
  apply (address_match_cross_family srv_in route_a 16 16).
  vm_compute. discriminate.
Defined.

Lemma address_match_zero_rows_witness :
  address_match route_a 0 no_route 0 = AssertFailed.
Proof.
  apply (address_match_zero_rows route_a no_route 0 0); try reflexivity.
  right; left. reflexivity.
Defined.

Lemma round_trip_no_loss_witness :
  (exists p,
     datagram_process_file (echo_net srv_in 16) srv_in 16 (bytes_1_to 10) 4 2
       true start = (Ok tt, p) /\
     copy p = bytes_1_to 10) /\
  (exists p,
     stream_process_file (echo_net srv_in 16) (bytes_1_to 10) 4 2 true start
     = (Ok tt, p) /\
     copy p = bytes_1_to 10).
Proof.
  destruct (round_trip_no_loss (echo_net srv_in 16) srv_in 16 (bytes_1_to 10)
              4 2 true) as [Hd Hs];
    [reflexivity | reflexivity | vm_compute; discriminate |].
  split; [apply Hd | apply Hs]; apply echo_net_no_loss.
Defined.

Lemma wrong_peer_is_fatal_witness :
  (exists p',
     recv_write (echo_net other_in 16) srv_in 16 4 start = (AssertFailed, p') /\
     copy p' = copy start) /\
  fst (datagram_process_file (echo_net other_in 16) srv_in 16
         (bytes_1_to 6) 4 1 true start) = AssertFailed.
Proof.
  destruct (wrong_peer_is_fatal (echo_net other_in 16) srv_in 16) as [H1 H2].
  split.
  - apply (H1 4 start other_in 16 []);
      [reflexivity | reflexivity | vm_compute; discriminate].
  - apply (H2 (bytes_1_to 6) 4 1 true 4 other_in 16 [x01; x02; x03; x04]);
      [vm_compute; left; reflexivity | vm_compute; discriminate].
Defined.

Lemma short_write_is_fatal_witness :
  (exists p',
     stream_send_chunk (narrow_net 2) 4 zero_counters (opened (bytes_1_to 6))
     = (AssertFailed, p') /\
     calls p' = [Write [x01; x02; x03; x04] 2]) /\
  fst (stream_process_file (narrow_net 2) (bytes_1_to 6) 4 1 true start)
  = AssertFailed.
Proof.
  destruct (short_write_is_fatal (narrow_net 2)) as [H1 H2]. split.
  - destruct (H1 4 zero_counters (opened (bytes_1_to 6)))
      as (p' & Hrun & Hcalls & _);
      [vm_compute; discriminate | vm_compute; discriminate |].
    exists p'. split; [exact Hrun | exact Hcalls].
  - apply (H2 (bytes_1_to 6) 4 1 true [x01; x02; x03; x04] 2);
      [vm_compute; left; reflexivity | vm_compute; discriminate].
Defined.

Lemma datagram_loss_tolerated_witness :
  recv_write silent_net srv_in 16 4 one_chunk_sent
  = (Ok tt, lost one_chunk_sent) /\
  datagram_turn silent_net srv_in 16 4 1 true zero_counters
    (opened (bytes_1_to 6))
  = (Ok zero_counters, lost (with_calls (Mark :: calls one_chunk_sent)
                               one_chunk_sent)).
Proof.
  destruct (datagram_loss_tolerated silent_net srv_in 16) as [H1 H2]. split.
  - apply (H1 4 one_chunk_sent). reflexivity.
  - apply (H2 4 1 true 3%nat zero_counters {| count := 1; bytes_sent := 4 |}
             (opened (bytes_1_to 6)) one_chunk_sent);
      reflexivity.
Defined.

Lemma read_write_semantics_witness :
  0 <= 4 /\
  exists evs,
    Forall good_read evs /\
    read_write (echo_net srv_in 16) 4 four_written
    = fwrite (received evs) 4 (with_calls (evs ++ calls four_written) four_written).
Proof.
  split; [lia|].
  destruct (read_write_semantics (echo_net srv_in 16) 4 four_written)
    as (evs & [(Hall & _ & Hrun & _) | (e & evs' & -> & _ & _ & _ & Hrun & _)]);
    [lia | |].
  - exists evs. split; assumption.
  - vm_compute in Hrun. discriminate.
Defined.

Lemma short_datagram_accepted_witness :
  exists p',
    recv_write terse_net srv_in 16 4 start = (Ok tt, p') /\
    copy p' = [x01; x02] /\ stderr p' = ""%string.
Proof.
  destruct (short_datagram_accepted terse_net srv_in 16 4 start srv_in 16
              [x01; x02]) as (p' & Hrun & Hcopy & _ & Herr);
    [reflexivity | reflexivity | reflexivity | reflexivity |].
  exists p'. split; [exact Hrun|]. split; [exact Hcopy | exact Herr].
Defined.

(** The claim as the specification words it fails on a file of 7 bytes
    read in chunks of 4 with a checkpoint every 2 chunks: 7 is positive and
    no multiple of 8, but both chunks are flushed by the checkpoint inside
    the loop, and nothing is received after it. *)
Lemma partial_final_batch_counterexample :
  let contents := bytes_1_to 7 in
  let len := Z.of_nat (length contents) in
  0 < len /\ len mod (4 * 2) <> 0 /\
  datagram_never_fatal (echo_net srv_in 16) srv_in 16 /\
  ~ datagram_flushes_after_loop (echo_net srv_in 16) srv_in 16 contents 4 2
      true (len mod (4 * 2)) /\
  datagram_nothing_after_loop (echo_net srv_in 16) srv_in 16 contents 4 2 true.
Proof.
  cbv zeta. split; [reflexivity|]. split; [discriminate|].
  split; [apply echo_net_never_fatal|]. split.
  - intros (c & p1 & Hloop & Hrun). vm_compute in Hloop.
    injection Hloop as <- <-. vm_compute in Hrun. discriminate.
  - eexists _, _. split; vm_compute; reflexivity.
Qed.

Lemma partial_final_batch_flushed_witness :
  let contents := bytes_1_to 10 in
  datagram_flushes_after_loop (echo_net srv_in 16) srv_in 16 contents 4 100
    true 10 /\
  stream_flushes_after_loop (echo_net srv_in 16) contents 4 100 true 10.
Proof.
  cbv zeta.
  destruct (partial_final_batch_flushed (echo_net srv_in 16) srv_in 16
              (bytes_1_to 10) 4 100 true) as (_ & Hd & Hs);
    [reflexivity | reflexivity | vm_compute; discriminate
    | vm_compute; discriminate |].
  split; [apply Hd | apply Hs]; apply echo_net_never_fatal.
Defined.

(** C1, at a batch that [bytes_sent] cannot count: a file of 4295032832
    bytes (2^32 + 65536) sent over the stream in chunks of 65536 bytes,
    65537 chunks to the batch, on a connection that loses nothing and
    echoes every byte.  The counter has come round to 65536 when the
    batch is complete; the one checkpoint reads 65536 bytes, finds as
    many as it asked for and writes them; no read fails, nothing goes to
    the standard error stream and the engine returns normally.  The copy
    is the first 65536 bytes of the file, not the file. *)
Theorem long_batch_loses_bytes :
  let contents := repeat x2a (Z.to_nat 4295032832) in
  let net := echo_net srv_in 16 in
  stream_no_loss net /\
  exists p,
    stream_process_file net contents 65536 65537 true start = (Ok tt, p) /\
    stderr p = ""%string /\
    copy p = firstn (Z.to_nat 65536) contents /\
    Z.of_nat (length (copy p)) = 65536 /\
    copy p <> contents.
Proof.
  cbv zeta. split; [apply echo_net_no_loss|].
  assert (Hlen : Z.of_nat (length (repeat x2a (Z.to_nat 4295032832)))
                 = 4295032832).
  { rewrite repeat_length, Z2Nat.id by lia. reflexivity. }
  destruct (stream_one_batch (echo_net srv_in 16) (proj2 echo_net_no_loss)
              (repeat x2a (Z.to_nat 4295032832)) 65536 65537 true)
    as (p & Hrun & Hcopy & Herr).
  - lia.
  - unfold INT_MAX. lia.
  - rewrite Hlen. lia.
  - rewrite Hlen. vm_compute. discriminate.
  - rewrite Hlen in Hcopy.
    change (to_int 4295032832) with 65536 in Hcopy.
    assert (Hcut : copy p = repeat x2a (Z.to_nat 65536)).
    { rewrite Hcopy. apply firstn_repeat_le. lia. }
    exists p. split; [exact Hrun|]. split; [exact Herr|].
    split; [exact Hcopy|]. split.
    + rewrite Hcut, repeat_length, Z2Nat.id by lia. reflexivity.
    + rewrite Hcut. intros E. apply (f_equal (@length byte)) in E.
      rewrite !repeat_length in E. lia.
Qed.

(** ** More runs of the model *)

Lemma terse_net_never_fatal :
  datagram_never_fatal terse_net srv_in 16 /\ stream_never_fatal terse_net.
Proof.
  split.
  - intros h. split; [intros; cbn; lia|]. split; [cbn; lia|].
    exists srv_in, 16, [x01; x02]. split; reflexivity.
  - intros h buf. reflexivity.
Qed.

Lemma pipe_net_source (src : list byte) : source_of (pipe_net src) src.
Proof.
  intros h n. exists (firstn 2 (left_of src h)), (skipn 2 (left_of src h)).
  split; [reflexivity|]. split; [now rewrite firstn_skipn|].
  now destruct (left_of src h).
Qed.

Lemma address_match_inet_witness :
  address_match srv_in 16 srv_in 16 = Ok true /\
  address_match srv_in 16 other_in 16 = Ok false.
Proof.
  destruct (address_match_inet srv_in srv_in 16 16) as (H1 & _ & _);
    [reflexivity | reflexivity |].
  destruct (address_match_inet srv_in other_in 16 16) as (_ & H2 & _);
    [reflexivity | reflexivity |].
  split; [apply H1; now split | apply H2; right; vm_compute; discriminate].
Defined.

Lemma failed_send_exits_witness :
  fst (send_packet down_net [x01; x02] 2 srv_in 16 start) = Exited 1 /\
  fst (datagram_process_file down_net srv_in 16 (bytes_1_to 6) 4 2 true start)
  = Exited 1.
Proof.
  destruct (failed_send_exits down_net srv_in 16) as [H1 H2]. split.
  - destruct (H1 [x01; x02] 2 start) as (_ & H & _). apply H. reflexivity.
  - apply (H2 (bytes_1_to 6) 4 2 true [x01; x02; x03; x04] srv_in 16 (-1));
      [vm_compute; left; reflexivity | lia].
Defined.

Lemma failed_receive_aborts_witness :
  fst (datagram_process_file deaf_net srv_in 16 (bytes_1_to 6) 4 1 true start)
  = AssertFailed.
Proof.
  apply (failed_receive_aborts deaf_net srv_in 16 (bytes_1_to 6) 4 1 true
           (Select (-1))).
  - vm_compute. left. reflexivity.
  - left. exists (-1). split; [reflexivity | lia].
Defined.

Lemma datagram_sends_file_in_order_witness :
  handed (calls (snd (datagram_process_file (echo_net srv_in 16) srv_in 16
                        (bytes_1_to 10) 4 2 true start)))
  = bytes_1_to 10.
Proof.
  apply (datagram_sends_file_in_order (echo_net srv_in 16) srv_in 16
           (bytes_1_to 10) 4 2 true).
  reflexivity.
Defined.

Lemma stream_writes_file_in_order_witness :
  handed (calls (snd (stream_process_file (echo_net srv_in 16)
                        (bytes_1_to 10) 4 2 true start)))
  = bytes_1_to 10.
Proof.
  apply (stream_writes_file_in_order (echo_net srv_in 16)
           (bytes_1_to 10) 4 2 true).
  reflexivity.
Defined.

Lemma empty_file_no_traffic_witness :
  datagram_process_file (echo_net srv_in 16) srv_in 16 [] 4 2 true start
  = (Ok tt, {| orig := []; orig_eof := true; copy := []; stderr := ""%string;
               calls := [] |}).
Proof.
  apply (empty_file_no_traffic (echo_net srv_in 16) srv_in 16 4 2 true start);
    [lia | discriminate].
Defined.

Lemma zero_chunk_size_never_ends_witness :
  datagram_loop (echo_net srv_in 16) 1000 srv_in 16 0 2 true zero_counters
    (opened (bytes_1_to 6))
  = (OutOfFuel, opened (bytes_1_to 6)).
Proof.
  destruct (zero_chunk_size_never_ends (echo_net srv_in 16) srv_in 16 2 true
              (bytes_1_to 6) 1000) as [H _]; [discriminate | exact H].
Defined.

Lemma mirror_never_longer_witness :
  exists p,
    datagram_process_file terse_net srv_in 16 (bytes_1_to 10) 4 2 true start
    = (Ok tt, p) /\
    (length (copy p) <= length (bytes_1_to 10))%nat.
Proof.
  apply (mirror_never_longer terse_net srv_in 16 (bytes_1_to 10) 4 2 true);
    [reflexivity | reflexivity | vm_compute; discriminate
    | apply terse_net_never_fatal].
Defined.

Lemma copy_data_copies_witness :
  exists evs,
    copy_data (pipe_net (bytes_1_to 5)) 6 start
    = (Ok tt, with_calls (evs ++ calls start) start) /\
    written evs = bytes_1_to 5.
Proof.
  apply (copy_data_copies (pipe_net (bytes_1_to 5)) (bytes_1_to 5) start).
  - apply pipe_net_source.
  - intros h buf. reflexivity.
  - reflexivity.
Defined.

Lemma fopen_copy_name_appends_witness :
  fopen_copy_name "data.bin" = Ok "data.bin_echo"%string.
Proof.
  apply (fopen_copy_name_appends "data.bin"). vm_compute. discriminate.
Defined.

Lemma read_command_result_witness :
  exists taken,
    stdin keyboard = taken ++ stdin (snd (read_command 8 [] keyboard)).
Proof.
  apply (read_command_result 8 [] keyboard). lia.
Defined.

Lemma read_command_next_line_witness :
  exists buf',
    read_command 8 [] keyboard
    = (Ok (buf', 2), with_stdin [x71; x75; x69; x74; x0a] keyboard) /\
    c_str buf' = [x6c; x73].
Proof.
  apply (read_command_next_line 8 [] keyboard [x0a; x0a] [x6c; x73]
           [x71; x75; x69; x74; x0a]);
    try reflexivity; try lia; try discriminate.
  - repeat constructor.
  - intros [H|[H|[]]]; discriminate.
  - intros [H|[H|[]]]; discriminate.
Defined.

Lemma read_command_last_line_witness :
  exists buf',
    read_command 8 [] (typed [x0a; x6c; x73])
    = (Ok (buf', 2), at_end (typed [x0a; x6c; x73])) /\
    c_str buf' = [x6c; x73].
Proof.
  apply (read_command_last_line 8 [] (typed [x0a; x6c; x73]) [x0a] [x6c; x73]);
    try reflexivity; try lia; try discriminate.
  - repeat constructor.
  - intros [H|[H|[]]]; discriminate.
  - intros [H|[H|[]]]; discriminate.
Defined.

Lemma read_command_long_line_witness :
  exists buf',
    read_command 4 [] (typed [x71; x75; x69; x74; x0a])
    = (Ok (buf', 3), with_stdin [x74; x0a] (typed [x71; x75; x69; x74; x0a])) /\
    c_str buf' = [x71; x75; x69].
Proof.
  apply (read_command_long_line 4 [] (typed [x71; x75; x69; x74; x0a]) []
           [x71; x75; x69] [x74; x0a]);
    try reflexivity; try lia.
  - constructor.
  - intros [H|[H|[H|[]]]]; discriminate.
  - intros [H|[H|[H|[]]]]; discriminate.
Defined.

Lemma read_command_end_of_input_witness :
  exists buf',
    read_command 8 [] (typed [x0a; x0a])
    = (Ok (buf', 0), at_end (typed [x0a; x0a])) /\
    c_str buf' = [].
Proof.
  apply (read_command_end_of_input 8 [] (typed [x0a; x0a]) [x0a; x0a]);
    try reflexivity; try lia.
  repeat constructor.
Defined.

Lemma read_command_read_error_witness :
  fst (read_command 8 [] broken_terminal) = Exited 1.
Proof.
  rewrite (read_command_read_error 8 [] broken_terminal [x0a] [x6c]);
    [reflexivity | lia | repeat constructor | intros [H|[]]; discriminate
    | cbn; lia | reflexivity | reflexivity | reflexivity].
Defined.

Lemma check_cli_params_accepts_witness :
  check_cli_params 7 7 ["echo"; "stream"; "ip"; "127.0.0.1"; "7"]%string
  = (Ok (0, 1), ""%string).
Proof.
  apply (check_cli_params_accepts 7 7
           ["echo"; "stream"; "ip"; "127.0.0.1"; "7"]%string 0 1 ""%string).
  exists "echo"%string, "stream"%string, "ip"%string, "127.0.0.1"%string,
    "7"%string.
  split; [reflexivity|]. split; [now right|]. split; [now right | reflexivity].
Defined.

Lemma check_cli_params_rejects_witness :
  check_cli_params 7 7 ["echo"; "stream"; "ip"; "127.0.0.1"]%string
  = (Exited 1, usage "echo").
Proof.
  apply (check_cli_params_rejects 7 7
           ["echo"; "stream"; "ip"; "127.0.0.1"]%string).
  intros v. vm_compute. discriminate.
Defined.

Lemma principal_types_are_cached_witness :
  let s1 := snd (get_xdp_type example_system fresh) in
  let s2 := snd (run_calls example_system [GetSrvcType; AnySocket 1 1] s1) in
  get_xdp_type example_system s2 = (Ok 25, s2).
Proof.
  cbv zeta.
  apply (principal_types_are_cached example_system fresh
           (snd (get_xdp_type example_system fresh)) 25
           [GetSrvcType; AnySocket 1 1]);
    [discriminate | reflexivity].
Defined.

Lemma get_addr_xia_checked_witness :
  exists s',
    __get_addr example_system 1 (Some "srv.addr"%string) None fresh
    = (Ok (XiaAddress 41 {| s_row := [xid 16 [x01]] |}, 116), s').
Proof.
  apply (get_addr_xia_checked example_system 1 "srv.addr" None fresh);
    [reflexivity | discriminate |].
  split; [discriminate|]. split; [now right|].
  exists [x41; x0a], 2, {| s_row := [xid 16 [x01]] |}.
  repeat split; try reflexivity; discriminate.
Defined.


Lemma one_batch_round_trip_witness :
  exists p,
    stream_process_file (echo_net srv_in 16) (bytes_1_to 10) 4 3 true start
    = (Ok tt, p) /\
    copy p = bytes_1_to 10.
Proof.
  destruct (one_batch_round_trip (echo_net srv_in 16) (bytes_1_to 10) 4 3 true)
    as (p & Hrun & _ & _ & Hiff);
    [apply echo_net_no_loss | lia | unfold INT_MAX; lia | cbn; lia
    | vm_compute; discriminate |].
  exists p. split; [exact Hrun|]. apply Hiff. vm_compute. discriminate.
Defined.
